(** * FAQ retrieval service: sync pipeline, vector retrieval, lexical retrieval

    A shallow embedding of the FAQ service under api/server/services/faq:

    - embeddings.js : [Embeddings.generateEmbedding], [Embeddings.generateEmbeddingsBatch]
    - qdrant.js     : [Qdrant.ensureCollection], [Qdrant.upsertPoints], [Qdrant.searchVectors]
    - sync.js       : [Sync.combineFaqText], [Sync.getFaqId], [Sync.fetchFaqs], [Sync.syncFaqs]
    - index.js      : [Lexical.fetchFaqs], [Lexical.selectRelevantFaqs],
                      [Lexical.formatFaqContext], [Lexical.getFaqContext]
    - the vector retrieval module (formatFaqContext, getFaqContext over
      generateEmbedding and searchVectors) : [Vector.formatFaqContext],
      [Vector.getFaqContext]

    JavaScript strings are sequences of UTF-16 code units; asynchronous
    functions are programs over the calls they make to the outside world
    (clock, FAQ feed, embedding provider, Qdrant), which an environment
    answers.  Logging is not modelled, nor is the construction of the
    shared Qdrant client, which makes no call. *)

From Stdlib Require Import String Ascii.
From Stdlib Require Import ZArith NArith List Bool Lia QArith.
From Stdlib Require Import Permutation Sorted DecimalString.
Import ListNotations.

Set Implicit Arguments.

Local Open Scope Z_scope.

(* ================================================================== *)
(** * JavaScript strings and the string methods the service uses *)
(* ================================================================== *)

Module JS.

(** A string is its list of UTF-16 code units; [length] is [.length]. *)
Definition jsstring := list N.

(** A literal, for code units below 256. *)
Definition js (s : string) : jsstring := List.map N_of_ascii (list_ascii_of_string s).

Definition str_eqb (a b : jsstring) : bool :=
  if list_eq_dec N.eq_dec a b then true else false.

(** WhiteSpace and LineTerminator code points: what [trim] strips, what
    the regular expression class \s matches, and what [parseInt] skips. *)
Definition isWhiteSpace (c : N) : bool :=
  ((9 <=? c) && (c <=? 13) || (c =? 32) || (c =? 160) || (c =? 5760)
   || (8192 <=? c) && (c <=? 8202) || (c =? 8232) || (c =? 8233)
   || (c =? 8239) || (c =? 8287) || (c =? 12288) || (c =? 65279))%N.

Fixpoint dropWhile {A} (f : A -> bool) (l : list A) : list A :=
  match l with
  | [] => []
  | x :: l' => if f x then dropWhile f l' else l
  end.

Fixpoint takeWhile {A} (f : A -> bool) (l : list A) : list A :=
  match l with
  | [] => []
  | x :: l' => if f x then x :: takeWhile f l' else []
  end.

(** [s.trim()] *)
Definition trim (s : jsstring) : jsstring :=
  rev (dropWhile isWhiteSpace (rev (dropWhile isWhiteSpace s))).

(** [s.startsWith(p)] *)
Fixpoint startsWith (s p : jsstring) : bool :=
  match p, s with
  | [], _ => true
  | _ :: _, [] => false
  | a :: p', b :: s' => (a =? b)%N && startsWith s' p'
  end.

(** [s.includes(t)] *)
Fixpoint includes (s t : jsstring) : bool :=
  startsWith s t ||
  match s with
  | [] => false
  | _ :: s' => includes s' t
  end.

(** [s.replace(pat, rep)] with a string pattern: the first occurrence only. *)
Fixpoint replace (s pat rep : jsstring) : jsstring :=
  if startsWith s pat then rep ++ skipn (length pat) s
  else match s with
       | [] => []
       | c :: s' => c :: replace s' pat rep
       end.

(** [s.split(/\s+/)]: the pieces between maximal runs of white space; a
    leading or trailing run leaves an empty piece at that end. *)
Fixpoint splitWs_from (cur : jsstring) (inRun : bool) (s : jsstring) : list jsstring :=
  match s with
  | [] => [rev cur]
  | c :: s' =>
      if isWhiteSpace c
      then if inRun then splitWs_from [] true s'
           else rev cur :: splitWs_from [] true s'
      else splitWs_from (c :: cur) false s'
  end.

Definition splitWs (s : jsstring) : list jsstring := splitWs_from [] false s.

Definition isDigit (c : N) : bool := ((48 <=? c) && (c <=? 57))%N.

Definition digitsValue (ds : list N) : Z :=
  fold_left (fun acc d => 10 * acc + (Z.of_N d - 48)) ds 0.

(** [parseInt(s, 10)]: skip leading white space, read an optional sign,
    then the longest run of decimal digits; [None] is NaN.  The value is
    the mathematical integer; JavaScript returns it exactly while its
    magnitude stays below 2^53 and rounds it to a double beyond. *)
Definition parseInt (s : jsstring) : option Z :=
  let s1 := dropWhile isWhiteSpace s in
  let '(sign, s2) :=
    match s1 with
    | 45%N :: r => (-1, r)
    | 43%N :: r => (1, r)
    | _ => (1, s1)
    end in
  match takeWhile isDigit s2 with
  | [] => None
  | ds => Some (sign * digitsValue ds)
  end.

(** [s.split('').reduce((acc, char) => acc + char.charCodeAt(0), 0)] *)
Definition charCodeSum (s : jsstring) : Z :=
  fold_left (fun acc char => acc + Z.of_N char) s 0.

(** [a || b] on numbers, where [a] may be NaN: NaN and 0 are falsy. *)
Definition orNumber (a : option Z) (b : Z) : Z :=
  match a with
  | Some n => if n =? 0 then b else n
  | None => b
  end.

(** [x.slice(0, n)] on a string or an array, for an integer [n]: a
    negative [n] counts from the end. *)
Definition slice0 {A} (l : list A) (n : Z) : list A :=
  if n <? 0
  then firstn (Z.to_nat (Z.max 0 (Z.of_nat (length l) + n))) l
  else firstn (Z.to_nat n) l.

(** [x.slice(i, j)] for indices [0 <= i], [0 <= j]. *)
Definition slice {A} (l : list A) (i j : nat) : list A :=
  skipn i (firstn j l).

(** [String(n)] for a non-negative integer. *)
Definition ofNat (n : nat) : jsstring := js (NilEmpty.string_of_uint (Nat.to_uint n)).

(** [parts.join(sep)] *)
Fixpoint join (sep : jsstring) (parts : list jsstring) : jsstring :=
  match parts with
  | [] => []
  | [p] => p
  | p :: rest => p ++ sep ++ join sep rest
  end.

(** A string read from [process.env] or from a JSON field that may be
    absent: [None] is undefined / null. *)
Definition truthy (o : option jsstring) : bool :=
  match o with
  | Some (_ :: _) => true
  | _ => false
  end.

(** [a || b] *)
Definition orElse (a b : option jsstring) : option jsstring :=
  if truthy a then a else b.

(** [a || 'literal'] *)
Definition orDefault (a : option jsstring) (d : jsstring) : jsstring :=
  match a with
  | Some (c :: s) => c :: s
  | _ => d
  end.

(** [a ?? b] *)
Definition nullish {A} (a b : option A) : option A :=
  match a with
  | Some _ => a
  | None => b
  end.

(** The values a caller may pass where the code tests [typeof x]. *)
Inductive value : Type :=
| VUndefined
| VNull
| VBool (b : bool)
| VNum (n : Z)
| VStr (s : jsstring)
| VObject.

Definition LF : jsstring := [10%N].

End JS.

Import JS.

(* ================================================================== *)
(** * Data exchanged with the outside world *)
(* ================================================================== *)

(** Vector components and similarity scores are doubles the service only
    passes along; it never computes with them. *)
Definition float := Q.

(** A FAQ object of the upstream feed, with every field name the
    service reads; [None] is an absent (or null) field. *)
Record RawFaq : Type := mkRawFaq {
  faq_id : option jsstring;
  question : option jsstring;
  questionEnglish : option jsstring;
  title : option jsstring;
  answer : option jsstring;
  answerEnglish : option jsstring;
  response : option jsstring;
  questionHindi : option jsstring;
  answerHindi : option jsstring;
  category : option jsstring
}.

(** The body of the feed's HTTP response: an array of FAQ objects, or
    anything that is not an array.  An array element that is not an
    object (null, undefined) is outside this type: index.js and sync.js
    read the fields of every element unguarded and would throw a
    TypeError on it. *)
Inductive HttpData : Type :=
| DataArray (faqs : list RawFaq)
| DataOther.

(** [result.embedding?.values] of the provider's response. *)
Inductive EmbedValues : Type :=
| ValuesMissing                      (* undefined, null or another falsy value *)
| ValuesNotArray                     (* a truthy value that is not an array *)
| ValuesArray (values : list float).

(** The payload stored with a point. *)
Record Payload : Type := mkPayload {
  p_questionEnglish : option jsstring;
  p_questionHindi : option jsstring;
  p_answerEnglish : option jsstring;
  p_answerHindi : option jsstring;
  p_category : option jsstring;
  p_text : option jsstring
}.

Definition emptyPayload : Payload := mkPayload None None None None None None.

(** A point as Qdrant receives it. *)
Record PreparedPoint : Type := mkPrepared {
  pp_id : Z;
  pp_vector : list float;
  pp_payload : Payload
}.

(** A point as Qdrant's search returns it. *)
Record ScoredPoint : Type := mkScored {
  sp_id : Z;
  sp_score : float;
  sp_payload : option Payload
}.

(** Errors: the ones the service throws itself, and [External] for what
    a remote call or the HTTP client raises. *)
Inductive Error : Type :=
| GoogleKeyNotConfigured             (* 'GOOGLE_KEY is not configured' *)
| TextMustBeNonEmpty                 (* 'Text must be a non-empty string' *)
| GoogleKeyEmpty                     (* 'GOOGLE_KEY is empty or not set in environment variables' *)
| EmptyEmbeddingResult               (* 'Failed to generate embedding: empty result' *)
| FaqMissingId                       (* 'FAQ missing required id field' *)
| EmbeddingCountMismatch (expected got : nat)
| PointMissingId (index : nat)
| PointInvalidVector (index : nat) (id : jsstring)
| LoopFuelExhausted                  (* the model's loop ran out of fuel: see [batchLoop_fuel_enough] *)
| External (message : jsstring).

Inductive outcome (A : Type) : Type :=
| Returned (a : A)
| Thrown (e : Error).

Arguments Returned {A} a.
Arguments Thrown {A} e.

(* ================================================================== *)
(** * Programs over external calls *)
(* ================================================================== *)

Module Eff.

(** The calls the service makes, indexed by what they answer. *)
Inductive Event : Type -> Type :=
| DateNow : Event Z
| HttpGet (url : jsstring) (timeout : Z) : Event (outcome HttpData)
| EmbedContent (apiKey model text : jsstring) : Event (outcome EmbedValues)
| GetCollections : Event (outcome (list jsstring))
| CreateCollection (name : jsstring) (size : Z) : Event (outcome unit)
| Upsert (name : jsstring) (points : list PreparedPoint) : Event (outcome unit)
| Search (name : jsstring) (vector : list float) (limit : Z) (scoreThreshold : float)
    : Event (outcome (list ScoredPoint)).

(** An asynchronous function: it returns, throws, or makes a call and
    continues with the answer. *)
Inductive Prog (A : Type) : Type :=
| Ret (a : A)
| Throw (e : Error)
| Vis (X : Type) (ev : Event X) (k : X -> Prog A).

Arguments Ret {A} a.
Arguments Throw {A} e.
Arguments Vis {A X} ev k.

Fixpoint bind {A B} (p : Prog A) (f : A -> Prog B) : Prog B :=
  match p with
  | Ret a => f a
  | Throw e => Throw e
  | Vis ev k => Vis ev (fun x => bind (k x) f)
  end.

(** [try { p } catch (error) { h error }] *)
Fixpoint tryCatch {A} (p : Prog A) (h : Error -> Prog A) : Prog A :=
  match p with
  | Ret a => Ret a
  | Throw e => h e
  | Vis ev k => Vis ev (fun x => tryCatch (k x) h)
  end.

(** [await call], throwing what the call threw. *)
Definition await {X} (ev : Event (outcome X)) : Prog X :=
  Vis ev (fun r => match r with
                   | Returned x => Ret x
                   | Thrown e => Throw e
                   end).

Definition ofOutcome {A} (r : outcome A) : Prog A :=
  match r with
  | Returned a => Ret a
  | Thrown e => Throw e
  end.

(** A promise run to its settlement. *)
Definition settle {A} (p : Prog A) : Prog (outcome A) :=
  tryCatch (bind p (fun a => Ret (Returned a))) (fun e => Ret (Thrown e)).

Fixpoint settleAll {A} (ps : list (Prog A)) : Prog (list (outcome A)) :=
  match ps with
  | [] => Ret []
  | p :: ps' =>
      bind (settle p) (fun r =>
      bind (settleAll ps') (fun rs => Ret (r :: rs)))
  end.

Fixpoint collect {A} (rs : list (outcome A)) : outcome (list A) :=
  match rs with
  | [] => Returned []
  | Thrown e :: _ => Thrown e
  | Returned a :: rs' =>
      match collect rs' with
      | Returned l => Returned (a :: l)
      | Thrown e => Thrown e
      end
  end.

(** [l.map((x, index) => f x index)] where [f] may throw. *)
Fixpoint mapIndexed {A B} (f : A -> nat -> outcome B) (l : list A) (index : nat)
  : outcome (list B) :=
  match l with
  | [] => Returned []
  | x :: l' =>
      match f x index with
      | Thrown e => Thrown e
      | Returned y =>
          match mapIndexed f l' (S index) with
          | Thrown e => Thrown e
          | Returned ys => Returned (y :: ys)
          end
      end
  end.

(** [await Promise.all(ps)]: every promise of [ps] has been started and
    runs to its settlement; the result is the list of their values in
    the order of [ps], or a rejection as soon as one of them rejects.
    The calls are sequenced here in the order the promises were created,
    and the rejection reported is the first in that order (at run time
    it is the first in time). *)
Definition promiseAll {A} (ps : list (Prog A)) : Prog (list A) :=
  bind (settleAll ps) (fun rs => ofOutcome (collect rs)).

(** ** Running a program against an environment *)

(** An environment answers every call from its state. *)
Definition Handler (W : Type) : Type := forall X, Event X -> W -> X * W.

(** A call that was made. *)
Inductive Call : Type :=
| Called (X : Type) (ev : Event X).

Arguments Called {X} ev.

(** The calls made, in order, the result and the final state. *)
Fixpoint run {W A} (h : Handler W) (p : Prog A) (w : W) : list Call * outcome A * W :=
  match p with
  | Ret a => ([], Returned a, w)
  | Throw e => ([], Thrown e, w)
  | Vis ev k =>
      let '(x, w1) := h _ ev w in
      let '(tr, r, w2) := run h (k x) w1 in
      (Called ev :: tr, r, w2)
  end.

Definition trace {W A} (h : Handler W) (p : Prog A) (w : W) : list Call :=
  fst (fst (run h p w)).

Definition result {W A} (h : Handler W) (p : Prog A) (w : W) : outcome A :=
  snd (fst (run h p w)).

Definition final {W A} (h : Handler W) (p : Prog A) (w : W) : W :=
  snd (run h p w).

(** The outcomes of a list of promises started in order, each from the
    state its predecessor left. *)
Fixpoint outcomes {W A} (h : Handler W) (ps : list (Prog A)) (w : W)
  : list (outcome A) * W :=
  match ps with
  | [] => ([], w)
  | p :: ps' =>
      let rs := outcomes h ps' (snd (run h p w)) in
      (snd (fst (run h p w)) :: fst rs, snd rs)
  end.

Definition isUpsert (c : Call) : bool :=
  match c with
  | Called (Upsert _ _) => true
  | Called _ => false
  end.


(** A call to Qdrant, reading or writing. *)
Definition isQdrantCall (c : Call) : bool :=
  match c with
  | Called GetCollections => true
  | Called (CreateCollection _ _) => true
  | Called (Upsert _ _) => true
  | Called (Search _ _ _ _) => true
  | Called _ => false
  end.

(** Every call the program can make, whatever the answers, satisfies [P]. *)
Fixpoint callsOnly {A} (P : Call -> bool) (p : Prog A) : Prop :=
  match p with
  | Ret _ => True
  | Throw _ => True
  | Vis ev k => P (Called ev) = true /\ forall x, callsOnly P (k x)
  end.

Definition notUpsert (c : Call) : bool := negb (isUpsert c).
Definition notQdrant (c : Call) : bool := negb (isQdrantCall c).

End Eff.

Import Eff.

Declare Scope prog_scope.
Delimit Scope prog_scope with prog.
Notation "x <- c ;; k" := (bind c (fun x => k))
  (at level 61, c at next level, right associativity) : prog_scope.
Notation "c ;;; k" := (bind c (fun _ => k))
  (at level 61, right associativity) : prog_scope.
Local Open Scope prog_scope.

(* ================================================================== *)
(** * Configuration: process.env *)
(* ================================================================== *)

(** The environment variables the modules read when they are loaded.  A
    numeric variable is kept as [Number(process.env.X)]: [None] is NaN
    (an unset or non-numeric variable), [Some n] an integer; settings
    with a fractional part and infinite ones are not modelled. *)
Record ProcessEnv : Type := mkEnv {
  env_GOOGLE_KEY : option jsstring;
  env_GOOGLE_API_KEY : option jsstring;
  env_QDRANT_COLLECTION_NAME : option jsstring;
  env_FAQ_API_URL : option jsstring;
  env_FAQ_EMBEDDING_DIMENSIONS : option Z;
  env_FAQ_API_TIMEOUT_MS : option Z;
  env_FAQ_CACHE_TTL_MS : option Z;
  env_FAQ_MAX_RESULTS : option Z;
  env_FAQ_CONTEXT_CHAR_LIMIT : option Z
}.

(* ================================================================== *)
(** * embeddings.js *)
(* ================================================================== *)

Module Embeddings.
Section WithEnv.

Variable env : ProcessEnv.

(** [process.env.GOOGLE_KEY || process.env.GOOGLE_API_KEY] *)
Definition GOOGLE_API_KEY : option jsstring :=
  orElse (env_GOOGLE_KEY env) (env_GOOGLE_API_KEY env).

Definition EMBEDDING_MODEL : jsstring := js "gemini-embedding-001".

Definition generateEmbedding (text : value) : Prog (list float) :=
  if negb (truthy GOOGLE_API_KEY) then Throw GoogleKeyNotConfigured
  else
    match text with
    | VStr t =>
        if (length t =? 0)%nat || (length (trim t) =? 0)%nat
        then Throw TextMustBeNonEmpty
        else
          tryCatch
            (if negb (truthy GOOGLE_API_KEY)
                || str_eqb (trim (orDefault GOOGLE_API_KEY [])) []
             then Throw GoogleKeyEmpty
             else
               embedding <- await (EmbedContent (orDefault GOOGLE_API_KEY [])
                                                EMBEDDING_MODEL t) ;;
               match embedding with
               | ValuesArray (v :: vs) => Ret (v :: vs)
               | _ => Throw EmptyEmbeddingResult
               end)
            (fun error => Throw error)
    | _ => Throw TextMustBeNonEmpty
    end.

Definition batchSize : nat := 10.

(** The [for (let i = 0; i < texts.length; i += batchSize)] loop, one
    unit of fuel per test of the loop condition.  The 100 ms pause
    between batches is not modelled. *)
Fixpoint batchLoop (fuel : nat) (texts : list value) (i : nat)
                   (embeddings : list (list float)) : Prog (list (list float)) :=
  match fuel with
  | O => Throw LoopFuelExhausted
  | S fuel' =>
      if (i <? length texts)%nat then
        let batch := slice texts i (i + batchSize) in
        let batchPromises := List.map generateEmbedding batch in
        batchResults <- promiseAll batchPromises ;;
        batchLoop fuel' texts (i + batchSize) (embeddings ++ batchResults)
      else Ret embeddings
  end.

Definition generateEmbeddingsBatch (texts : list value) : Prog (list (list float)) :=
  if (length texts =? 0)%nat then Ret []
  else batchLoop (S (length texts)) texts 0 [].

End WithEnv.
End Embeddings.

(* ================================================================== *)
(** * qdrant.js *)
(* ================================================================== *)

Module Qdrant.

(** A point as [upsertPoints] receives it: [vector] is [None] when the
    field is missing or is not an array, [payload] is [None] when the
    field is missing. *)
Record Point : Type := mkPoint {
  id : jsstring;
  vector : option (list float);
  payload : option Payload
}.

(** A search result: [{ faqId, score, ...result.payload }]. *)
Record SearchResult : Type := mkResult {
  faqId : Z;
  score : float;
  r_questionEnglish : option jsstring;
  r_questionHindi : option jsstring;
  r_answerEnglish : option jsstring;
  r_answerHindi : option jsstring;
  r_category : option jsstring;
  r_text : option jsstring
}.

(** The numeric point id of an identifier. *)
Definition pointIdOf (id : jsstring) : Z :=
  if startsWith id (js "faq_") then
    let hash := replace id (js "faq_") [] in
    orNumber (parseInt hash) (Z.abs (charCodeSum hash))
  else
    orNumber (parseInt id) (Z.abs (charCodeSum id)).

(** The body of [points.map((point, index) => ...)]. *)
Definition preparePoint (point : Point) (index : nat) : outcome PreparedPoint :=
  if negb (truthy (Some (id point))) then Thrown (PointMissingId index)
  else
    match vector point with
    | None => Thrown (PointInvalidVector index (id point))
    | Some v =>
        Returned {| pp_id := pointIdOf (id point);
                    pp_vector := v;
                    pp_payload := match payload point with
                                  | Some p => p
                                  | None => emptyPayload
                                  end |}
    end.

Definition toSearchResult (result : ScoredPoint) : SearchResult :=
  let p := match sp_payload result with
           | Some p => p
           | None => emptyPayload
           end in
  {| faqId := sp_id result;
     score := sp_score result;
     r_questionEnglish := p_questionEnglish p;
     r_questionHindi := p_questionHindi p;
     r_answerEnglish := p_answerEnglish p;
     r_answerHindi := p_answerHindi p;
     r_category := p_category p;
     r_text := p_text p |}.

Section WithEnv.

Variable env : ProcessEnv.

(** [const { QDRANT_COLLECTION_NAME = 'faq_embeddings' } = process.env] *)
Definition QDRANT_COLLECTION_NAME : jsstring :=
  match env_QDRANT_COLLECTION_NAME env with
  | Some name => name
  | None => js "faq_embeddings"
  end.

(** [Number(process.env.FAQ_EMBEDDING_DIMENSIONS) || 3072] *)
Definition EMBEDDING_DIMENSIONS : Z :=
  orNumber (env_FAQ_EMBEDDING_DIMENSIONS env) 3072.

Definition ensureCollection : Prog unit :=
  tryCatch
    (collections <- await GetCollections ;;
     let collectionExists :=
       existsb (fun col => str_eqb col QDRANT_COLLECTION_NAME) collections in
     if negb collectionExists
     then await (CreateCollection QDRANT_COLLECTION_NAME EMBEDDING_DIMENSIONS)
     else Ret tt)
    (fun error => Throw error).

Definition upsertPoints (points : list Point) : Prog unit :=
  tryCatch
    (if (length points =? 0)%nat then Ret tt
     else
       preparedPoints <- ofOutcome (mapIndexed preparePoint points 0) ;;
       await (Upsert QDRANT_COLLECTION_NAME preparedPoints))
    (fun error => Throw error).

Definition searchVectors (queryVector : list float) (limit : Z) (scoreThreshold : float)
  : Prog (list SearchResult) :=
  tryCatch
    (searchResult <- await (Search QDRANT_COLLECTION_NAME queryVector limit scoreThreshold) ;;
     Ret (List.map toSearchResult searchResult))
    (fun error => Throw error).

End WithEnv.
End Qdrant.

(* ================================================================== *)
(** * sync.js *)
(* ================================================================== *)

Module Sync.

(** An element of [faqData]. *)
Record FaqData : Type := mkFaqData {
  faqId : jsstring;
  d_questionEnglish : jsstring;
  d_questionHindi : jsstring;
  d_answerEnglish : jsstring;
  d_answerHindi : jsstring;
  d_category : jsstring;
  text : jsstring
}.

(** [{ synced, updated, errors }] *)
Record SyncReport : Type := mkReport {
  synced : nat;
  updated : nat;
  errors : nat
}.

Definition pushIf (field : option jsstring) (parts : list jsstring) : list jsstring :=
  match field with
  | Some (c :: s) => parts ++ [c :: s]
  | _ => parts
  end.

Definition combineFaqText (faq : RawFaq) : jsstring :=
  let parts := [] in
  let parts := pushIf (questionEnglish faq) parts in
  let parts := pushIf (answerEnglish faq) parts in
  let parts := pushIf (questionHindi faq) parts in
  let parts := pushIf (answerHindi faq) parts in
  trim (join (js " ") parts).

Definition getFaqId (faq : RawFaq) : outcome jsstring :=
  if negb (truthy (faq_id faq)) then Thrown FaqMissingId
  else Returned (orDefault (faq_id faq) []).

(** The body of [faqs.map((faq) => ...)] that builds [faqData]. *)
Definition buildFaqData (faq : RawFaq) : outcome FaqData :=
  match getFaqId faq with
  | Thrown e => Thrown e
  | Returned faqId =>
      let text := combineFaqText faq in
      Returned {| faqId := faqId;
                  d_questionEnglish := orDefault (questionEnglish faq) [];
                  d_questionHindi := orDefault (questionHindi faq) [];
                  d_answerEnglish := orDefault (answerEnglish faq) [];
                  d_answerHindi := orDefault (answerHindi faq) [];
                  d_category := orDefault (category faq) [];
                  text := text |}
  end.

(** [faqData.map((faq, index) => ({ id, vector: embeddings[index], payload }))] *)
Fixpoint toPoints (faqData : list FaqData) (embeddings : list (list float)) (index : nat)
  : list Qdrant.Point :=
  match faqData with
  | [] => []
  | faq :: rest =>
      {| Qdrant.id := faqId faq;
         Qdrant.vector := nth_error embeddings index;
         Qdrant.payload := Some {| p_questionEnglish := Some (d_questionEnglish faq);
                                   p_questionHindi := Some (d_questionHindi faq);
                                   p_answerEnglish := Some (d_answerEnglish faq);
                                   p_answerHindi := Some (d_answerHindi faq);
                                   p_category := Some (d_category faq);
                                   p_text := Some (text faq) |} |}
      :: toPoints rest embeddings (S index)
  end.

Section WithEnv.

Variable env : ProcessEnv.

Definition FAQ_API_URL : option jsstring := env_FAQ_API_URL env.

(** [Number(FAQ_API_TIMEOUT_MS) || 4000], the variable defaulting to 4000. *)
Definition DEFAULT_TIMEOUT : Z := orNumber (env_FAQ_API_TIMEOUT_MS env) 4000.

Definition fetchFaqs : Prog (list RawFaq) :=
  if negb (truthy FAQ_API_URL) then Ret []
  else
    tryCatch
      (data <- await (HttpGet (orDefault FAQ_API_URL []) DEFAULT_TIMEOUT) ;;
       Ret (match data with
            | DataArray faqs => faqs
            | DataOther => []
            end))
      (fun error => Throw error).

(** [syncFaqs], over the batch-embedding stage it imports from
    embeddings.js. *)
Definition syncFaqsWith (generateEmbeddingsBatch : list value -> Prog (list (list float)))
  : Prog SyncReport :=
  tryCatch
    (Qdrant.ensureCollection env ;;;
     faqs <- fetchFaqs ;;
     if (length faqs =? 0)%nat then Ret {| synced := 0; updated := 0; errors := 0 |}
     else
       faqData <- ofOutcome (mapIndexed (fun faq _ => buildFaqData faq) faqs 0) ;;
       let texts := List.map (fun faq => VStr (text faq)) faqData in
       embeddings <- generateEmbeddingsBatch texts ;;
       if negb (length embeddings =? length faqData)%nat
       then Throw (EmbeddingCountMismatch (length faqData) (length embeddings))
       else
         let qdrantPoints := toPoints faqData embeddings 0 in
         Qdrant.upsertPoints env qdrantPoints ;;;
         Ret {| synced := length faqData; updated := 0; errors := 0 |})
    (fun error => Throw error).

Definition syncFaqs : Prog SyncReport :=
  syncFaqsWith (Embeddings.generateEmbeddingsBatch env).

End WithEnv.
End Sync.

(* ================================================================== *)
(** * index.js: lexical retrieval over a cached copy of the feed *)
(* ================================================================== *)

Module Lexical.

(** [let cache = { value, expiresAt }]; [value] is null or an array. *)
Record Cache : Type := mkCache {
  value : option (list RawFaq);
  expiresAt : Z
}.

Definition initialCache : Cache := {| value := None; expiresAt := 0 |}.

(** [{ score, faq, index }] *)
Record Scored : Type := mkScoredFaq {
  score : Z;
  faq : RawFaq;
  index : Z
}.

(** The comparator handed to [scored.sort]. *)
Definition compareScored (a b : Scored) : Z :=
  if score b =? score a then index a - index b
  else score b - score a.

(** [Array.prototype.sort] is stable; by insertion from the right, an
    element goes in front of the ones it does not compare greater than. *)
Fixpoint insertBy {A} (cmp : A -> A -> Z) (x : A) (l : list A) : list A :=
  match l with
  | [] => [x]
  | y :: l' => if cmp x y <=? 0 then x :: y :: l' else y :: insertBy cmp x l'
  end.

Definition sortBy {A} (cmp : A -> A -> Z) (l : list A) : list A :=
  fold_right (insertBy cmp) [] l.

Definition nonEmpty (s : jsstring) : bool :=
  match s with
  | [] => false
  | _ :: _ => true
  end.

Section WithEnv.

Variable env : ProcessEnv.

(** [String.prototype.toLowerCase], the Unicode lower-casing of the
    JavaScript engine. *)
Variable toLowerCase : jsstring -> jsstring.

(** [const { FAQ_API_URL = 'http://localhost:3002/faqs' } = process.env] *)
Definition FAQ_API_URL : jsstring :=
  match env_FAQ_API_URL env with
  | Some url => url
  | None => js "http://localhost:3002/faqs"
  end.

Definition DEFAULT_TIMEOUT : Z := orNumber (env_FAQ_API_TIMEOUT_MS env) 4000.
Definition DEFAULT_CACHE_TTL : Z := orNumber (env_FAQ_CACHE_TTL_MS env) 60000.
Definition DEFAULT_LIMIT : Z := orNumber (env_FAQ_MAX_RESULTS env) 5.
Definition CONTEXT_CHAR_LIMIT : Z := orNumber (env_FAQ_CONTEXT_CHAR_LIMIT env) 2000.

(** [cache.value && cache.expiresAt > now]: the cached list when the
    entry is there and has not expired. *)
Definition fresh (cache : Cache) (now : Z) : option (list RawFaq) :=
  match value cache with
  | Some cached => if expiresAt cache >? now then Some cached else None
  | None => None
  end.

(** [cache.value ?? []] *)
Definition cachedOrEmpty (cache : Cache) : list RawFaq :=
  match value cache with
  | Some cached => cached
  | None => []
  end.

(** [fetchFaqs], the module variable [cache] passed in and out. *)
Definition fetchFaqs (cache : Cache) : Prog (list RawFaq * Cache) :=
  if negb (nonEmpty FAQ_API_URL) then Ret ([], cache)
  else
    now <- Vis DateNow (fun t => Ret t) ;;
    match fresh cache now with
    | Some cached => Ret (cached, cache)
    | None =>
        tryCatch
          (data <- await (HttpGet FAQ_API_URL DEFAULT_TIMEOUT) ;;
           let faqs := match data with
                       | DataArray faqs => faqs
                       | DataOther => []
                       end in
           Ret (faqs, {| value := Some faqs; expiresAt := now + DEFAULT_CACHE_TTL |}))
          (fun error => Ret (cachedOrEmpty cache, cache))
    end.

(** [query.toLowerCase().split(/\s+/).map((token) => token.trim()).filter(Boolean)] *)
Definition tokenize (query : jsstring) : list jsstring :=
  filter nonEmpty (List.map trim (splitWs (toLowerCase query))).

Definition orEmpty (field : option jsstring) : jsstring :=
  match field with
  | Some s => s
  | None => []
  end.

(** The text of a FAQ that the tokens are looked up in. *)
Definition combinedOf (faq : RawFaq) : jsstring :=
  let question :=
    toLowerCase (orEmpty (nullish (nullish (question faq) (questionEnglish faq)) (title faq))) in
  let answer :=
    toLowerCase (orEmpty (nullish (nullish (answer faq) (answerEnglish faq)) (response faq))) in
  let questionHindi := toLowerCase (orEmpty (questionHindi faq)) in
  let answerHindi := toLowerCase (orEmpty (answerHindi faq)) in
  question ++ js " " ++ answer ++ js " " ++ questionHindi ++ js " " ++ answerHindi.

Definition scoreOf (tokens : list jsstring) (faq : RawFaq) : Z :=
  let combined := combinedOf faq in
  fold_left (fun acc token => acc + (if includes combined token then 1 else 0)) tokens 0.

(** [faqs.map((faq, index) => ({ score, faq, index }))] *)
Fixpoint scoreAll (tokens : list jsstring) (faqs : list RawFaq) (index : Z) : list Scored :=
  match faqs with
  | [] => []
  | faq :: rest =>
      {| score := scoreOf tokens faq; faq := faq; index := index |}
      :: scoreAll tokens rest (index + 1)
  end.

Definition selectRelevantFaqs (faqs : list RawFaq) (query : JS.value) : list RawFaq :=
  if (length faqs =? 0)%nat then []
  else
    match query with
    | VStr (c :: q) =>
        let tokens := tokenize (c :: q) in
        if (length tokens =? 0)%nat then slice0 faqs DEFAULT_LIMIT
        else
          let scored := filter (fun s => score s >? 0) (scoreAll tokens faqs 0) in
          if (length scored =? 0)%nat then slice0 faqs DEFAULT_LIMIT
          else
            let scored := sortBy compareScored scored in
            List.map faq (slice0 scored DEFAULT_LIMIT)
    | _ => slice0 faqs DEFAULT_LIMIT
    end.

(** The FAQ block [`FAQ ${idx + 1}:\nQuestion: ${question}\nAnswer: ${answer}`] *)
Definition block (idx : nat) (question answer : jsstring) : jsstring :=
  js "FAQ " ++ ofNat (idx + 1) ++ js ":" ++ LF ++
  js "Question: " ++ question ++ LF ++
  js "Answer: " ++ answer.

Definition orLiteral (field : option jsstring) (d : jsstring) : jsstring :=
  match field with
  | Some s => s
  | None => d
  end.

Fixpoint blocks (faqs : list RawFaq) (idx : nat) : list jsstring :=
  match faqs with
  | [] => []
  | faq :: rest =>
      let question :=
        orLiteral (nullish (nullish (question faq) (questionEnglish faq)) (title faq))
                  (js "Question unavailable") in
      let answer :=
        orLiteral (nullish (nullish (answer faq) (answerEnglish faq)) (response faq))
                  (js "Answer unavailable") in
      block idx question answer :: blocks rest (S idx)
  end.

Definition formatFaqContext (faqs : list RawFaq) : jsstring :=
  if (length faqs =? 0)%nat then []
  else
    let formatted := join (LF ++ LF) (blocks faqs 0) in
    slice0 formatted CONTEXT_CHAR_LIMIT.

Definition getFaqContext (query : JS.value) (cache : Cache) : Prog (option jsstring * Cache) :=
  r <- fetchFaqs cache ;;
  let '(faqs, cache1) := r in
  if (length faqs =? 0)%nat then Ret (None, cache1)
  else
    let relevant := selectRelevantFaqs faqs query in
    if (length relevant =? 0)%nat then Ret (None, cache1)
    else Ret (Some (formatFaqContext relevant), cache1).

End WithEnv.
End Lexical.

(* ================================================================== *)
(** * The vector retrieval module *)
(* ================================================================== *)

Module Vector.

Definition DEFAULT_LIMIT : Z := 5.
Definition CONTEXT_CHAR_LIMIT : Z := 2000.
Definition SCORE_THRESHOLD : float := (1 # 2)%Q.

Fixpoint blocks (faqs : list Qdrant.SearchResult) (idx : nat) : list jsstring :=
  match faqs with
  | [] => []
  | faq :: rest =>
      let question := orDefault (Qdrant.r_questionEnglish faq) (js "Question unavailable") in
      let answer := orDefault (Qdrant.r_answerEnglish faq) (js "Answer unavailable") in
      Lexical.block idx question answer :: blocks rest (S idx)
  end.

Definition formatFaqContext (faqs : list Qdrant.SearchResult) : jsstring :=
  if (length faqs =? 0)%nat then []
  else
    let formatted := join (LF ++ LF) (blocks faqs 0) in
    slice0 formatted CONTEXT_CHAR_LIMIT.

(** [getFaqContext], over the two functions it imports: what
    [generateEmbedding] resolves to is tested for being a non-empty
    array, what [searchVectors] resolves to for being a non-empty list
    ([None] is a falsy value). *)
Definition getFaqContextWith
    (generateEmbedding : JS.value -> Prog EmbedValues)
    (searchVectors : list float -> Z -> float -> Prog (option (list Qdrant.SearchResult)))
    (query : JS.value) : Prog (option jsstring) :=
  match query with
  | VStr q =>
      if (length q =? 0)%nat || (length (trim q) =? 0)%nat then Ret None
      else
        tryCatch
          (queryEmbedding <- generateEmbedding (VStr (trim q)) ;;
           match queryEmbedding with
           | ValuesArray (v :: vs) =>
               relevantFaqs <- searchVectors (v :: vs) DEFAULT_LIMIT SCORE_THRESHOLD ;;
               match relevantFaqs with
               | Some (f :: fs) => Ret (Some (formatFaqContext (f :: fs)))
               | _ => Ret None
               end
           | _ => Ret None
           end)
          (fun error => Ret None)
  | _ => Ret None
  end.

Section WithEnv.

Variable env : ProcessEnv.

Definition getFaqContext (query : JS.value) : Prog (option jsstring) :=
  getFaqContextWith
    (fun text => embedding <- Embeddings.generateEmbedding env text ;;
                 Ret (ValuesArray embedding))
    (fun queryVector limit scoreThreshold =>
       results <- Qdrant.searchVectors env queryVector limit scoreThreshold ;;
       Ret (Some results))
    query.

End WithEnv.
End Vector.

(* ================================================================== *)
(** * A reference environment *)
(* ================================================================== *)

(** An executable environment to run the service against: a clock, a
    feed with a fixed answer, an embedding provider that answers by
    text, and a Qdrant store of collections of points.  Similarity is
    not computed: a search answers [hits]. *)
Module Sim.

Record World : Type := mkWorld {
  clock : Z;
  feed : outcome HttpData;
  provider : jsstring -> outcome EmbedValues;
  reachable : bool;
  collections : list (jsstring * list PreparedPoint);
  hits : list ScoredPoint
}.

Definition unreachable : Error := External (js "ECONNREFUSED").
Definition notFound : Error := External (js "Not found").

Fixpoint putPoint (p : PreparedPoint) (ps : list PreparedPoint) : list PreparedPoint :=
  match ps with
  | [] => [p]
  | q :: ps' => if pp_id q =? pp_id p then p :: ps' else q :: putPoint p ps'
  end.

Fixpoint upsertInto (name : jsstring) (points : list PreparedPoint)
                    (cs : list (jsstring * list PreparedPoint))
  : option (list (jsstring * list PreparedPoint)) :=
  match cs with
  | [] => None
  | (n, ps) :: cs' =>
      if str_eqb n name
      then Some ((n, fold_left (fun acc p => putPoint p acc) points ps) :: cs')
      else match upsertInto name points cs' with
           | Some cs'' => Some ((n, ps) :: cs'')
           | None => None
           end
  end.

Definition withCollections (w : World) (cs : list (jsstring * list PreparedPoint)) : World :=
  {| clock := clock w; feed := feed w; provider := provider w;
     reachable := reachable w; collections := cs; hits := hits w |}.

Definition handle : Handler World :=
  fun X ev =>
    match ev in Event X return World -> X * World with
    | DateNow => fun w => (clock w, w)
    | HttpGet _ _ => fun w => (feed w, w)
    | EmbedContent _ _ text => fun w => (provider w text, w)
    | GetCollections => fun w =>
        if reachable w then (Returned (List.map fst (collections w)), w)
        else (Thrown unreachable, w)
    | CreateCollection name _ => fun w =>
        if reachable w then (Returned tt, withCollections w (collections w ++ [(name, [])]))
        else (Thrown unreachable, w)
    | Upsert name points => fun w =>
        if reachable w then
          match upsertInto name points (collections w) with
          | Some cs => (Returned tt, withCollections w cs)
          | None => (Thrown notFound, w)
          end
        else (Thrown unreachable, w)
    | Search _ _ _ _ => fun w =>
        if reachable w then (Returned (hits w), w)
        else (Thrown unreachable, w)
    end.

(** ASCII lower-casing, standing for [toLowerCase] on ASCII text. *)
Definition asciiLower (s : jsstring) : jsstring :=
  List.map (fun c => if ((65 <=? c) && (c <=? 90))%N then (c + 32)%N else c) s.

Definition noEnv : ProcessEnv :=
  mkEnv None None None None None None None None None.

(** An environment with the provider key and the feed URL set. *)
Definition someEnv : ProcessEnv :=
  mkEnv (Some (js "key")) None None (Some (js "http://faq.test/faqs"))
        None None None None None.

Definition faqOf (id q a : string) : RawFaq :=
  mkRawFaq (Some (js id)) None (Some (js q)) None None (Some (js a)) None None None None.

End Sim.

(* ================================================================== *)
(** * Vocabulary of the statements *)
(* ================================================================== *)

(** A text is blank when nothing is left of it after trimming; the empty
    text is blank. *)
Definition blank (t : jsstring) : Prop := trim t = [].

(** The provider credential is usable when it is set and not blank. *)
Definition credentialUsable (env : ProcessEnv) : Prop :=
  truthy (Embeddings.GOOGLE_API_KEY env) = true /\
  ~ blank (orDefault (Embeddings.GOOGLE_API_KEY env) []).

(** The provider's answer carries a non-empty array of values. *)
Definition wellFormed (answer : outcome EmbedValues) : Prop :=
  exists v vs, answer = Returned (ValuesArray (v :: vs)).

(** C7 as the specification states it: for every text that is not
    blank, [generateEmbedding] returns a vector whose length is the
    configured dimension. *)
Definition embed_has_configured_dimension_at
    {W} (h : Handler W) (env : ProcessEnv) (w : W) (t : jsstring) : Prop :=
  ~ blank t ->
  exists v, result h (Embeddings.generateEmbedding env (VStr t)) w = Returned v /\
            Z.of_nat (length v) = Qdrant.EMBEDDING_DIMENSIONS env.

(** A deployment that declares 768 dimensions, and a provider that
    answers every text with 3072 components. *)
Definition env768 : ProcessEnv :=
  mkEnv (Some (js "key")) None None (Some (js "http://faq.test/faqs"))
        (Some 768) None None None None.

Definition providerOf3072 : Sim.World :=
  Sim.mkWorld 0 (Returned (DataArray []))
              (fun _ => Returned (ValuesArray (repeat (1 # 2)%Q 3072)))
              true [] [].

(** The provider of this world answers every text with two components. *)
Definition twoComponentWorld : Sim.World :=
  Sim.mkWorld 0 (Returned (DataArray []))
              (fun _ => Returned (ValuesArray [(1 # 4)%Q; (3 # 4)%Q]))
              true [] [].

(** The texts handed to the batch-embedding stage. *)
Definition textsOf (faqData : list Sync.FaqData) : list JS.value :=
  List.map (fun faq => VStr (Sync.text faq)) faqData.

Definition buildAll (faqs : list RawFaq) : outcome (list Sync.FaqData) :=
  mapIndexed (fun faq _ => Sync.buildFaqData faq) faqs 0.

Definition emptyReport : Sync.SyncReport :=
  {| Sync.synced := 0; Sync.updated := 0; Sync.errors := 0 |}.

(** The state of the Qdrant store is the same after the program as
    before it. *)
Definition index_unchanged_by {A} (p : Prog A) (w : Sim.World) : Prop :=
  Sim.collections (final Sim.handle p w) = Sim.collections w.

(** The program makes no call to Qdrant and leaves its store as it was. *)
Definition index_untouched_by {A} (p : Prog A) (w : Sim.World) : Prop :=
  forallb notQdrant (trace Sim.handle p w) = true /\ index_unchanged_by p w.


Definition faqReset : RawFaq := Sim.faqOf "1" "reset password" "open the settings".
Definition faqEmail : RawFaq := Sim.faqOf "2" "change email" "open the profile".
Definition faqBoth : RawFaq := Sim.faqOf "3" "Password and email" "see above".

(** A record with an id and no text field. *)
Definition faqTextless : RawFaq :=
  mkRawFaq (Some (js "7")) None None None None None None None None None.

Definition halves : EmbedValues := ValuesArray [(1 # 2)%Q; (1 # 2)%Q].

Definition targetCollection : list (jsstring * list PreparedPoint) :=
  [(js "faq_embeddings", [])].

(** Worlds: the Qdrant store with or without the target collection, and
    a feed of no record, of one record, of a record without text. *)
Definition emptyFeedReady : Sim.World :=
  Sim.mkWorld 1000 (Returned (DataArray [])) (fun _ => Returned halves)
              true targetCollection [].

Definition emptyFeedFresh : Sim.World :=
  Sim.mkWorld 1000 (Returned (DataArray [])) (fun _ => Returned halves) true [] [].

Definition oneFaqReady : Sim.World :=
  Sim.mkWorld 1000 (Returned (DataArray [faqReset])) (fun _ => Returned halves)
              true targetCollection [].

Definition oneFaqFresh : Sim.World :=
  Sim.mkWorld 1000 (Returned (DataArray [faqReset])) (fun _ => Returned halves) true [] [].

Definition textlessFeed : Sim.World :=
  Sim.mkWorld 1000 (Returned (DataArray [faqReset; faqTextless]))
              (fun _ => Returned halves) true targetCollection [].

(** A feed that is down. *)
Definition feedDown : Sim.World :=
  Sim.mkWorld 5000 (Thrown (External (js "timeout"))) (fun _ => Returned halves)
              true targetCollection [].

(** A store that finds one point for any query, and one that cannot be
    reached. *)
Definition oneHit : Sim.World :=
  Sim.mkWorld 1000 (Returned (DataArray [faqReset])) (fun _ => Returned halves)
              true targetCollection
              [mkScored 1 (9 # 10)%Q
                 (Some (mkPayload (Some (js "reset password")) (Some [])
                                  (Some (js "open the settings")) (Some []) (Some [])
                                  (Some (js "reset password open the settings"))))].

Definition qdrantDown : Sim.World :=
  Sim.mkWorld 1000 (Returned (DataArray [faqReset])) (fun _ => Returned halves)
              false targetCollection [].


Definition freshCache : Lexical.Cache :=
  {| Lexical.value := Some [faqReset]; Lexical.expiresAt := 61000 |}.

(** What an embedding stage resolved to is a non-empty array. *)
Definition nonEmptyArray (vals : EmbedValues) : Prop :=
  exists v vs, vals = ValuesArray (v :: vs).

(** The mapping as the specification words it: the integer the
    identifier parses as, and otherwise the absolute value of the sum of
    the identifier's character codes. *)
Definition pointId_as_specified (id : jsstring) : Z :=
  match parseInt id with
  | Some n => n
  | None => Z.abs (charCodeSum id)
  end.

(** The identifier without a leading "faq_". *)
Definition stripFaqPrefix (id : jsstring) : jsstring :=
  if startsWith id (js "faq_") then skipn 4 id else id.

(** The question and the answer a FAQ is rendered with by index.js. *)
Definition shownQuestion (faq : RawFaq) : jsstring :=
  Lexical.orLiteral (nullish (nullish (question faq) (questionEnglish faq)) (title faq))
                    (js "Question unavailable").

Definition shownAnswer (faq : RawFaq) : jsstring :=
  Lexical.orLiteral (nullish (nullish (answer faq) (answerEnglish faq)) (response faq))
                    (js "Answer unavailable").

(** The question and the answer a search result is rendered with by
    the vector module. *)
Definition shownQuestionOf (r : Qdrant.SearchResult) : jsstring :=
  orDefault (Qdrant.r_questionEnglish r) (js "Question unavailable").

Definition shownAnswerOf (r : Qdrant.SearchResult) : jsstring :=
  orDefault (Qdrant.r_answerEnglish r) (js "Answer unavailable").

(** The FAQ [{question: "Q1", answer: "A1"}]. *)
Definition faqQ1A1 : RawFaq :=
  mkRawFaq None (Some (js "Q1")) None None (Some (js "A1")) None None None None None.

(** The search result [{questionEnglish: "Q1", answerEnglish: "A1"}]:
    the same texts under the field names the vector module reads. *)
Definition resultQ1A1 : Qdrant.SearchResult :=
  Qdrant.mkResult 1 (9 # 10)%Q (Some (js "Q1")) None (Some (js "A1")) None None None.

Definition contextQ1A1 : jsstring := js "FAQ 1:
Question: Q1
Answer: A1".

(** [a] is ranked before [b]: a higher score, or the same score and an
    earlier position in the source list. *)
Definition ranksBefore (a b : Lexical.Scored) : Prop :=
  Lexical.score a > Lexical.score b \/
  (Lexical.score a = Lexical.score b /\ Lexical.index a < Lexical.index b).

(** The candidates of a selection: the FAQs with their scores and
    positions, those of score zero discarded. *)
Definition candidates (toLowerCase : jsstring -> jsstring)
           (tokens : list jsstring) (faqs : list RawFaq) : list Lexical.Scored :=
  filter (fun s => Lexical.score s >? 0) (Lexical.scoreAll toLowerCase tokens faqs 0).

(** [rest] is empty or begins with a white space character. *)
Definition atGap (rest : jsstring) : Prop :=
  match rest with
  | [] => True
  | c :: _ => isWhiteSpace c = true
  end.

(** The tokens of a text as the specification words them: its maximal
    runs of characters that are not white space, in the order of the
    text.  A text of white space only has no token; otherwise the text
    is a run of white space (possibly empty), a token that is not
    empty, holds no white space and is followed by white space or by
    the end of the text, and the rest of the text with its tokens. *)
Inductive whitespaceTokens : jsstring -> list jsstring -> Prop :=
| tokens_none (gap : jsstring) :
    forallb isWhiteSpace gap = true ->
    whitespaceTokens gap []
| tokens_next (gap token rest : jsstring) (tokens : list jsstring) :
    forallb isWhiteSpace gap = true ->
    token <> [] ->
    forallb (fun c => negb (isWhiteSpace c)) token = true ->
    atGap rest ->
    whitespaceTokens rest tokens ->
    whitespaceTokens (gap ++ token ++ rest) (token :: tokens).





(** C8 as the specification states it: the FAQ with question "Q1" and
    answer "A1" is rendered exactly as "FAQ 1:\nQuestion: Q1\nAnswer:
    A1", and the output is never longer than the configured budget. *)
Definition renders_Q1A1_exactly (env : ProcessEnv) : Prop :=
  Lexical.formatFaqContext env [faqQ1A1] = contextQ1A1.

Definition within_budget (env : ProcessEnv) (faqs : list RawFaq) : Prop :=
  Z.of_nat (length (Lexical.formatFaqContext env faqs)) <= Lexical.CONTEXT_CHAR_LIMIT env.

(** Deployments with FAQ_CONTEXT_CHAR_LIMIT=10 and with
    FAQ_CONTEXT_CHAR_LIMIT=-5. *)
Definition budget10Env : ProcessEnv :=
  mkEnv None None None None None None None None (Some 10).

Definition negativeBudgetEnv : ProcessEnv :=
  mkEnv None None None None None None None None (Some (-5)).

(** The FAQ [{question: "Q1", answer: "A1"}] as the vector module sees
    it: the two fields it reads, [questionEnglish] and [answerEnglish],
    are absent, and it reads no other text field. *)
Definition resultQuestionAnswer : Qdrant.SearchResult :=
  Qdrant.mkResult 1 (9 # 10)%Q None None None None None None.


(* ================================================================== *)
(** * qdrant.js: testConnection *)
(* ================================================================== *)

Module Connection.

(** What [client.getCollection] answers, as far as it is read:
    [info.points_count] and [info.config?.params?.vectors?.size]. *)
Record CollectionInfo : Type := mkInfo {
  points_count : option Z;
  vectors_size : option Z
}.

(** What [testConnection] resolves to. *)
Record Status : Type := mkStatus {
  connected : bool;
  collectionExists : bool;
  pointCount : option Z;
  vectorSize : option Z;
  error : option jsstring
}.

Section WithEnv.

Variable env : ProcessEnv.

(** What the [catch] clause reads off the error object: whether its
    message includes 'Forbidden', '401' or '403' or its status is 403 or
    401, and [error.message || String(error)]. *)
Variable isAuthFailure : Error -> bool.
Variable describe : Error -> jsstring.

(** [getCollectionInfo], that is [client.getCollection] with its errors
    rethrown. *)
Variable getCollectionInfo : Prog CollectionInfo.

(** [testConnection]; [None] is the undefined a function returns when
    it ends without a [return]. *)
Definition testConnection : Prog (option Status) :=
  tryCatch
    (collections <- await GetCollections ;;
     let collectionExists :=
       existsb (fun col => str_eqb col (Qdrant.QDRANT_COLLECTION_NAME env)) collections in
     if collectionExists then
       info <- getCollectionInfo ;;
       Ret (Some {| connected := true;
                    collectionExists := true;
                    pointCount := Some (orNumber (points_count info) 0);
                    vectorSize := match vectors_size info with
                                  | Some n => if n =? 0 then None else Some n
                                  | None => None
                                  end;
                    error := None |})
     else
       Ret (Some {| connected := true;
                    collectionExists := false;
                    pointCount := Some 0;
                    vectorSize := None;
                    error := None |}))
    (fun error =>
       if isAuthFailure error
       then Ret (Some {| connected := false;
                         collectionExists := false;
                         pointCount := None;
                         vectorSize := None;
                         error := Some (describe error) |})
       else Ret None).

End WithEnv.
End Connection.

(* ================================================================== *)
(** * The endpoint options builder: the prompt prefix *)
(* ================================================================== *)

Module BuildOptions.

(** [const enhancedPromptPrefix = promptPrefix
      ? `${scopeRestriction}\n\n${promptPrefix}`.trim() : scopeRestriction],
    for the [scopeRestriction] that [getScopeRestriction()] returned and
    the [promptPrefix] of the request body. *)
Definition enhancedPromptPrefix (scopeRestriction : jsstring)
           (promptPrefix : option jsstring) : jsstring :=
  if truthy promptPrefix
  then trim (scopeRestriction ++ LF ++ LF ++ orDefault promptPrefix [])
  else scopeRestriction.

End BuildOptions.

(* ================================================================== *)
(** * Vocabulary of the further properties *)
(* ================================================================== *)

(** The calls made while a list of promises settles, started in order. *)
Fixpoint callsOf {W A} (h : Handler W) (ps : list (Prog A)) (w : W) : list Call :=
  match ps with
  | [] => []
  | p :: ps' => fst (fst (run h p w)) ++ callsOf h ps' (snd (run h p w))
  end.

(** The string of a text that is one. *)
Definition textOf (text : JS.value) : jsstring :=
  match text with
  | VStr t => t
  | _ => []
  end.

(** The call to the provider for a text. *)
Definition embedCall (env : ProcessEnv) (t : jsstring) : Call :=
  Called (EmbedContent (orDefault (Embeddings.GOOGLE_API_KEY env) [])
                       Embeddings.EMBEDDING_MODEL t).

(** The search [getFaqContext] asks for. *)
Definition searchCall (env : ProcessEnv) (v : list float) : Call :=
  Called (Search (Qdrant.QDRANT_COLLECTION_NAME env) v
                 Vector.DEFAULT_LIMIT Vector.SCORE_THRESHOLD).

(** A call a retrieval may make: to the provider, or a search. *)
Definition isRetrievalCall (c : Call) : bool :=
  match c with
  | Called (EmbedContent _ _ _) => true
  | Called (Search _ _ _ _) => true
  | Called _ => false
  end.

Definition isEmbedContent (c : Call) : bool :=
  match c with
  | Called (EmbedContent _ _ _) => true
  | Called _ => false
  end.

(** The payload [syncFaqs] stores with a record. *)
Definition payloadOf (d : Sync.FaqData) : Payload :=
  {| p_questionEnglish := Some (Sync.d_questionEnglish d);
     p_questionHindi := Some (Sync.d_questionHindi d);
     p_answerEnglish := Some (Sync.d_answerEnglish d);
     p_answerHindi := Some (Sync.d_answerHindi d);
     p_category := Some (Sync.d_category d);
     p_text := Some (Sync.text d) |}.

(** The points of a sync run: the i-th record with the i-th embedding. *)
Definition pointsOf (faqData : list Sync.FaqData) (embeddings : list (list float))
  : list PreparedPoint :=
  List.map (fun de => {| pp_id := Qdrant.pointIdOf (Sync.faqId (fst de));
                         pp_vector := snd de;
                         pp_payload := payloadOf (fst de) |})
           (combine faqData embeddings).

(** A point [upsertPoints] accepts. *)
Definition validPoint (p : Qdrant.Point) : bool :=
  truthy (Some (Qdrant.id p)) &&
  match Qdrant.vector p with
  | Some _ => true
  | None => false
  end.

(** A text field that is absent, empty, or white space only. *)
Definition blankField (field : option jsstring) : Prop :=
  match field with
  | Some s => forallb isWhiteSpace s = true
  | None => True
  end.

(** A string with no white space at either end. *)
Definition trimmed (s : jsstring) : Prop :=
  dropWhile isWhiteSpace s = s /\ dropWhile isWhiteSpace (rev s) = rev s.

(** The score [selectRelevantFaqs] gives a FAQ for a query string. *)
Definition scoreFor (toLowerCase : jsstring -> jsstring) (q : jsstring) (faq : RawFaq) : Z :=
  Lexical.scoreOf toLowerCase (Lexical.tokenize toLowerCase q) faq.

(** The record [syncFaqs] builds from a FAQ that has an id. *)
Definition recordOf (faq : RawFaq) : Sync.FaqData :=
  {| Sync.faqId := orDefault (faq_id faq) [];
     Sync.d_questionEnglish := orDefault (questionEnglish faq) [];
     Sync.d_questionHindi := orDefault (questionHindi faq) [];
     Sync.d_answerEnglish := orDefault (answerEnglish faq) [];
     Sync.d_answerHindi := orDefault (answerHindi faq) [];
     Sync.d_category := orDefault (category faq) [];
     Sync.text := Sync.combineFaqText faq |}.

(** Every FAQ of the list has an id. *)
Definition allHaveIds (faqs : list RawFaq) : bool :=
  forallb (fun faq => truthy (faq_id faq)) faqs.

(** Inputs of the examples: a record of the feed that carries no id, a
    feed that serves it, and a provider that fails on one text. *)
Definition faqIdless : RawFaq :=
  mkRawFaq None None (Some (js "reset password")) None None
           (Some (js "open the settings")) None None None None.

Definition idlessFeed : Sim.World :=
  Sim.mkWorld 1000 (Returned (DataArray [faqReset; faqIdless]))
              (fun _ => Returned halves) true targetCollection [].

Definition pickyProvider : Sim.World :=
  Sim.mkWorld 1000 (Returned (DataArray []))
              (fun text => if str_eqb text (js "bad")
                           then Thrown (External (js "quota"))
                           else Returned halves)
              true targetCollection [].

(* ================================================================== *)
(** * Running programs: general facts *)
(* ================================================================== *)

Section RunFacts.

Context {W : Type} (h : Handler W).

Lemma run_bind {A B} (p : Prog A) (f : A -> Prog B) (w : W) :
  run h (bind p f) w =
  match run h p w with
  | (tr1, Returned a, w1) =>
      match run h (f a) w1 with
      | (tr2, r, w2) => (tr1 ++ tr2, r, w2)
      end
  | (tr1, Thrown e, w1) => (tr1, Thrown e, w1)
  end.
Proof.
  revert w; induction p as [a | e | X ev k IH]; intros w; simpl.
  - destruct (run h (f a) w) as [[tr r] w2]; reflexivity.
  - reflexivity.
  - destruct (@h _ ev w) as [x w1].
    rewrite IH.
    destruct (run h (k x) w1) as [[tr1 [a | e]] w2]; simpl.
    + destruct (run h (f a) w2) as [[tr2 r] w3]; reflexivity.
    + reflexivity.
Qed.

Lemma run_tryCatch {A} (p : Prog A) (hd : Error -> Prog A) (w : W) :
  run h (tryCatch p hd) w =
  match run h p w with
  | (tr1, Returned a, w1) => (tr1, Returned a, w1)
  | (tr1, Thrown e, w1) =>
      match run h (hd e) w1 with
      | (tr2, r, w2) => (tr1 ++ tr2, r, w2)
      end
  end.
Proof.
  revert w; induction p as [a | e | X ev k IH]; intros w; simpl.
  - reflexivity.
  - destruct (run h (hd e) w) as [[tr r] w2]; reflexivity.
  - destruct (@h _ ev w) as [x w1].
    rewrite IH.
    destruct (run h (k x) w1) as [[tr1 [a | e]] w2]; simpl.
    + reflexivity.
    + destruct (run h (hd e) w2) as [[tr2 r] w3]; reflexivity.
Qed.

(** A handler that only rethrows changes nothing. *)
Lemma run_rethrow {A} (p : Prog A) (w : W) :
  run h (tryCatch p (fun error => Throw error)) w = run h p w.
Proof.
  rewrite run_tryCatch.
  destruct (run h p w) as [[tr [a | e]] w1]; simpl; [reflexivity |].
  rewrite app_nil_r; reflexivity.
Qed.

Lemma run_ofOutcome {A} (r : outcome A) (w : W) :
  run h (ofOutcome r) w = ([], r, w).
Proof. destruct r; reflexivity. Qed.

Lemma run_await {X} (ev : Event (outcome X)) (w : W) :
  run h (await ev) w = ([Called ev], fst (@h _ ev w), snd (@h _ ev w)).
Proof.
  unfold await; simpl.
  destruct (@h _ ev w) as [[x | e] w1]; reflexivity.
Qed.

(** A settled promise never throws: it returns the promise's outcome. *)
Lemma run_settle {A} (p : Prog A) (w : W) :
  run h (settle p) w =
  (fst (fst (run h p w)), Returned (snd (fst (run h p w))), snd (run h p w)).
Proof.
  unfold settle. rewrite run_tryCatch, run_bind.
  destruct (run h p w) as [[tr [a | e]] w1]; simpl.
  - rewrite app_nil_r; reflexivity.
  - rewrite app_nil_r; reflexivity.
Qed.

Lemma run_settleAll {A} (ps : list (Prog A)) (w : W) :
  snd (fst (run h (settleAll ps) w)) = Returned (fst (outcomes h ps w)) /\
  snd (run h (settleAll ps) w) = snd (outcomes h ps w).
Proof.
  revert w; induction ps as [| p ps IH]; intros w; simpl.
  - split; reflexivity.
  - rewrite run_bind, run_settle.
    rewrite run_bind.
    specialize (IH (snd (run h p w))).
    destruct (run h (settleAll ps) (snd (run h p w))) as [[tr2 r2] w2].
    simpl in IH. destruct IH as [-> ->]. simpl. split; reflexivity.
Qed.

Lemma run_promiseAll {A} (ps : list (Prog A)) (w : W) :
  snd (fst (run h (promiseAll ps) w)) = collect (fst (outcomes h ps w)) /\
  snd (run h (promiseAll ps) w) = snd (outcomes h ps w).
Proof.
  unfold promiseAll. rewrite run_bind.
  destruct (run_settleAll ps w) as [Hr Hw].
  destruct (run h (settleAll ps) w) as [[tr r] w1]; simpl in *.
  subst r. rewrite run_ofOutcome. simpl. split; [reflexivity | exact Hw].
Qed.

Lemma outcomes_app {A} (ps qs : list (Prog A)) (w : W) :
  outcomes h (ps ++ qs) w =
  (fst (outcomes h ps w) ++ fst (outcomes h qs (snd (outcomes h ps w))),
   snd (outcomes h qs (snd (outcomes h ps w)))).
Proof.
  revert w; induction ps as [| p ps IH]; intros w; simpl.
  - destruct (outcomes h qs w); reflexivity.
  - rewrite IH; reflexivity.
Qed.

Lemma outcomes_length {A} (ps : list (Prog A)) (w : W) :
  length (fst (outcomes h ps w)) = length ps.
Proof.
  revert w; induction ps as [| p ps IH]; intros w; simpl; [reflexivity |].
  rewrite IH; reflexivity.
Qed.

End RunFacts.

Lemma collect_app {A} (rs1 rs2 : list (outcome A)) :
  collect (rs1 ++ rs2) =
  match collect rs1 with
  | Returned l1 =>
      match collect rs2 with
      | Returned l2 => Returned (l1 ++ l2)
      | Thrown e => Thrown e
      end
  | Thrown e => Thrown e
  end.
Proof.
  induction rs1 as [| [a | e] rs1 IH]; simpl.
  - destruct (collect rs2); reflexivity.
  - rewrite IH. destruct (collect rs1); [| reflexivity].
    destruct (collect rs2); reflexivity.
  - reflexivity.
Qed.

Lemma collect_Returned {A} (rs : list (outcome A)) (l : list A) :
  collect rs = Returned l <-> rs = List.map Returned l.
Proof.
  revert l; induction rs as [| [a | e] rs IH]; intros l; simpl.
  - split; intros H.
    + injection H as <-; reflexivity.
    + destruct l; [reflexivity | discriminate].
  - destruct (collect rs) as [l' |] eqn:E.
    + split; intros H.
      * injection H as <-. simpl. f_equal. apply IH; reflexivity.
      * destruct l as [| b l]; [discriminate |].
        simpl in H. injection H as -> H. apply IH in H. injection H as ->. reflexivity.
    + split; intros H; [discriminate |].
      destruct l as [| b l]; [discriminate |].
      simpl in H. injection H as _ H. apply IH in H. discriminate.
  - split; intros H; [discriminate |].
    destruct l; discriminate.
Qed.

Lemma collect_Thrown {A} (rs : list (outcome A)) (e : Error) :
  collect rs = Thrown e ->
  exists i, nth_error rs i = Some (Thrown e) /\
            forall j, (j < i)%nat -> exists a, nth_error rs j = Some (Returned a).
Proof.
  induction rs as [| [a | e'] rs IH]; simpl; intros H.
  - discriminate.
  - destruct (collect rs) as [l |] eqn:E; [discriminate |].
    injection H as ->. destruct (IH eq_refl) as [i [Hi Hj]].
    exists (S i); split; [exact Hi |].
    intros [| j] Hlt; simpl; [eexists; reflexivity |].
    apply Hj; lia.
  - injection H as ->. exists 0%nat; split; [reflexivity |].
    intros j Hlt; lia.
Qed.

(* ================================================================== *)
(** * embeddings.js: generateEmbedding *)
(* ================================================================== *)

Section EmbeddingFacts.

Context {W : Type} (h : Handler W) (env : ProcessEnv).

Let apiKey : jsstring := orDefault (Embeddings.GOOGLE_API_KEY env) [].

(** What [generateEmbedding] does, case by case. *)
Lemma run_generateEmbedding (text : JS.value) (w : W) :
  run h (Embeddings.generateEmbedding env text) w =
  if negb (truthy (Embeddings.GOOGLE_API_KEY env))
  then ([], Thrown GoogleKeyNotConfigured, w)
  else
    match text with
    | VStr t =>
        if (length t =? 0)%nat || (length (trim t) =? 0)%nat
        then ([], Thrown TextMustBeNonEmpty, w)
        else if str_eqb (trim apiKey) []
        then ([], Thrown GoogleKeyEmpty, w)
        else
          let ev := EmbedContent apiKey Embeddings.EMBEDDING_MODEL t in
          ([Called ev],
           match fst (@h _ ev w) with
           | Returned (ValuesArray (v :: vs)) => Returned (v :: vs)
           | Returned _ => Thrown EmptyEmbeddingResult
           | Thrown e => Thrown e
           end,
           snd (@h _ ev w))
    | _ => ([], Thrown TextMustBeNonEmpty, w)
    end.
Proof.
  unfold Embeddings.generateEmbedding, apiKey.
  destruct (truthy (Embeddings.GOOGLE_API_KEY env)) eqn:Hk; simpl; [| reflexivity].
  destruct text; try reflexivity.
  destruct ((length s =? 0)%nat || (length (trim s) =? 0)%nat); [reflexivity |].
  rewrite run_rethrow. cbn [negb orb].
  destruct (str_eqb (trim (orDefault (Embeddings.GOOGLE_API_KEY env) [])) []);
    [reflexivity |].
  simpl.
  destruct (@h _ (EmbedContent (orDefault (Embeddings.GOOGLE_API_KEY env) [])
                           Embeddings.EMBEDDING_MODEL s) w) as [[vals | e] w1]; simpl.
  - destruct vals as [| | [| v vs]]; reflexivity.
  - reflexivity.
Qed.

End EmbeddingFacts.

Lemma length_zero_iff {A} (l : list A) : (length l =? 0)%nat = true <-> l = [].
Proof.
  destruct l; simpl; split; intros H; try reflexivity; discriminate.
Qed.

Lemma str_eqb_eq (a b : jsstring) : str_eqb a b = true <-> a = b.
Proof.
  unfold str_eqb. destruct (list_eq_dec N.eq_dec a b); split; intros H;
    try reflexivity; try assumption; try discriminate; contradiction.
Qed.

(** C7, counterexample: the provider answers the 3072 components of
    its model while the deployment declares 768 dimensions; the text
    "hi" is embedded as the 3072 components, their number being compared
    with nothing. *)
Lemma generateEmbedding_dimension_counterexample :
  ~ blank (js "hi") /\
  result Sim.handle (Embeddings.generateEmbedding env768 (VStr (js "hi"))) providerOf3072
  = Returned (repeat (1 # 2)%Q 3072) /\
  Qdrant.EMBEDDING_DIMENSIONS env768 = 768 /\
  ~ embed_has_configured_dimension_at Sim.handle env768 providerOf3072 (js "hi").
Proof.
  assert (Hb : ~ blank (js "hi")) by (unfold blank; vm_compute; discriminate).
  split; [exact Hb |]. split; [reflexivity |]. split; [reflexivity |].
  unfold embed_has_configured_dimension_at. intros H.
  destruct (H Hb) as [v [Hr Hlen]].
  change (Returned (repeat (1 # 2)%Q 3072) = Returned v) in Hr.
  injection Hr as <-. vm_compute in Hlen. discriminate.
Qed.

(** C7 (amended): with a usable credential and a text that is not blank,
    [generateEmbedding] makes one call to the provider and returns
    exactly the non-empty array the provider answered, whatever its
    length; it throws when the credential is absent, empty or blank,
    when the text is not a string or is blank, and when the provider's
    call throws or answers anything but a non-empty array. *)
Theorem generateEmbedding_contract :
  forall (W : Type) (h : Handler W) (env : ProcessEnv) (w : W) (text : JS.value),
    let r := result h (Embeddings.generateEmbedding env text) w in
    (forall t v vs,
        text = VStr t -> ~ blank t -> credentialUsable env ->
        fst (h _ (EmbedContent (orDefault (Embeddings.GOOGLE_API_KEY env) [])
                               Embeddings.EMBEDDING_MODEL t) w)
        = Returned (ValuesArray (v :: vs)) ->
        r = Returned (v :: vs) /\
        trace h (Embeddings.generateEmbedding env text) w
        = [Called (EmbedContent (orDefault (Embeddings.GOOGLE_API_KEY env) [])
                                Embeddings.EMBEDDING_MODEL t)]) /\
    (~ credentialUsable env -> exists e, r = Thrown e) /\
    ((forall t, text = VStr t -> blank t) -> exists e, r = Thrown e) /\
    (forall t,
        text = VStr t ->
        ~ wellFormed (fst (h _ (EmbedContent (orDefault (Embeddings.GOOGLE_API_KEY env) [])
                                             Embeddings.EMBEDDING_MODEL t) w)) ->
        exists e, r = Thrown e).
Proof.
  intros W h env w text r. subst r. unfold result, trace.
  rewrite run_generateEmbedding.
  unfold credentialUsable, blank, wellFormed.
  destruct (truthy (Embeddings.GOOGLE_API_KEY env)) eqn:Hk; simpl.
  2:{ split; [| split; [| split]].
      - intros t v vs _ _ [Hc _]; discriminate.
      - intros _; eexists; reflexivity.
      - intros _; eexists; reflexivity.
      - intros t _ _; eexists; reflexivity. }
  destruct text as [| | b | n | t |].
  1-4,6: split; [| split; [| split]];
    try (intros; discriminate); intros; eexists; reflexivity.
  destruct ((length t =? 0)%nat || (length (trim t) =? 0)%nat) eqn:Hb.
  - assert (Ht : trim t = []).
    { apply orb_true_iff in Hb. destruct Hb as [Hb | Hb];
        apply length_zero_iff in Hb; [subst t; reflexivity | exact Hb]. }
    split; [| split; [| split]]; try (intros; eexists; reflexivity).
    intros t' v vs E Hnb _ _. injection E as <-. contradiction.
  - apply orb_false_iff in Hb. destruct Hb as [_ Hb].
    assert (Ht : trim t <> []).
    { intros E. rewrite E in Hb. discriminate. }
    destruct (str_eqb (trim (orDefault (Embeddings.GOOGLE_API_KEY env) [])) []) eqn:Hkey.
    + apply str_eqb_eq in Hkey.
      split; [| split; [| split]]; try (intros; eexists; reflexivity).
      intros t' v vs _ _ [_ Hc] _. contradiction.
    + assert (Hkey' : trim (orDefault (Embeddings.GOOGLE_API_KEY env) []) <> []).
      { intros E. rewrite E in Hkey. discriminate. }
      cbv zeta. simpl snd. simpl fst.
      split; [| split; [| split]].
      * intros t' v vs E _ _ Hans. injection E as <-. rewrite Hans.
        split; reflexivity.
      * intros Hn. exfalso. apply Hn. split; [reflexivity | exact Hkey'].
      * intros Hall. exfalso. apply Ht. apply Hall. reflexivity.
      * intros t' E Hwf. injection E as <-.
        destruct (fst (h _ (EmbedContent (orDefault (Embeddings.GOOGLE_API_KEY env) [])
                                      Embeddings.EMBEDDING_MODEL t) w))
          as [[| | [| v vs]] | e]; try (eexists; reflexivity).
        exfalso. apply Hwf. exists v, vs. reflexivity.
Qed.

(* ================================================================== *)
(** * embeddings.js: generateEmbeddingsBatch *)
(* ================================================================== *)

Lemma slice_window {A} (l : list A) (i n : nat) :
  slice l i (i + n) = firstn n (skipn i l).
Proof.
  unfold slice. rewrite skipn_firstn_comm.
  replace (i + n - i)%nat with n by lia. reflexivity.
Qed.

Lemma skipn_window {A} (l : list A) (i n : nat) :
  skipn i l = slice l i (i + n) ++ skipn (i + n) l.
Proof.
  rewrite slice_window.
  rewrite <- (firstn_skipn n (skipn i l)) at 1.
  rewrite skipn_skipn. f_equal. f_equal. lia.
Qed.

Lemma outcomes_nth {W A} (h : Handler W) (ps : list (Prog A)) (w : W) (i : nat)
      (r : outcome A) :
  nth_error (fst (outcomes h ps w)) i = Some r ->
  exists p wi, nth_error ps i = Some p /\ result h p wi = r.
Proof.
  revert w i; induction ps as [| p ps IH]; intros w i H; simpl in H.
  - destruct i; discriminate.
  - destruct i as [| i]; simpl in H.
    + injection H as <-. exists p, w. split; reflexivity.
    + apply IH in H. destruct H as [q [wi [Hq Hr]]].
      exists q, wi. split; assumption.
Qed.

Section BatchFacts.

Context {W : Type} (h : Handler W) (env : ProcessEnv).

Let gen := Embeddings.generateEmbedding env.

(** With enough fuel the loop from index [i] yields what one
    [Promise.all] over the remaining texts would: the embeddings so far
    followed by theirs, or the first failure. *)
Lemma batchLoop_fuel_enough (fuel : nat) (texts : list JS.value) (i : nat)
      (embeddings : list (list float)) (w : W) :
  (length texts - i + 10 <= 10 * fuel)%nat ->
  result h (Embeddings.batchLoop env fuel texts i embeddings) w =
  match collect (fst (outcomes h (List.map gen (skipn i texts)) w)) with
  | Returned l => Returned (embeddings ++ l)
  | Thrown e => Thrown e
  end.
Proof.
  revert i embeddings w.
  induction fuel as [| fuel IH]; intros i embeddings w Hfuel; [lia |].
  simpl Embeddings.batchLoop.
  destruct (i <? length texts)%nat eqn:Hi.
  - apply Nat.ltb_lt in Hi.
    unfold result. rewrite run_bind.
    destruct (run_promiseAll h
                (List.map (Embeddings.generateEmbedding env)
                          (slice texts i (i + Embeddings.batchSize))) w)
      as [Hr Hw].
    rewrite (skipn_window texts i Embeddings.batchSize), map_app, outcomes_app.
    cbn [fst]. rewrite collect_app. fold gen in Hr, Hw |- *.
    destruct (run h (promiseAll (List.map gen (slice texts i (i + Embeddings.batchSize)))) w)
      as [[tr1 r1] w1].
    cbn [fst snd] in Hr, Hw. rewrite <- Hr, <- Hw.
    destruct r1 as [batchResults | e]; [| reflexivity].
    specialize (IH (i + Embeddings.batchSize)%nat (embeddings ++ batchResults) w1).
    unfold result in IH.
    destruct (run h (Embeddings.batchLoop env fuel texts (i + Embeddings.batchSize)
                                          (embeddings ++ batchResults)) w1)
      as [[tr2 r2] w2].
    cbn [fst snd] in IH |- *. rewrite IH.
    + fold gen.
      destruct (collect (fst (outcomes h (List.map gen (skipn (i + Embeddings.batchSize) texts)) w1)));
        [rewrite app_assoc |]; reflexivity.
    + unfold Embeddings.batchSize. lia.
  - apply Nat.ltb_ge in Hi.
    rewrite skipn_all2 by exact Hi. simpl. rewrite app_nil_r. reflexivity.
Qed.

(** Batching by ten does not show in the result: [generateEmbeddingsBatch]
    yields what one [Promise.all] over all the texts would. *)
Lemma generateEmbeddingsBatch_unbatched (texts : list JS.value) (w : W) :
  result h (Embeddings.generateEmbeddingsBatch env texts) w =
  collect (fst (outcomes h (List.map gen texts) w)).
Proof.
  unfold Embeddings.generateEmbeddingsBatch.
  destruct texts as [| t texts]; [reflexivity |].
  cbn [length Nat.eqb].
  rewrite batchLoop_fuel_enough by (simpl; lia).
  cbn [skipn].
  destruct (collect (fst (outcomes h (List.map gen (t :: texts)) w))); reflexivity.
Qed.

End BatchFacts.

(** C2: [generateEmbeddingsBatch] returns one embedding per text, the
    embedding at position [i] being the one [generateEmbedding] returned
    for the text at position [i], or it throws; it throws exactly when
    the embedding of some text failed, and then returns no embedding at
    all.  [rs] are the outcomes of [generateEmbedding] on the texts, in
    input order. *)
Theorem generateEmbeddingsBatch_all_or_nothing :
  forall (W : Type) (h : Handler W) (env : ProcessEnv) (w : W) (texts : list JS.value),
    let rs := fst (outcomes h (List.map (Embeddings.generateEmbedding env) texts) w) in
    length rs = length texts /\
    (forall i e,
        nth_error rs i = Some (Thrown e) ->
        exists e', result h (Embeddings.generateEmbeddingsBatch env texts) w = Thrown e') /\
    ((exists embeddings,
         result h (Embeddings.generateEmbeddingsBatch env texts) w = Returned embeddings /\
         length embeddings = length texts /\
         rs = List.map Returned embeddings /\
         forall i embedding,
           nth_error embeddings i = Some embedding ->
           exists text wi,
             nth_error texts i = Some text /\
             result h (Embeddings.generateEmbedding env text) wi = Returned embedding)
     \/
     (exists e i,
         result h (Embeddings.generateEmbeddingsBatch env texts) w = Thrown e /\
         nth_error rs i = Some (Thrown e))).
Proof.
  intros W h env w texts rs.
  assert (Hlen : length rs = length texts).
  { subst rs. rewrite outcomes_length, length_map. reflexivity. }
  split; [exact Hlen |].
  rewrite generateEmbeddingsBatch_unbatched. fold rs.
  split.
  { intros i e Hi. destruct (collect rs) as [embeddings | e'] eqn:Hc.
    - apply collect_Returned in Hc. rewrite Hc, nth_error_map in Hi.
      destruct (nth_error embeddings i); discriminate.
    - exists e'. reflexivity. }
  destruct (collect rs) as [embeddings | e] eqn:Hc.
  - left. exists embeddings.
    apply collect_Returned in Hc.
    assert (Hl : length embeddings = length texts).
    { rewrite <- Hlen, Hc, length_map. reflexivity. }
    repeat split; try assumption.
    intros i embedding Hi.
    assert (Hrs : nth_error rs i = Some (Returned embedding)).
    { rewrite Hc. rewrite nth_error_map, Hi. reflexivity. }
    subst rs. apply outcomes_nth in Hrs.
    destruct Hrs as [p [wi [Hp Hr]]].
    rewrite nth_error_map in Hp.
    destruct (nth_error texts i) as [text |] eqn:Ht; [| discriminate].
    injection Hp as <-. exists text, wi. split; [reflexivity | exact Hr].
  - right. apply collect_Thrown in Hc. destruct Hc as [i [Hi _]].
    exists e, i. split; [reflexivity | exact Hi].
Qed.

(* ================================================================== *)
(** * Which calls a program can make *)
(* ================================================================== *)

Section CallFacts.

Variable P : Call -> bool.

Lemma callsOnly_run {W A} (h : Handler W) (p : Prog A) (w : W) :
  callsOnly P p -> forallb P (fst (fst (run h p w))) = true.
Proof.
  revert w; induction p as [a | e | X ev k IH]; intros w Hp; simpl.
  - reflexivity.
  - reflexivity.
  - destruct Hp as [Hev Hk].
    destruct (h _ ev w) as [x w1].
    specialize (IH x w1 (Hk x)).
    destruct (run h (k x) w1) as [[tr r] w2]. simpl in *.
    rewrite Hev, IH. reflexivity.
Qed.

Lemma callsOnly_bind {A B} (p : Prog A) (f : A -> Prog B) :
  callsOnly P p -> (forall a, callsOnly P (f a)) -> callsOnly P (bind p f).
Proof.
  induction p as [a | e | X ev k IH]; simpl; intros Hp Hf.
  - apply Hf.
  - exact I.
  - destruct Hp as [Hev Hk]. split; [exact Hev |].
    intros x. apply IH; [apply Hk | exact Hf].
Qed.

Lemma callsOnly_tryCatch {A} (p : Prog A) (hd : Error -> Prog A) :
  callsOnly P p -> (forall e, callsOnly P (hd e)) -> callsOnly P (tryCatch p hd).
Proof.
  induction p as [a | e | X ev k IH]; simpl; intros Hp Hh.
  - exact I.
  - apply Hh.
  - destruct Hp as [Hev Hk]. split; [exact Hev |].
    intros x. apply IH; [apply Hk | exact Hh].
Qed.

Lemma callsOnly_await {X} (ev : Event (outcome X)) :
  P (Called ev) = true -> callsOnly P (await ev).
Proof.
  intros Hev. simpl. split; [exact Hev |]. intros [x | e]; exact I.
Qed.

Lemma callsOnly_ofOutcome {A} (r : outcome A) : callsOnly P (ofOutcome r).
Proof. destruct r; exact I. Qed.

Lemma callsOnly_settle {A} (p : Prog A) : callsOnly P p -> callsOnly P (settle p).
Proof.
  intros Hp. unfold settle. apply callsOnly_tryCatch.
  - apply callsOnly_bind; [exact Hp | intros a; exact I].
  - intros e; exact I.
Qed.

Lemma callsOnly_promiseAll {A} (ps : list (Prog A)) :
  (forall p, In p ps -> callsOnly P p) -> callsOnly P (promiseAll ps).
Proof.
  intros Hps. unfold promiseAll. apply callsOnly_bind.
  - induction ps as [| p ps IH]; simpl; [exact I |].
    apply callsOnly_bind.
    + apply callsOnly_settle. apply Hps. left; reflexivity.
    + intros r. apply callsOnly_bind.
      * apply IH. intros q Hq. apply Hps. right; exact Hq.
      * intros rs; exact I.
  - intros rs. apply callsOnly_ofOutcome.
Qed.

End CallFacts.

Section ServiceCalls.

Variable env : ProcessEnv.

(** [generateEmbedding] calls nothing but the embedding provider. *)
Lemma generateEmbedding_calls (text : JS.value) :
  callsOnly notQdrant (Embeddings.generateEmbedding env text).
Proof.
  unfold Embeddings.generateEmbedding.
  destruct (negb (truthy (Embeddings.GOOGLE_API_KEY env))); [exact I |].
  destruct text; try exact I.
  destruct ((length s =? 0)%nat || (length (trim s) =? 0)%nat); [exact I |].
  apply callsOnly_tryCatch; [| intros e; exact I].
  destruct (_ || _); [exact I |].
  apply callsOnly_bind.
  - apply callsOnly_await. reflexivity.
  - intros [| | [| v vs]]; exact I.
Qed.

Lemma batchLoop_calls (fuel : nat) (texts : list JS.value) (i : nat)
      (embeddings : list (list float)) :
  callsOnly notQdrant (Embeddings.batchLoop env fuel texts i embeddings).
Proof.
  revert i embeddings; induction fuel as [| fuel IH]; intros i embeddings; simpl.
  - exact I.
  - destruct (i <? length texts)%nat; [| exact I].
    apply callsOnly_bind.
    + apply callsOnly_promiseAll. intros p Hp.
      apply in_map_iff in Hp. destruct Hp as [text [<- _]].
      apply generateEmbedding_calls.
    + intros batchResults. apply IH.
Qed.

(** [generateEmbeddingsBatch] makes no call to Qdrant. *)
Lemma generateEmbeddingsBatch_calls (texts : list JS.value) :
  callsOnly notQdrant (Embeddings.generateEmbeddingsBatch env texts).
Proof.
  unfold Embeddings.generateEmbeddingsBatch.
  destruct (length texts =? 0)%nat; [exact I | apply batchLoop_calls].
Qed.

(** [ensureCollection] never upserts. *)
Lemma ensureCollection_calls : callsOnly notUpsert (Qdrant.ensureCollection env).
Proof.
  unfold Qdrant.ensureCollection.
  apply callsOnly_tryCatch; [| intros e; exact I].
  apply callsOnly_bind.
  - apply callsOnly_await. reflexivity.
  - intros collections. destruct (negb _); [| exact I].
    apply callsOnly_await. reflexivity.
Qed.

(** The sync path's [fetchFaqs] makes no call to Qdrant. *)
Lemma sync_fetchFaqs_calls : callsOnly notQdrant (Sync.fetchFaqs env).
Proof.
  unfold Sync.fetchFaqs.
  destruct (negb _); [exact I |].
  apply callsOnly_tryCatch; [| intros e; exact I].
  apply callsOnly_bind.
  - apply callsOnly_await. reflexivity.
  - intros data; exact I.
Qed.

End ServiceCalls.

Lemma notQdrant_notUpsert (c : Call) : notQdrant c = true -> notUpsert c = true.
Proof.
  destruct c as [X ev]. destruct ev; simpl; intros H; try reflexivity; discriminate.
Qed.

Lemma forallb_notQdrant_notUpsert (tr : list Call) :
  forallb notQdrant tr = true -> forallb notUpsert tr = true.
Proof.
  induction tr as [| c tr IH]; simpl; [reflexivity |].
  intros H. apply andb_true_iff in H. destruct H as [Hc Htr].
  rewrite (notQdrant_notUpsert c Hc), (IH Htr). reflexivity.
Qed.

(* ================================================================== *)
(** * sync.js: syncFaqs *)
(* ================================================================== *)

Section SyncFacts.

Context {W : Type} (h : Handler W) (env : ProcessEnv).

(** [ensureCollection] lists the collections and creates the target
    collection when it is not listed. *)
Lemma run_ensureCollection (w : W) :
  run h (Qdrant.ensureCollection env) w =
  match @h _ GetCollections w with
  | (Thrown e, w1) => ([Called GetCollections], Thrown e, w1)
  | (Returned collections, w1) =>
      if existsb (fun col => str_eqb col (Qdrant.QDRANT_COLLECTION_NAME env)) collections
      then ([Called GetCollections], Returned tt, w1)
      else
        let create := CreateCollection (Qdrant.QDRANT_COLLECTION_NAME env)
                                       (Qdrant.EMBEDDING_DIMENSIONS env) in
        ([Called GetCollections; Called create],
         fst (@h _ create w1), snd (@h _ create w1))
  end.
Proof.
  unfold Qdrant.ensureCollection. rewrite run_rethrow. simpl.
  destruct (@h _ GetCollections w) as [[collections | e] w1]; simpl; [| reflexivity].
  destruct (existsb _ collections); simpl; [reflexivity |].
  destruct (@h _ (CreateCollection (Qdrant.QDRANT_COLLECTION_NAME env)
                                   (Qdrant.EMBEDDING_DIMENSIONS env)) w1)
    as [[[] | e] w2]; reflexivity.
Qed.

(** The stages of a sync run, one after the other. *)
Lemma run_syncFaqsWith (stage : list JS.value -> Prog (list (list float))) (w : W) :
  run h (Sync.syncFaqsWith env stage) w =
  match run h (Qdrant.ensureCollection env) w with
  | (tr1, Thrown e, w1) => (tr1, Thrown e, w1)
  | (tr1, Returned _, w1) =>
      match run h (Sync.fetchFaqs env) w1 with
      | (tr2, Thrown e, w2) => (tr1 ++ tr2, Thrown e, w2)
      | (tr2, Returned faqs, w2) =>
          if (length faqs =? 0)%nat then (tr1 ++ tr2, Returned emptyReport, w2)
          else
            match buildAll faqs with
            | Thrown e => (tr1 ++ tr2, Thrown e, w2)
            | Returned faqData =>
                match run h (stage (textsOf faqData)) w2 with
                | (tr3, Thrown e, w3) => (tr1 ++ tr2 ++ tr3, Thrown e, w3)
                | (tr3, Returned embeddings, w3) =>
                    if negb (length embeddings =? length faqData)%nat
                    then (tr1 ++ tr2 ++ tr3,
                          Thrown (EmbeddingCountMismatch (length faqData) (length embeddings)),
                          w3)
                    else
                      match run h (Qdrant.upsertPoints env
                                     (Sync.toPoints faqData embeddings 0)) w3 with
                      | (tr4, Thrown e, w4) => (tr1 ++ tr2 ++ tr3 ++ tr4, Thrown e, w4)
                      | (tr4, Returned _, w4) =>
                          (tr1 ++ tr2 ++ tr3 ++ tr4,
                           Returned {| Sync.synced := length faqData;
                                       Sync.updated := 0; Sync.errors := 0 |},
                           w4)
                      end
                end
            end
      end
  end.
Proof.
  unfold Sync.syncFaqsWith. rewrite run_rethrow, run_bind.
  destruct (run h (Qdrant.ensureCollection env) w) as [[tr1 [[] | e]] w1]; [| reflexivity].
  rewrite run_bind.
  destruct (run h (Sync.fetchFaqs env) w1) as [[tr2 [faqs | e]] w2]; [| reflexivity].
  destruct (length faqs =? 0)%nat; [simpl; rewrite app_nil_r; reflexivity |].
  rewrite run_bind, run_ofOutcome. fold (buildAll faqs).
  destruct (buildAll faqs) as [faqData | e]; [| rewrite app_nil_r; reflexivity].
  rewrite run_bind. fold (textsOf faqData).
  destruct (run h (stage (textsOf faqData)) w2) as [[tr3 [embeddings | e]] w3];
    [| simpl; reflexivity].
  destruct (negb (length embeddings =? length faqData)%nat).
  - simpl. rewrite app_nil_r. reflexivity.
  - rewrite run_bind.
    destruct (run h (Qdrant.upsertPoints env (Sync.toPoints faqData embeddings 0)) w3)
      as [[tr4 [[] | e]] w4]; simpl; [rewrite app_nil_r |]; reflexivity.
Qed.

End SyncFacts.

Lemma filter_none {A} (f : A -> bool) (l : list A) :
  forallb (fun x => negb (f x)) l = true -> filter f l = [].
Proof.
  induction l as [| x l IH]; simpl; [reflexivity |].
  intros H. apply andb_true_iff in H. destruct H as [Hx Hl].
  apply negb_true_iff in Hx. rewrite Hx. apply IH, Hl.
Qed.

Lemma mapIndexed_In {A B} (f : A -> nat -> outcome B) (l : list A) (i : nat)
      (ys : list B) (x : A) :
  mapIndexed f l i = Returned ys -> In x l ->
  exists j y, f x j = Returned y /\ In y ys.
Proof.
  revert i ys; induction l as [| a l IH]; intros i ys H Hin; [contradiction |].
  simpl in H.
  destruct (f a i) as [b |] eqn:Hb; [| discriminate].
  destruct (mapIndexed f l (S i)) as [bs |] eqn:Hbs; [| discriminate].
  injection H as <-.
  destruct Hin as [-> | Hin].
  - exists i, b. split; [exact Hb | left; reflexivity].
  - destruct (IH (S i) bs Hbs Hin) as [j [y [Hy Hiny]]].
    exists j, y. split; [exact Hy | right; exact Hiny].
Qed.

Lemma outcomes_In {W A} (h : Handler W) (ps : list (Prog A)) (w : W) (p : Prog A) :
  In p ps -> exists wi, In (result h p wi) (fst (outcomes h ps w)).
Proof.
  revert w; induction ps as [| q ps IH]; intros w Hin; [contradiction |].
  simpl. destruct Hin as [-> | Hin].
  - exists w. left; reflexivity.
  - destruct (IH (snd (run h q w)) Hin) as [wi Hi].
    exists wi. right; exact Hi.
Qed.

Lemma collect_In_Thrown {A} (rs : list (outcome A)) (e : Error) :
  In (Thrown e) rs -> exists e', collect rs = Thrown e'.
Proof.
  intros Hin. destruct (collect rs) as [l |] eqn:Hc; [| eexists; reflexivity].
  apply collect_Returned in Hc. subst rs.
  apply in_map_iff in Hin. destruct Hin as [a [Ha _]]. discriminate.
Qed.

(** The calls of [ensureCollection]: the listing, and the creation of
    the target collection when it was not listed. *)
Lemma ensureCollection_trace {W} (h : Handler W) (env : ProcessEnv) (w w1 : W)
      (tr1 : list Call) (r : outcome unit) :
  run h (Qdrant.ensureCollection env) w = (tr1, r, w1) ->
  tr1 = [Called GetCollections] \/
  tr1 = [Called GetCollections;
         Called (CreateCollection (Qdrant.QDRANT_COLLECTION_NAME env)
                                  (Qdrant.EMBEDDING_DIMENSIONS env))].
Proof.
  intros Hensure. rewrite run_ensureCollection in Hensure.
  destruct (h _ GetCollections w) as [[collections | e] w'].
  - destruct (existsb _ collections).
    + injection Hensure as <- _ _. left; reflexivity.
    + cbv zeta in Hensure. injection Hensure as <- _ _. right; reflexivity.
  - injection Hensure as <- _ _. left; reflexivity.
Qed.

(** The calls of a sync run up to the end of the fetch: no upsert, and
    no call to Qdrant but those of [ensureCollection]. *)
Lemma sync_prefix_calls {W} (h : Handler W) (env : ProcessEnv) (w w1 w2 : W)
      (tr1 tr2 : list Call) (r1 : outcome unit) (r2 : outcome (list RawFaq)) :
  run h (Qdrant.ensureCollection env) w = (tr1, r1, w1) ->
  run h (Sync.fetchFaqs env) w1 = (tr2, r2, w2) ->
  forallb notUpsert (tr1 ++ tr2) = true /\
  filter isUpsert (tr1 ++ tr2) = [] /\
  filter isQdrantCall (tr1 ++ tr2) = tr1.
Proof.
  intros Hensure Hfetch.
  assert (Hq2 : forallb notQdrant tr2 = true).
  { pose proof (callsOnly_run _ h (Sync.fetchFaqs env) w1 (sync_fetchFaqs_calls env)) as H.
    rewrite Hfetch in H. exact H. }
  assert (Htr1 : forallb notUpsert tr1 = true).
  { pose proof (callsOnly_run _ h (Qdrant.ensureCollection env) w (ensureCollection_calls env)) as H.
    rewrite Hensure in H. exact H. }
  assert (Hall : forallb notUpsert (tr1 ++ tr2) = true).
  { rewrite forallb_app, Htr1, (forallb_notQdrant_notUpsert tr2 Hq2). reflexivity. }
  split; [exact Hall |]. split; [apply filter_none; exact Hall |].
  rewrite filter_app, (filter_none isQdrantCall tr2 Hq2), app_nil_r.
  destruct (ensureCollection_trace h env w Hensure) as [-> | ->]; reflexivity.
Qed.

(** C5 (amended): when the source fetch yields no record, [syncFaqs]
    returns exactly [{synced: 0, updated: 0, errors: 0}] and makes no
    upsert; the calls it has made to Qdrant are those of
    [ensureCollection], which ran first: the listing of the
    collections, and the creation of the target collection when it was
    not listed. *)
Theorem syncFaqs_empty_source :
  forall (W : Type) (h : Handler W) (env : ProcessEnv) (w w1 w2 : W)
         (tr1 tr2 : list Call),
    run h (Qdrant.ensureCollection env) w = (tr1, Returned tt, w1) ->
    run h (Sync.fetchFaqs env) w1 = (tr2, Returned [], w2) ->
    run h (Sync.syncFaqs env) w = (tr1 ++ tr2, Returned emptyReport, w2) /\
    forallb notUpsert (tr1 ++ tr2) = true /\
    filter isQdrantCall (tr1 ++ tr2) = tr1 /\
    (tr1 = [Called GetCollections] \/
     tr1 = [Called GetCollections;
            Called (CreateCollection (Qdrant.QDRANT_COLLECTION_NAME env)
                                     (Qdrant.EMBEDDING_DIMENSIONS env))]).
Proof.
  intros W h env w w1 w2 tr1 tr2 Hensure Hfetch.
  destruct (sync_prefix_calls h env w Hensure Hfetch) as [Hnone [_ Hqdrant]].
  split; [| split; [exact Hnone | split; [exact Hqdrant |]]].
  - unfold Sync.syncFaqs. rewrite run_syncFaqsWith, Hensure, Hfetch. reflexivity.
  - exact (ensureCollection_trace h env w Hensure).
Qed.


(** C10: a fetched record with an id and none of the four text fields
    has the empty combined text; [generateEmbedding] rejects that text
    in every state; and the sync run that fetched it throws without
    having made any upsert. *)
Theorem syncFaqs_record_without_text :
  forall (W : Type) (h : Handler W) (env : ProcessEnv) (w w1 w2 : W)
         (tr1 tr2 : list Call) (faqs : list RawFaq) (faq : RawFaq),
    run h (Qdrant.ensureCollection env) w = (tr1, Returned tt, w1) ->
    run h (Sync.fetchFaqs env) w1 = (tr2, Returned faqs, w2) ->
    In faq faqs ->
    truthy (faq_id faq) = true ->
    truthy (questionEnglish faq) = false ->
    truthy (answerEnglish faq) = false ->
    truthy (questionHindi faq) = false ->
    truthy (answerHindi faq) = false ->
    Sync.combineFaqText faq = [] /\
    (forall w', exists e,
        result h (Embeddings.generateEmbedding env (VStr (Sync.combineFaqText faq))) w'
        = Thrown e) /\
    (exists e, result h (Sync.syncFaqs env) w = Thrown e) /\
    forallb notUpsert (trace h (Sync.syncFaqs env) w) = true.
Proof.
  intros W h env w w1 w2 tr1 tr2 faqs faq Hensure Hfetch Hin Hid HqE HaE HqH HaH.
  assert (Htext : Sync.combineFaqText faq = []).
  { unfold Sync.combineFaqText, Sync.pushIf, truthy in *.
    destruct (questionEnglish faq) as [[| ? ?] |]; try discriminate;
    destruct (answerEnglish faq) as [[| ? ?] |]; try discriminate;
    destruct (questionHindi faq) as [[| ? ?] |]; try discriminate;
    destruct (answerHindi faq) as [[| ? ?] |]; try discriminate; reflexivity. }
  assert (Hreject : forall w', exists e,
             result h (Embeddings.generateEmbedding env (VStr [])) w' = Thrown e).
  { intros w'. unfold result. rewrite run_generateEmbedding.
    destruct (negb _); eexists; reflexivity. }
  split; [exact Htext |].
  split; [rewrite Htext; exact Hreject |].
  destruct (sync_prefix_calls h env w Hensure Hfetch) as [Hnone _].
  unfold result, trace, Sync.syncFaqs.
  rewrite run_syncFaqsWith, Hensure, Hfetch.
  destruct faqs as [| faq0 faqs0] eqn:Hfaqs; [contradiction |].
  cbn [length Nat.eqb]. rewrite <- Hfaqs in *. clear Hfaqs.
  destruct (buildAll faqs) as [faqData | e] eqn:Hbuild.
  2:{ cbn [fst snd]. split; [eexists; reflexivity | exact Hnone]. }
  assert (Hintext : In (VStr []) (textsOf faqData)).
  { destruct (mapIndexed_In _ _ _ faq Hbuild Hin) as [j [d [Hd Hind]]].
    unfold Sync.buildFaqData in Hd.
    destruct (Sync.getFaqId faq) as [fid |]; [| discriminate].
    injection Hd as <-.
    unfold textsOf. apply in_map_iff.
    eexists. split; [| exact Hind]. cbn [Sync.text]. rewrite Htext. reflexivity. }
  pose proof (generateEmbeddingsBatch_unbatched h env (textsOf faqData) w2) as Hres.
  pose proof (callsOnly_run _ h (Embeddings.generateEmbeddingsBatch env (textsOf faqData)) w2
                (generateEmbeddingsBatch_calls env (textsOf faqData))) as Hcalls.
  unfold result in Hres.
  destruct (run h (Embeddings.generateEmbeddingsBatch env (textsOf faqData)) w2)
    as [[tr3 r3] w3].
  cbn [fst snd] in Hres, Hcalls.
  assert (Hthrown : exists e, r3 = Thrown e).
  { rewrite Hres.
    destruct (outcomes_In h (List.map (Embeddings.generateEmbedding env) (textsOf faqData)) w2
                (Embeddings.generateEmbedding env (VStr []))) as [wi Hwi].
    { apply in_map. exact Hintext. }
    destruct (Hreject wi) as [e He]. rewrite He in Hwi.
    eapply collect_In_Thrown. exact Hwi. }
  destruct Hthrown as [e ->].
  cbn [fst snd]. split; [eexists; reflexivity |].
  rewrite app_assoc, forallb_app, Hnone.
  rewrite (forallb_notQdrant_notUpsert tr3 Hcalls). reflexivity.
Qed.

(* ================================================================== *)
(** * The vector retrieval module: getFaqContext *)
(* ================================================================== *)

Section VectorFacts.

Context {W : Type} (h : Handler W).

Variable generateEmbedding : JS.value -> Prog EmbedValues.
Variable searchVectors :
  list float -> Z -> float -> Prog (option (list Qdrant.SearchResult)).

(** The stages of a retrieval, one after the other. *)
Lemma run_getFaqContextWith (query : JS.value) (w : W) :
  result h (Vector.getFaqContextWith generateEmbedding searchVectors query) w =
  match query with
  | VStr q =>
      if (length q =? 0)%nat || (length (trim q) =? 0)%nat then Returned None
      else
        match run h (generateEmbedding (VStr (trim q))) w with
        | (_, Returned (ValuesArray (v :: vs)), w1) =>
            match run h (searchVectors (v :: vs) Vector.DEFAULT_LIMIT
                                       Vector.SCORE_THRESHOLD) w1 with
            | (_, Returned (Some (f :: fs)), _) =>
                Returned (Some (Vector.formatFaqContext (f :: fs)))
            | _ => Returned None
            end
        | _ => Returned None
        end
  | _ => Returned None
  end.
Proof.
  unfold result, Vector.getFaqContextWith.
  destruct query; try reflexivity.
  destruct ((length s =? 0)%nat || (length (trim s) =? 0)%nat); [reflexivity |].
  rewrite run_tryCatch, run_bind.
  destruct (run h (generateEmbedding (VStr (trim s))) w) as [[tr1 [vals | e]] w1];
    [| reflexivity].
  destruct vals as [| | [| v vs]]; try reflexivity.
  rewrite run_bind.
  destruct (run h (searchVectors (v :: vs) Vector.DEFAULT_LIMIT Vector.SCORE_THRESHOLD) w1)
    as [[tr2 [[[| f fs] |] | e]] w2]; reflexivity.
Qed.

End VectorFacts.

(** C4: the vector-strategy [getFaqContext] always returns and never
    throws, whatever the embedding and the search do.  It returns null
    for a query that is not a string or is blank (empty or white space
    only); when the embedding throws; when the embedding resolves to
    anything but a non-empty array; when the search throws; and when
    the search resolves to nothing or to an empty list.  Otherwise it
    returns the formatted results. *)
Theorem getFaqContext_never_throws :
  forall (W : Type) (h : Handler W) (env : ProcessEnv)
         (generateEmbedding : JS.value -> Prog EmbedValues)
         (searchVectors : list float -> Z -> float -> Prog (option (list Qdrant.SearchResult)))
         (query : JS.value) (w : W),
    let r := result h (Vector.getFaqContextWith generateEmbedding searchVectors query) w in
    (exists context, r = Returned context) /\
    (exists context, result h (Vector.getFaqContext env query) w = Returned context) /\
    ((forall q, query = VStr q -> blank q) -> r = Returned None) /\
    (forall q e,
        query = VStr q ->
        result h (generateEmbedding (VStr (trim q))) w = Thrown e ->
        r = Returned None) /\
    (forall q vals,
        query = VStr q ->
        result h (generateEmbedding (VStr (trim q))) w = Returned vals ->
        ~ nonEmptyArray vals ->
        r = Returned None) /\
    (forall q tr w1 v vs,
        query = VStr q ->
        run h (generateEmbedding (VStr (trim q))) w = (tr, Returned (ValuesArray (v :: vs)), w1) ->
        (forall f fs,
            result h (searchVectors (v :: vs) Vector.DEFAULT_LIMIT Vector.SCORE_THRESHOLD) w1
            <> Returned (Some (f :: fs))) ->
        r = Returned None) /\
    (forall q tr w1 v vs f fs,
        query = VStr q -> ~ blank q ->
        run h (generateEmbedding (VStr (trim q))) w = (tr, Returned (ValuesArray (v :: vs)), w1) ->
        result h (searchVectors (v :: vs) Vector.DEFAULT_LIMIT Vector.SCORE_THRESHOLD) w1
        = Returned (Some (f :: fs)) ->
        r = Returned (Some (Vector.formatFaqContext (f :: fs)))).
Proof.
  intros W h env generateEmbedding searchVectors query w r.
  assert (Hnever : forall gen search,
             exists context,
               result h (Vector.getFaqContextWith gen search query) w = Returned context).
  { intros gen search. rewrite run_getFaqContextWith.
    destruct query; try (eexists; reflexivity).
    destruct (_ || _); [eexists; reflexivity |].
    destruct (run h (gen (VStr (trim s))) w) as [[tr1 [[| | [| v vs]] | e]] w1];
      try (eexists; reflexivity).
    destruct (run h (search (v :: vs) Vector.DEFAULT_LIMIT Vector.SCORE_THRESHOLD) w1)
      as [[tr2 [[[| f fs] |] | e]] w2]; eexists; reflexivity. }
  split; [apply Hnever |].
  split; [apply Hnever |].
  subst r. rewrite run_getFaqContextWith. unfold result, blank, nonEmptyArray.
  repeat split.
  - intros Hblank. destruct query as [| | | | q |]; try reflexivity.
    specialize (Hblank q eq_refl). rewrite Hblank. cbn [length Nat.eqb].
    rewrite orb_true_r. reflexivity.
  - intros q e -> He.
    destruct (_ || _); [reflexivity |].
    destruct (run h (generateEmbedding (VStr (trim q))) w) as [[tr1 r1] w1].
    cbn [fst snd] in He. subst r1. reflexivity.
  - intros q vals -> Hv Hne.
    destruct (_ || _); [reflexivity |].
    destruct (run h (generateEmbedding (VStr (trim q))) w) as [[tr1 r1] w1].
    cbn [fst snd] in Hv. subst r1.
    destruct vals as [| | [| v vs]]; try reflexivity.
    exfalso. apply Hne. exists v, vs. reflexivity.
  - intros q tr w1 v vs -> Hgen Hsearch.
    destruct (_ || _); [reflexivity |].
    rewrite Hgen.
    destruct (run h (searchVectors (v :: vs) Vector.DEFAULT_LIMIT Vector.SCORE_THRESHOLD) w1)
      as [[tr2 [[[| f fs] |] | e]] w2]; try reflexivity.
    exfalso. apply (Hsearch f fs). reflexivity.
  - intros q tr w1 v vs f fs -> Hnb Hgen Hsearch.
    destruct ((length q =? 0)%nat || (length (trim q) =? 0)%nat) eqn:Hb.
    + exfalso. apply Hnb. apply orb_true_iff in Hb.
      destruct Hb as [Hb | Hb]; apply length_zero_iff in Hb; [subst q; reflexivity | exact Hb].
    + rewrite Hgen.
      destruct (run h (searchVectors (v :: vs) Vector.DEFAULT_LIMIT Vector.SCORE_THRESHOLD) w1)
        as [[tr2 r2] w2].
      cbn [fst snd] in Hsearch. subst r2. reflexivity.
Qed.

(* ================================================================== *)
(** * index.js: fetchFaqs and its cache *)
(* ================================================================== *)

Section CacheFacts.

Context {W : Type} (h : Handler W) (env : ProcessEnv).

Let get : Event (outcome HttpData) :=
  HttpGet (Lexical.FAQ_API_URL env) (Lexical.DEFAULT_TIMEOUT env).


End CacheFacts.


(* ================================================================== *)
(** * qdrant.js: the numeric point id *)
(* ================================================================== *)

Lemma replace_prefix (s pat : jsstring) :
  startsWith s pat = true -> replace s pat [] = skipn (length pat) s.
Proof.
  intros H. destruct s as [| c s]; cbn [replace]; rewrite H; reflexivity.
Qed.

Lemma charCodeSum_from (s : jsstring) (acc : Z) :
  fold_left (fun acc char => acc + Z.of_N char) s acc = acc + charCodeSum s.
Proof.
  unfold charCodeSum. revert acc; induction s as [| c s IH]; intros acc; simpl.
  - lia.
  - rewrite IH, (IH (Z.of_N c)). lia.
Qed.

Lemma charCodeSum_nonneg (s : jsstring) : 0 <= charCodeSum s.
Proof.
  induction s as [| c s IH]; unfold charCodeSum; simpl; [lia |].
  rewrite charCodeSum_from. lia.
Qed.

Lemma pointIdOf_stripped (id : jsstring) :
  Qdrant.pointIdOf id =
  orNumber (parseInt (stripFaqPrefix id)) (Z.abs (charCodeSum (stripFaqPrefix id))).
Proof.
  unfold Qdrant.pointIdOf, stripFaqPrefix.
  destruct (startsWith id (js "faq_")) eqn:Hp; [| reflexivity].
  rewrite (replace_prefix id (js "faq_") Hp). reflexivity.
Qed.

Lemma mapIndexed_preparePoint_ids (points : list Qdrant.Point) (i : nat)
      (prepared : list PreparedPoint) :
  mapIndexed Qdrant.preparePoint points i = Returned prepared ->
  List.map pp_id prepared = List.map (fun p => Qdrant.pointIdOf (Qdrant.id p)) points.
Proof.
  revert i prepared; induction points as [| p points IH]; intros i prepared H; simpl in H.
  - injection H as <-; reflexivity.
  - destruct (Qdrant.preparePoint p i) as [q |] eqn:Hq; [| discriminate].
    destruct (mapIndexed Qdrant.preparePoint points (S i)) as [qs |] eqn:Hqs; [| discriminate].
    injection H as <-. simpl. rewrite (IH _ _ Hqs). f_equal.
    unfold Qdrant.preparePoint in Hq.
    destruct (negb _); [discriminate |].
    destruct (Qdrant.vector p); [| discriminate].
    injection Hq as <-. reflexivity.
Qed.

(** C1, counterexample: the identifier "faq_12" does not parse as an
    integer, so the mapping as specified gives the sum of its character
    codes, 506; the point prepared by [upsertPoints] has id 12. *)
Lemma pointId_counterexample :
  Qdrant.preparePoint (Qdrant.mkPoint (js "faq_12") (Some [(1 # 2)%Q]) None) 0
  = Returned (mkPrepared 12 [(1 # 2)%Q] emptyPayload) /\
  parseInt (js "faq_12") = None /\
  pointId_as_specified (js "faq_12") = 506 /\
  Qdrant.pointIdOf (js "faq_12") <> pointId_as_specified (js "faq_12").
Proof.
  repeat split. vm_compute. discriminate.
Qed.

(** C1 (amended): [upsertPoints] sends, for a non-empty list of valid
    points, one prepared point per point, whose numeric id is
    [pointIdOf] of the point's identifier alone: two lists of points
    with the same identifiers get the same numeric ids.  [pointIdOf]
    first removes a leading "faq_"; when what is left parses
    ([parseInt], base 10) as an integer other than zero, of magnitude
    below 2^53, the id is that integer; when it does not parse, the id
    is the sum of its character codes, which is not negative. *)
Theorem upsertPoints_point_ids :
  forall (W : Type) (h : Handler W) (env : ProcessEnv) (w : W)
         (points : list Qdrant.Point) (prepared : list PreparedPoint),
    points <> [] ->
    mapIndexed Qdrant.preparePoint points 0 = Returned prepared ->
    trace h (Qdrant.upsertPoints env points) w
      = [Called (Upsert (Qdrant.QDRANT_COLLECTION_NAME env) prepared)] /\
    List.map pp_id prepared = List.map (fun p => Qdrant.pointIdOf (Qdrant.id p)) points /\
    (forall points' prepared',
        List.map Qdrant.id points' = List.map Qdrant.id points ->
        mapIndexed Qdrant.preparePoint points' 0 = Returned prepared' ->
        List.map pp_id prepared' = List.map pp_id prepared) /\
    (forall p n,
        In p points ->
        parseInt (stripFaqPrefix (Qdrant.id p)) = Some n ->
        n <> 0 -> Z.abs n < 2 ^ 53 ->
        Qdrant.pointIdOf (Qdrant.id p) = n) /\
    (forall p,
        In p points ->
        parseInt (stripFaqPrefix (Qdrant.id p)) = None ->
        Qdrant.pointIdOf (Qdrant.id p) = charCodeSum (stripFaqPrefix (Qdrant.id p)) /\
        0 <= Qdrant.pointIdOf (Qdrant.id p)).
Proof.
  intros W h env w points prepared Hne Hprep.
  split; [| split; [| split; [| split]]].
  - unfold trace, Qdrant.upsertPoints. rewrite run_rethrow.
    destruct points as [| p points]; [contradiction |].
    cbn [length Nat.eqb]. rewrite run_bind, run_ofOutcome, Hprep, run_await.
    reflexivity.
  - apply (mapIndexed_preparePoint_ids _ _ Hprep).
  - intros points' prepared' Hids Hprep'.
    rewrite (mapIndexed_preparePoint_ids _ _ Hprep), (mapIndexed_preparePoint_ids _ _ Hprep').
    rewrite <- (map_map Qdrant.id Qdrant.pointIdOf points').
    rewrite <- (map_map Qdrant.id Qdrant.pointIdOf points).
    rewrite Hids. reflexivity.
  - intros p n _ Hparse Hn _. rewrite pointIdOf_stripped, Hparse. simpl.
    apply Z.eqb_neq in Hn. rewrite Hn. reflexivity.
  - intros p _ Hparse. rewrite pointIdOf_stripped, Hparse. simpl.
    pose proof (charCodeSum_nonneg (stripFaqPrefix (Qdrant.id p))) as Hpos.
    rewrite Z.abs_eq by exact Hpos. split; [reflexivity | exact Hpos].
Qed.

(* ================================================================== *)
(** * Context formatting *)
(* ================================================================== *)

Lemma slice0_length {A} (l : list A) (n : Z) :
  0 <= n -> Z.of_nat (length (slice0 l n)) <= n.
Proof.
  intros Hn. unfold slice0.
  destruct (n <? 0) eqn:Hneg; [apply Z.ltb_lt in Hneg; lia |].
  rewrite length_firstn. lia.
Qed.

Lemma slice0_all {A} (l : list A) (n : Z) :
  Z.of_nat (length l) <= n -> slice0 l n = l.
Proof.
  intros Hn. unfold slice0.
  destruct (n <? 0) eqn:Hneg; [apply Z.ltb_lt in Hneg; lia |].
  apply firstn_all2. lia.
Qed.

Lemma slice0_prefix {A} (l : list A) (n : Z) :
  exists rest, l = slice0 l n ++ rest.
Proof.
  unfold slice0. destruct (n <? 0).
  - eexists. symmetry. apply firstn_skipn.
  - eexists. symmetry. apply firstn_skipn.
Qed.

Lemma lexical_blocks_nth (faqs : list RawFaq) (start i : nat) (faq : RawFaq) :
  nth_error faqs i = Some faq ->
  nth_error (Lexical.blocks faqs start) i
  = Some (Lexical.block (start + i) (shownQuestion faq) (shownAnswer faq)).
Proof.
  revert start i; induction faqs as [| f faqs IH]; intros start i H.
  - destruct i; discriminate.
  - destruct i as [| i]; simpl in H |- *.
    + injection H as <-. rewrite Nat.add_0_r. reflexivity.
    + rewrite (IH (S start) i H). do 2 f_equal. lia.
Qed.

Lemma vector_blocks_nth (results : list Qdrant.SearchResult) (start i : nat)
      (r : Qdrant.SearchResult) :
  nth_error results i = Some r ->
  nth_error (Vector.blocks results start) i
  = Some (Lexical.block (start + i) (shownQuestionOf r) (shownAnswerOf r)).
Proof.
  revert start i; induction results as [| f results IH]; intros start i H.
  - destruct i; discriminate.
  - destruct i as [| i]; simpl in H |- *.
    + injection H as <-. rewrite Nat.add_0_r. reflexivity.
    + rewrite (IH (S start) i H). do 2 f_equal. lia.
Qed.

Lemma lexical_format_slice (env : ProcessEnv) (faqs : list RawFaq) :
  Lexical.formatFaqContext env faqs
  = slice0 (join (LF ++ LF) (Lexical.blocks faqs 0)) (Lexical.CONTEXT_CHAR_LIMIT env).
Proof.
  unfold Lexical.formatFaqContext. destruct faqs as [| f faqs]; [| reflexivity].
  simpl. unfold slice0. destruct (_ <? 0); rewrite firstn_nil; reflexivity.
Qed.

Lemma vector_format_slice (results : list Qdrant.SearchResult) :
  Vector.formatFaqContext results
  = slice0 (join (LF ++ LF) (Vector.blocks results 0)) Vector.CONTEXT_CHAR_LIMIT.
Proof.
  unfold Vector.formatFaqContext. destruct results as [| f results]; reflexivity.
Qed.

(* ================================================================== *)
(** * index.js: lexical selection *)
(* ================================================================== *)

Section SortFacts.

Context {A : Type} (cmp : A -> A -> Z).

Lemma insertBy_perm (x : A) (l : list A) :
  Permutation (Lexical.insertBy cmp x l) (x :: l).
Proof.
  induction l as [| y l IH]; simpl; [apply Permutation_refl |].
  destruct (cmp x y <=? 0); [apply Permutation_refl |].
  eapply Permutation_trans; [apply perm_skip, IH | apply perm_swap].
Qed.

Lemma sortBy_perm (l : list A) : Permutation (Lexical.sortBy cmp l) l.
Proof.
  induction l as [| x l IH]; simpl; [apply Permutation_refl |].
  eapply Permutation_trans; [apply insertBy_perm | apply perm_skip, IH].
Qed.

Hypothesis cmp_total : forall a b, cmp a b <= 0 \/ cmp b a <= 0.
Hypothesis cmp_trans : forall a b c, cmp a b <= 0 -> cmp b c <= 0 -> cmp a c <= 0.

Lemma insertBy_sorted (x : A) (l : list A) :
  StronglySorted (fun a b => cmp a b <= 0) l ->
  StronglySorted (fun a b => cmp a b <= 0) (Lexical.insertBy cmp x l).
Proof.
  induction l as [| y l IH]; intros Hs; simpl.
  - constructor; [constructor | constructor].
  - destruct (cmp x y <=? 0) eqn:Hxy.
    + apply Z.leb_le in Hxy. constructor; [exact Hs |].
      constructor; [exact Hxy |].
      inversion Hs as [| ? ? _ Hall]; subst.
      eapply Forall_impl; [| exact Hall].
      intros b Hb. eapply cmp_trans; eassumption.
    + apply Z.leb_gt in Hxy.
      inversion Hs as [| ? ? Hs' Hall]; subst.
      constructor; [apply IH, Hs' |].
      assert (Hyx : cmp y x <= 0) by (destruct (cmp_total x y); [lia | assumption]).
      eapply Permutation_Forall; [apply Permutation_sym, insertBy_perm |].
      constructor; assumption.
Qed.

Lemma sortBy_sorted (l : list A) :
  StronglySorted (fun a b => cmp a b <= 0) (Lexical.sortBy cmp l).
Proof.
  induction l as [| x l IH]; simpl; [constructor |].
  apply insertBy_sorted, IH.
Qed.

End SortFacts.

Lemma compareScored_le (a b : Lexical.Scored) :
  Lexical.compareScored a b <= 0 <->
  Lexical.score a > Lexical.score b \/
  (Lexical.score a = Lexical.score b /\ Lexical.index a <= Lexical.index b).
Proof.
  unfold Lexical.compareScored.
  destruct (Lexical.score b =? Lexical.score a) eqn:E.
  - apply Z.eqb_eq in E. lia.
  - apply Z.eqb_neq in E. lia.
Qed.

Lemma compareScored_total (a b : Lexical.Scored) :
  Lexical.compareScored a b <= 0 \/ Lexical.compareScored b a <= 0.
Proof. rewrite !compareScored_le. lia. Qed.

Lemma compareScored_trans (a b c : Lexical.Scored) :
  Lexical.compareScored a b <= 0 -> Lexical.compareScored b c <= 0 ->
  Lexical.compareScored a c <= 0.
Proof. rewrite !compareScored_le. lia. Qed.

Section SelectFacts.

Variable env : ProcessEnv.
Variable toLowerCase : jsstring -> jsstring.


Lemma scoreAll_spec (tokens : list jsstring) (faqs : list RawFaq) (start : Z) (s : Lexical.Scored) :
  In s (Lexical.scoreAll toLowerCase tokens faqs start) <->
  exists i, nth_error faqs i = Some (Lexical.faq s) /\
            Lexical.index s = start + Z.of_nat i /\
            Lexical.score s = Lexical.scoreOf toLowerCase tokens (Lexical.faq s).
Proof.
  revert start; induction faqs as [| f faqs IH]; intros start; simpl.
  - split; [contradiction |]. intros [i [Hi _]]. destruct i; discriminate.
  - split.
    + intros [<- | Hin].
      * exists 0%nat. simpl. repeat split. lia.
      * apply IH in Hin. destruct Hin as [i [Hi [Hidx Hsc]]].
        exists (S i). simpl. repeat split; [exact Hi | lia | exact Hsc].
    + intros [[| i] [Hi [Hidx Hsc]]]; simpl in Hi.
      * left. injection Hi as Hf. destruct s as [sc fq ix]; simpl in *.
        subst. f_equal. lia.
      * right. apply IH. exists i. repeat split; [exact Hi | lia | exact Hsc].
Qed.

Lemma scoreAll_increasing (tokens : list jsstring) (faqs : list RawFaq) (start : Z) :
  StronglySorted (fun a b => Lexical.index a < Lexical.index b)
                 (Lexical.scoreAll toLowerCase tokens faqs start).
Proof.
  revert start; induction faqs as [| f faqs IH]; intros start; simpl; constructor.
  - apply IH.
  - apply Forall_forall. intros s Hs. apply scoreAll_spec in Hs.
    destruct Hs as [i [_ [Hidx _]]]. simpl. lia.
Qed.

Lemma filter_increasing {A} (R : A -> A -> Prop) (f : A -> bool) (l : list A) :
  StronglySorted R l -> StronglySorted R (filter f l).
Proof.
  induction 1 as [| x l Hs IH Hall]; simpl; [constructor |].
  destruct (f x); [| exact IH].
  constructor; [exact IH |].
  apply Forall_forall. intros y Hy. apply filter_In in Hy.
  rewrite Forall_forall in Hall. apply Hall, Hy.
Qed.

Lemma increasing_NoDup (l : list Lexical.Scored) :
  StronglySorted (fun a b => Lexical.index a < Lexical.index b) l ->
  NoDup (List.map Lexical.index l).
Proof.
  induction 1 as [| x l Hs IH Hall]; simpl; constructor; [| exact IH].
  intros Hin. apply in_map_iff in Hin. destruct Hin as [y [Hy Hiny]].
  rewrite Forall_forall in Hall. specialize (Hall y Hiny). lia.
Qed.

Lemma sorted_strict (l : list Lexical.Scored) :
  NoDup (List.map Lexical.index l) ->
  StronglySorted (fun a b => Lexical.compareScored a b <= 0) l ->
  StronglySorted ranksBefore l.
Proof.
  intros Hnd Hs. induction Hs as [| x l Hs IH Hall]; constructor.
  - apply IH. inversion Hnd; assumption.
  - apply Forall_forall. intros y Hy.
    rewrite Forall_forall in Hall. specialize (Hall y Hy).
    apply compareScored_le in Hall.
    assert (Hneq : Lexical.index x <> Lexical.index y).
    { inversion Hnd as [| ? ? Hnotin _]; subst. intros E. apply Hnotin.
      rewrite E. apply in_map. exact Hy. }
    unfold ranksBefore. lia.
Qed.

(** The ranking [scored.sort] produces from the candidates. *)
Lemma ranking (tokens : list jsstring) (faqs : list RawFaq) :
  let ranked := Lexical.sortBy Lexical.compareScored (candidates toLowerCase tokens faqs) in
  Permutation ranked (candidates toLowerCase tokens faqs) /\
  StronglySorted ranksBefore ranked.
Proof.
  intros ranked. split; [apply sortBy_perm |].
  apply sorted_strict.
  - eapply Permutation_NoDup.
    + apply Permutation_map, Permutation_sym, sortBy_perm.
    + apply increasing_NoDup, filter_increasing, scoreAll_increasing.
  - apply sortBy_sorted; [apply compareScored_total | apply compareScored_trans].
Qed.

Lemma candidates_nil (tokens : list jsstring) (faqs : list RawFaq) :
  candidates toLowerCase tokens faqs = [] <->
  forall faq, In faq faqs -> Lexical.scoreOf toLowerCase tokens faq <= 0.
Proof.
  unfold candidates. split.
  - intros Hnil faq Hin.
    apply In_nth_error in Hin. destruct Hin as [i Hi].
    destruct (Z.leb_spec (Lexical.scoreOf toLowerCase tokens faq) 0) as [Hle | Hgt];
      [exact Hle | exfalso].
    assert (Hc : In {| Lexical.score := Lexical.scoreOf toLowerCase tokens faq;
                       Lexical.faq := faq; Lexical.index := 0 + Z.of_nat i |}
                    (filter (fun s => Lexical.score s >? 0)
                            (Lexical.scoreAll toLowerCase tokens faqs 0))).
    { apply filter_In. split.
      - apply scoreAll_spec. exists i. repeat split. exact Hi.
      - simpl. apply Z.gtb_lt. exact Hgt. }
    rewrite Hnil in Hc. contradiction.
  - intros Hall.
    destruct (filter _ _) as [| s l] eqn:Hf; [reflexivity | exfalso].
    assert (Hs : In s (filter (fun s => Lexical.score s >? 0)
                              (Lexical.scoreAll toLowerCase tokens faqs 0)))
      by (rewrite Hf; left; reflexivity).
    apply filter_In in Hs. destruct Hs as [Hs Hpos].
    apply scoreAll_spec in Hs. destruct Hs as [i [Hi [_ Hsc]]].
    apply nth_error_In in Hi. specialize (Hall _ Hi).
    apply Z.gtb_lt in Hpos. lia.
Qed.

End SelectFacts.

Lemma slice0_firstn {A} (l : list A) (n : Z) :
  0 <= n -> slice0 l n = firstn (Z.to_nat n) l.
Proof.
  intros Hn. unfold slice0.
  destruct (n <? 0) eqn:Hneg; [apply Z.ltb_lt in Hneg; lia | reflexivity].
Qed.



(* ================================================================== *)
(** * The statements at concrete inputs *)
(* ================================================================== *)

(** C7 at a concrete input: the text "hi", the key set, the provider
    answering two components. *)
Lemma generateEmbedding_contract_witness :
  ~ blank (js "hi") /\
  credentialUsable Sim.someEnv /\
  result Sim.handle (Embeddings.generateEmbedding Sim.someEnv (VStr (js "hi")))
         twoComponentWorld
  = Returned [(1 # 4)%Q; (3 # 4)%Q].
Proof.
  assert (Hb : ~ blank (js "hi")) by (unfold blank; vm_compute; discriminate).
  assert (Hc : credentialUsable Sim.someEnv).
  { split; [reflexivity | unfold blank; vm_compute; discriminate]. }
  split; [exact Hb |]. split; [exact Hc |].
  exact (proj1 (proj1 (generateEmbedding_contract Sim.handle Sim.someEnv twoComponentWorld
                         (VStr (js "hi")))
                      (js "hi") _ _ eq_refl Hb Hc eq_refl)).
Defined.

(** C2 at a concrete input: twelve texts, the last one empty; the
    second batch fails and the call throws. *)
Lemma generateEmbeddingsBatch_all_or_nothing_witness :
  exists e',
    result Sim.handle
           (Embeddings.generateEmbeddingsBatch Sim.someEnv
              (repeat (VStr (js "a")) 11 ++ [VStr []]))
           twoComponentWorld
    = Thrown e'.
Proof.
  exact (proj1 (proj2 (generateEmbeddingsBatch_all_or_nothing Sim.handle Sim.someEnv
                         twoComponentWorld (repeat (VStr (js "a")) 11 ++ [VStr []])))
               11%nat TextMustBeNonEmpty eq_refl).
Defined.

(** C5 at a concrete input: an empty feed, the collection in place. *)
Lemma syncFaqs_empty_source_witness :
  run Sim.handle (Sync.syncFaqs Sim.someEnv) emptyFeedReady
  = ([Called GetCollections] ++
     [Called (HttpGet (js "http://faq.test/faqs") 4000)],
     Returned emptyReport, emptyFeedReady).
Proof.
  exact (proj1 (@syncFaqs_empty_source Sim.World Sim.handle Sim.someEnv
                  emptyFeedReady emptyFeedReady emptyFeedReady
                  [Called GetCollections]
                  [Called (HttpGet (js "http://faq.test/faqs") 4000)]
                  eq_refl eq_refl)).
Defined.

(** C5, counterexample: the source yields no record and the target
    collection does not exist yet; the run returns the empty report, but
    it has listed the collections and created the target collection. *)
Lemma syncFaqs_empty_source_counterexample :
  result Sim.handle (Sync.fetchFaqs Sim.someEnv) emptyFeedFresh = Returned [] /\
  result Sim.handle (Sync.syncFaqs Sim.someEnv) emptyFeedFresh = Returned emptyReport /\
  trace Sim.handle (Sync.syncFaqs Sim.someEnv) emptyFeedFresh
  = [Called GetCollections;
     Called (CreateCollection (js "faq_embeddings") 3072);
     Called (HttpGet (js "http://faq.test/faqs") 4000)] /\
  Sim.collections emptyFeedFresh = [] /\
  Sim.collections (final Sim.handle (Sync.syncFaqs Sim.someEnv) emptyFeedFresh)
  = targetCollection /\
  ~ index_untouched_by (Sync.syncFaqs Sim.someEnv) emptyFeedFresh.
Proof.
  repeat split.
  intros [Hcalls _]. vm_compute in Hcalls. discriminate.
Qed.

(** C10 at a concrete input: a feed of two records, the second
    without text. *)
Lemma syncFaqs_record_without_text_witness :
  In faqTextless [faqReset; faqTextless] /\
  (exists e, result Sim.handle (Sync.syncFaqs Sim.someEnv) textlessFeed = Thrown e) /\
  forallb notUpsert (trace Sim.handle (Sync.syncFaqs Sim.someEnv) textlessFeed) = true.
Proof.
  assert (Hin : In faqTextless [faqReset; faqTextless]) by (right; left; reflexivity).
  split; [exact Hin |].
  exact (proj2 (proj2 (@syncFaqs_record_without_text Sim.World Sim.handle Sim.someEnv
                         textlessFeed textlessFeed textlessFeed
                         [Called GetCollections]
                         [Called (HttpGet (js "http://faq.test/faqs") 4000)]
                         [faqReset; faqTextless] faqTextless
                         eq_refl eq_refl Hin eq_refl eq_refl eq_refl eq_refl eq_refl))).
Defined.

(** C4 at a concrete input: a query of white space only. *)
Lemma getFaqContext_never_throws_witness :
  blank (js "   ") /\
  result Sim.handle (Vector.getFaqContext Sim.someEnv (VStr (js "   "))) oneFaqReady
  = Returned None.
Proof.
  assert (Hb : blank (js "   ")) by reflexivity.
  split; [exact Hb |].
  refine (proj1 (proj2 (proj2 (@getFaqContext_never_throws Sim.World Sim.handle Sim.someEnv
                                 _ _ (VStr (js "   ")) oneFaqReady))) _).
  intros q E. injection E as <-. exact Hb.
Defined.


(** C1 at a concrete input: the identifiers "faq_12", "abc" and "42". *)
Lemma upsertPoints_point_ids_witness :
  List.map Qdrant.pointIdOf [js "faq_12"; js "abc"; js "42"] = [12; 294; 42] /\
  trace Sim.handle
        (Qdrant.upsertPoints Sim.someEnv
           [Qdrant.mkPoint (js "faq_12") (Some [(1 # 2)%Q]) None;
            Qdrant.mkPoint (js "abc") (Some [(1 # 2)%Q]) None;
            Qdrant.mkPoint (js "42") (Some [(1 # 2)%Q]) None])
        oneFaqReady
  = [Called (Upsert (js "faq_embeddings")
               [mkPrepared 12 [(1 # 2)%Q] emptyPayload;
                mkPrepared 294 [(1 # 2)%Q] emptyPayload;
                mkPrepared 42 [(1 # 2)%Q] emptyPayload])].
Proof.
  split; [reflexivity |].
  exact (proj1 (@upsertPoints_point_ids Sim.World Sim.handle Sim.someEnv oneFaqReady
                  [Qdrant.mkPoint (js "faq_12") (Some [(1 # 2)%Q]) None;
                   Qdrant.mkPoint (js "abc") (Some [(1 # 2)%Q]) None;
                   Qdrant.mkPoint (js "42") (Some [(1 # 2)%Q]) None]
                  [mkPrepared 12 [(1 # 2)%Q] emptyPayload;
                   mkPrepared 294 [(1 # 2)%Q] emptyPayload;
                   mkPrepared 42 [(1 # 2)%Q] emptyPayload]
                  ltac:(discriminate) eq_refl)).
Defined.

(* ================================================================== *)
(** * Examples *)
(* ================================================================== *)

(** The FAQ whose text holds both tokens comes first, then the two with
    one token each, in source order. *)
Example select_ranked :
  Lexical.selectRelevantFaqs Sim.noEnv Sim.asciiLower [faqReset; faqEmail; faqBoth]
                             (VStr (js "PASSWORD email"))
  = [faqBoth; faqReset; faqEmail].
Proof. reflexivity. Qed.

(** With "password" alone, "reset password" comes before "Password and
    email", and "change email" is discarded. *)
Example select_password :
  Lexical.selectRelevantFaqs Sim.noEnv Sim.asciiLower [faqReset; faqEmail; faqBoth]
                             (VStr (js "password"))
  = [faqReset; faqBoth].
Proof. reflexivity. Qed.

(** No token matches: the first FAQs in source order. *)
Example select_fallback :
  Lexical.selectRelevantFaqs Sim.noEnv Sim.asciiLower [faqReset; faqEmail; faqBoth]
                             (VStr (js "refund"))
  = [faqReset; faqEmail; faqBoth].
Proof. reflexivity. Qed.

(** An empty FAQ list gives an empty selection. *)
Example select_nothing :
  Lexical.selectRelevantFaqs Sim.noEnv Sim.asciiLower [] (VStr (js "password")) = [].
Proof. reflexivity. Qed.

(** With a negative limit, [slice] counts from the end: a single FAQ
    gives an empty selection. *)
Example select_negative_limit :
  Lexical.selectRelevantFaqs
    (mkEnv None None None None None None None (Some (-1)) None)
    Sim.asciiLower [faqReset] VUndefined
  = [].
Proof. reflexivity. Qed.

Example parseInt_examples :
  List.map parseInt [js "42"; js "  -12abc"; js "+7"; js "abc"; js ""; js "0"]
  = [Some 42; Some (-12); Some 7; None; None; Some 0].
Proof. reflexivity. Qed.

(** The identifier "0" parses as the integer 0, which [||] takes for
    false: the id is the character code of "0". *)
Example pointIdOf_zero :
  parseInt (js "0") = Some 0 /\ Qdrant.pointIdOf (js "0") = 48.
Proof. split; reflexivity. Qed.

Example splitWs_examples :
  splitWs (js " a  b ") = [[]; js "a"; js "b"; []] /\
  Lexical.tokenize Sim.asciiLower (js " Reset  PASSWORD ") = [js "reset"; js "password"].
Proof. split; reflexivity. Qed.

(** Two fetches in a row: the first asks the feed and fills the cache,
    the second, 10 seconds into the 60 seconds of the entry, asks
    nothing. *)
Example fetch_twice :
  run Sim.handle (Lexical.fetchFaqs Sim.someEnv Lexical.initialCache) oneFaqReady
  = ([Called DateNow; Called (HttpGet (js "http://faq.test/faqs") 4000)],
     Returned ([faqReset], freshCache), oneFaqReady) /\
  trace Sim.handle (Lexical.fetchFaqs Sim.someEnv freshCache) feedDown
  = [Called DateNow] /\
  result Sim.handle (Lexical.fetchFaqs Sim.someEnv freshCache) feedDown
  = Returned ([faqReset], freshCache).
Proof. repeat split. Qed.

(** A full sync of one record writes one point. *)
Example sync_one :
  result Sim.handle (Sync.syncFaqs Sim.someEnv) oneFaqFresh
  = Returned {| Sync.synced := 1; Sync.updated := 0; Sync.errors := 0 |} /\
  Sim.collections (final Sim.handle (Sync.syncFaqs Sim.someEnv) oneFaqFresh)
  = [(js "faq_embeddings",
      [mkPrepared 1 [(1 # 2)%Q; (1 # 2)%Q]
         (mkPayload (Some (js "reset password")) (Some []) (Some (js "open the settings"))
                    (Some []) (Some []) (Some (js "reset password open the settings")))])].
Proof. split; reflexivity. Qed.

(** A retrieval that finds one point, and one with Qdrant out of reach. *)
Example vector_context :
  run Sim.handle (Vector.getFaqContext Sim.someEnv (VStr (js " password? "))) oneHit
  = ([Called (EmbedContent (js "key") (js "gemini-embedding-001") (js "password?"));
      Called (Search (js "faq_embeddings") [(1 # 2)%Q; (1 # 2)%Q] 5 (1 # 2)%Q)],
     Returned (Some (js "FAQ 1:
Question: reset password
Answer: open the settings")),
     oneHit) /\
  result Sim.handle (Vector.getFaqContext Sim.someEnv (VStr (js "password?"))) qdrantDown
  = Returned None /\
  result Sim.handle (Vector.getFaqContext Sim.noEnv (VStr (js "password?"))) oneHit
  = Returned None.
Proof. repeat split. Qed.

(** The lexical retrieval end to end, from an empty cache. *)
Example lexical_context :
  result Sim.handle
         (Lexical.getFaqContext Sim.someEnv Sim.asciiLower (VStr (js "Password"))
                                Lexical.initialCache)
         oneFaqReady
  = Returned (Some (js "FAQ 1:
Question: reset password
Answer: open the settings"), freshCache).
Proof. reflexivity. Qed.

(* ================================================================== *)
(** * Further properties: the calls of generateEmbeddingsBatch *)
(* ================================================================== *)

Section BatchCalls.

Context {W : Type} (h : Handler W) (env : ProcessEnv).

Let gen := Embeddings.generateEmbedding env.

Lemma trace_settleAll {A} (ps : list (Prog A)) (w : W) :
  fst (fst (run h (settleAll ps) w)) = callsOf h ps w.
Proof.
  revert w; induction ps as [| p ps IH]; intros w; simpl; [reflexivity |].
  rewrite run_bind, run_settle, run_bind.
  specialize (IH (snd (run h p w))).
  destruct (run h (settleAll ps) (snd (run h p w))) as [[tr2 [rs | e]] w2];
    simpl in IH |- *; rewrite IH; [rewrite app_nil_r |]; reflexivity.
Qed.

Lemma trace_promiseAll {A} (ps : list (Prog A)) (w : W) :
  fst (fst (run h (promiseAll ps) w)) = callsOf h ps w.
Proof.
  unfold promiseAll. rewrite run_bind.
  pose proof (trace_settleAll ps w) as Ht.
  destruct (run_settleAll h ps w) as [Hr _].
  destruct (run h (settleAll ps) w) as [[tr r] w1]. simpl in *. subst r tr.
  rewrite run_ofOutcome. simpl. apply app_nil_r.
Qed.

Lemma callsOf_app {A} (ps qs : list (Prog A)) (w : W) :
  callsOf h (ps ++ qs) w = callsOf h ps w ++ callsOf h qs (snd (outcomes h ps w)).
Proof.
  revert w; induction ps as [| p ps IH]; intros w; simpl; [reflexivity |].
  rewrite IH, app_assoc. reflexivity.
Qed.

(** A call to [generateEmbedding] makes at most one call, and when it
    returns it has made exactly the call to the provider for its text. *)
Lemma generateEmbedding_trace (text : JS.value) (w : W) :
  (length (fst (fst (run h (gen text) w))) <= 1)%nat /\
  (forall v, snd (fst (run h (gen text) w)) = Returned v ->
             fst (fst (run h (gen text) w)) = [embedCall env (textOf text)]).
Proof.
  unfold gen. rewrite run_generateEmbedding.
  destruct (negb _); [split; [simpl; lia | intros v E; discriminate] |].
  destruct text; try (split; [simpl; lia | intros v E; discriminate]).
  destruct (_ || _); [split; [simpl; lia | intros v E; discriminate] |].
  destruct (str_eqb _ _); [split; [simpl; lia | intros v E; discriminate] |].
  cbv zeta. cbn [fst snd]. split; [simpl; lia |]. intros v _. reflexivity.
Qed.

Lemma callsOf_gen_length (texts : list JS.value) (w : W) :
  (length (callsOf h (List.map gen texts) w) <= length texts)%nat.
Proof.
  revert w; induction texts as [| t texts IH]; intros w; simpl; [lia |].
  rewrite length_app.
  pose proof (proj1 (generateEmbedding_trace t w)).
  specialize (IH (snd (run h (gen t) w))). lia.
Qed.

Lemma callsOf_gen_success (texts : list JS.value) (w : W) (l : list (list float)) :
  collect (fst (outcomes h (List.map gen texts) w)) = Returned l ->
  callsOf h (List.map gen texts) w = List.map (fun text => embedCall env (textOf text)) texts.
Proof.
  revert w l; induction texts as [| t texts IH]; intros w l Hc; [reflexivity |].
  simpl in Hc |- *.
  destruct (snd (fst (run h (gen t) w))) as [v |] eqn:Hv; [| discriminate].
  destruct (collect (fst (outcomes h (List.map gen texts) (snd (run h (gen t) w)))))
    as [l' |] eqn:Hl; [| discriminate].
  rewrite (proj2 (generateEmbedding_trace t w) v Hv).
  rewrite (IH _ _ Hl). reflexivity.
Qed.

(** The calls of the loop from index [i]: on success, those of one
    [Promise.all] over the remaining texts; in any case no more than one
    per remaining text, and when the embedding of the [j]-th remaining
    text fails, no more than the batches up to its own hold. *)
Lemma batchLoop_trace (fuel : nat) (texts : list JS.value) (i : nat)
      (embeddings : list (list float)) (w : W) :
  (length texts - i + 10 <= 10 * fuel)%nat ->
  let rs := fst (outcomes h (List.map gen (skipn i texts)) w) in
  let tr := fst (fst (run h (Embeddings.batchLoop env fuel texts i embeddings) w)) in
  (forall l, collect rs = Returned l -> tr = callsOf h (List.map gen (skipn i texts)) w) /\
  (length tr <= length texts - i)%nat /\
  (forall j e, nth_error rs j = Some (Thrown e) -> (length tr <= 10 * (j / 10) + 10)%nat).
Proof.
  revert i embeddings w.
  induction fuel as [| fuel IH]; intros i embeddings w Hfuel; [lia |].
  cbv zeta. simpl Embeddings.batchLoop.
  destruct (i <? length texts)%nat eqn:Hi.
  - apply Nat.ltb_lt in Hi.
    set (batch := slice texts i (i + Embeddings.batchSize)).
    rewrite run_bind.
    pose proof (trace_promiseAll (List.map (Embeddings.generateEmbedding env) batch) w) as Htr.
    destruct (run_promiseAll h (List.map (Embeddings.generateEmbedding env) batch) w)
      as [Hr Hw].
    fold gen in Htr, Hr, Hw |- *.
    assert (Hblen : (length batch <= 10)%nat).
    { unfold batch. rewrite slice_window, length_firstn. unfold Embeddings.batchSize. lia. }
    assert (Hblen' : (length batch <= length texts - i)%nat).
    { unfold batch. rewrite slice_window, length_firstn, length_skipn. lia. }
    pose proof (callsOf_gen_length batch w) as Hcl.
    rewrite (skipn_window texts i Embeddings.batchSize). fold batch.
    rewrite map_app, outcomes_app, callsOf_app. cbn [fst].
    destruct (run h (promiseAll (List.map gen batch)) w) as [[tr1 r1] w1].
    cbn [fst snd] in Htr, Hr, Hw. subst tr1 w1.
    specialize (IH (i + Embeddings.batchSize)%nat).
    destruct r1 as [batchResults | e1].
    + specialize (IH (embeddings ++ batchResults)
                     (snd (outcomes h (List.map gen batch) w))).
      cbv zeta in IH.
      destruct (run h (Embeddings.batchLoop env fuel texts (i + Embeddings.batchSize)
                                            (embeddings ++ batchResults))
                    (snd (outcomes h (List.map gen batch) w))) as [[tr2 r2] w2].
      cbn [fst snd] in IH |- *.
      destruct IH as [IHs [IHlen IHstop]]; [unfold Embeddings.batchSize; lia |].
      unfold Embeddings.batchSize in *.
      split; [| split].
      * intros l Hc. rewrite collect_app, <- Hr in Hc.
        destruct (collect (fst (outcomes h (List.map gen (skipn (i + 10) texts))
                                         (snd (outcomes h (List.map gen batch) w)))))
          as [l2 |] eqn:Hl2; [| discriminate].
        rewrite (IHs l2 eq_refl). reflexivity.
      * rewrite length_app.
        assert (length batch = 10 \/ length texts - i <= 10)%nat as [Hten | Hlast].
        { unfold batch. rewrite slice_window, length_firstn, length_skipn. lia. }
        -- lia.
        -- lia.
      * intros j e Hj. rewrite length_app.
        symmetry in Hr. apply collect_Returned in Hr.
        assert (Hrl : length (fst (outcomes h (List.map gen batch) w)) = length batch)
          by (rewrite outcomes_length, length_map; reflexivity).
        destruct (Nat.lt_ge_cases j (length batch)) as [Hlt | Hge].
        -- exfalso. rewrite nth_error_app1 in Hj by lia.
           rewrite Hr, nth_error_map in Hj.
           destruct (nth_error batchResults j); discriminate.
        -- rewrite nth_error_app2 in Hj by lia. rewrite Hrl in Hj.
           specialize (IHstop _ _ Hj).
           assert (Hten : length batch = 10%nat).
           { assert (length batch = 10 \/ length texts - i <= 10)%nat as [Hten | Hlast].
             { unfold batch. rewrite slice_window, length_firstn, length_skipn. lia. }
             - exact Hten.
             - exfalso.
               assert (Hin : nth_error
                               (fst (outcomes h (List.map gen (skipn (i + 10) texts))
                                              (snd (outcomes h (List.map gen batch) w))))
                               (j - length batch) <> None)
                 by (rewrite Hj; discriminate).
               apply nth_error_Some in Hin.
               rewrite outcomes_length, length_map, length_skipn in Hin. lia. }
           rewrite Hten in *.
           assert (Hdiv : (j / 10 = (j - 10) / 10 + 1)%nat).
           { replace j with ((j - 10) + 1 * 10)%nat at 1 by lia.
             rewrite Nat.div_add by lia. reflexivity. }
           lia.
    + cbn [fst snd].
      split; [| split].
      * intros l Hc. rewrite collect_app, <- Hr in Hc. discriminate.
      * lia.
      * intros j e Hj. lia.
  - apply Nat.ltb_ge in Hi.
    rewrite skipn_all2 by exact Hi. simpl.
    split; [| split].
    + intros l _. reflexivity.
    + lia.
    + intros j e Hj. destruct j; discriminate.
Qed.

End BatchCalls.

Section ProviderOnly.

Variable P : Call -> bool.
Hypothesis P_embed : forall k m t, P (Called (EmbedContent k m t)) = true.
Variable env : ProcessEnv.

Lemma generateEmbedding_callsOnly (text : JS.value) :
  callsOnly P (Embeddings.generateEmbedding env text).
Proof.
  unfold Embeddings.generateEmbedding.
  destruct (negb (truthy (Embeddings.GOOGLE_API_KEY env))); [exact I |].
  destruct text; try exact I.
  destruct ((length s =? 0)%nat || (length (trim s) =? 0)%nat); [exact I |].
  apply callsOnly_tryCatch; [| intros e; exact I].
  destruct (_ || _); [exact I |].
  apply callsOnly_bind.
  - apply callsOnly_await. apply P_embed.
  - intros [| | [| v vs]]; exact I.
Qed.

Lemma generateEmbeddingsBatch_callsOnly (texts : list JS.value) :
  callsOnly P (Embeddings.generateEmbeddingsBatch env texts).
Proof.
  unfold Embeddings.generateEmbeddingsBatch.
  destruct (length texts =? 0)%nat; [exact I |].
  generalize (S (length texts)) as fuel, 0%nat as i, (@nil (list float)) as acc.
  induction fuel as [| fuel IH]; intros i acc; simpl; [exact I |].
  destruct (i <? length texts)%nat; [| exact I].
  apply callsOnly_bind.
  - apply callsOnly_promiseAll. intros p Hp.
    apply in_map_iff in Hp. destruct Hp as [text [<- _]].
    apply generateEmbedding_callsOnly.
  - intros batchResults. apply IH.
Qed.

End ProviderOnly.

(** X1: when [generateEmbeddingsBatch] returns, it has called the
    provider exactly once per text, in the order of the texts, each call
    carrying the configured key, the model name and the text itself. *)
Theorem generateEmbeddingsBatch_one_call_per_text :
  forall (W : Type) (h : Handler W) (env : ProcessEnv) (w : W)
         (texts : list JS.value) (embeddings : list (list float)),
    result h (Embeddings.generateEmbeddingsBatch env texts) w = Returned embeddings ->
    trace h (Embeddings.generateEmbeddingsBatch env texts) w
    = List.map (fun text => embedCall env (textOf text)) texts.
Proof.
  intros W h env w texts embeddings Hres.
  rewrite generateEmbeddingsBatch_unbatched in Hres.
  unfold trace, Embeddings.generateEmbeddingsBatch.
  destruct texts as [| t texts]; [reflexivity |].
  cbn [length Nat.eqb].
  pose proof (batchLoop_trace h env (S (length (t :: texts))) (t :: texts) 0 [] w) as Hb.
  cbv zeta in Hb. cbn [length skipn] in Hb.
  destruct Hb as [Hs _]; [lia |].
  rewrite (Hs _ Hres).
  apply (callsOf_gen_success h env (t :: texts) w Hres).
Qed.

(** X2: [generateEmbeddingsBatch] calls nothing but the provider, at
    most once per text, and it stops at the batch that fails: when the
    embedding of the text at position [j] fails, no call is made for the
    batches after the one that holds position [j].  [rs] are the
    outcomes of [generateEmbedding] on the texts, in input order. *)
Theorem generateEmbeddingsBatch_stops_at_failing_batch :
  forall (W : Type) (h : Handler W) (env : ProcessEnv) (w : W) (texts : list JS.value),
    let rs := fst (outcomes h (List.map (Embeddings.generateEmbedding env) texts) w) in
    let tr := trace h (Embeddings.generateEmbeddingsBatch env texts) w in
    forallb isEmbedContent tr = true /\
    (length tr <= length texts)%nat /\
    (forall j e,
        nth_error rs j = Some (Thrown e) ->
        (length tr <= 10 * (j / 10) + 10)%nat).
Proof.
  intros W h env w texts rs tr.
  split.
  { apply callsOnly_run. apply generateEmbeddingsBatch_callsOnly. reflexivity. }
  subst rs tr. unfold trace, Embeddings.generateEmbeddingsBatch.
  destruct texts as [| t texts].
  { simpl. split; [lia |]. intros j e Hj. destruct j; discriminate. }
  cbn [length Nat.eqb].
  pose proof (batchLoop_trace h env (S (length (t :: texts))) (t :: texts) 0 [] w) as Hb.
  cbv zeta in Hb. cbn [length skipn] in Hb.
  destruct Hb as [_ [Hlen Hstop]]; [lia |].
  rewrite Nat.sub_0_r in Hlen.
  split; [exact Hlen | exact Hstop].
Qed.

(* ================================================================== *)
(** * Further properties: upsertPoints *)
(* ================================================================== *)

Lemma mapIndexed_preparePoint_invalid (points : list Qdrant.Point) (k i : nat)
      (p : Qdrant.Point) :
  nth_error points i = Some p ->
  validPoint p = false ->
  (forall j q, (j < i)%nat -> nth_error points j = Some q -> validPoint q = true) ->
  mapIndexed Qdrant.preparePoint points k
  = Thrown (if truthy (Some (Qdrant.id p))
            then PointInvalidVector (k + i) (Qdrant.id p)
            else PointMissingId (k + i)).
Proof.
  revert k i; induction points as [| a points IH]; intros k i Hi Hbad Hbefore.
  - destruct i; discriminate.
  - destruct i as [| i]; simpl in Hi.
    + injection Hi as ->. cbn [mapIndexed]. rewrite Nat.add_0_r.
      unfold Qdrant.preparePoint. unfold validPoint in Hbad.
      destruct (truthy (Some (Qdrant.id p))); cbn [negb andb] in Hbad |- *;
        [| reflexivity].
      destruct (Qdrant.vector p); [discriminate | reflexivity].
    + cbn [mapIndexed].
      assert (Ha : validPoint a = true) by (apply (Hbefore 0%nat a); [lia | reflexivity]).
      unfold Qdrant.preparePoint at 1. unfold validPoint in Ha.
      apply andb_true_iff in Ha. destruct Ha as [Hid Hv]. rewrite Hid. cbn [negb].
      destruct (Qdrant.vector a); [| discriminate].
      rewrite (IH (S k) i Hi Hbad).
      * replace (S k + i)%nat with (k + S i)%nat by lia. reflexivity.
      * intros j q Hj Hq. apply (Hbefore (S j) q); [lia | exact Hq].
Qed.

Lemma mapIndexed_preparePoint_valid (points : list Qdrant.Point) (k : nat) :
  forallb validPoint points = true ->
  mapIndexed Qdrant.preparePoint points k
  = Returned (List.map (fun p => {| pp_id := Qdrant.pointIdOf (Qdrant.id p);
                                    pp_vector := match Qdrant.vector p with
                                                 | Some v => v
                                                 | None => []
                                                 end;
                                    pp_payload := match Qdrant.payload p with
                                                  | Some pl => pl
                                                  | None => emptyPayload
                                                  end |})
                       points).
Proof.
  revert k; induction points as [| a points IH]; intros k Hall; [reflexivity |].
  cbn [forallb] in Hall. cbn [mapIndexed List.map].
  apply andb_true_iff in Hall. destruct Hall as [Ha Hall].
  unfold Qdrant.preparePoint at 1. unfold validPoint in Ha.
  apply andb_true_iff in Ha. destruct Ha as [Hid Hv]. rewrite Hid. cbn [negb].
  destruct (Qdrant.vector a); [| discriminate].
  rewrite (IH (S k) Hall). reflexivity.
Qed.

(** X3: [upsertPoints] checks every point before it writes anything.
    With no point it returns without any call.  When some point has an
    empty id or no vector array, it throws for the first such point, by
    its index (and id), and Qdrant receives no call at all, not even
    for the valid points before it. *)
Theorem upsertPoints_rejects_before_writing :
  forall (W : Type) (h : Handler W) (env : ProcessEnv) (w : W)
         (points : list Qdrant.Point),
    (points = [] -> run h (Qdrant.upsertPoints env points) w = ([], Returned tt, w)) /\
    (forall i p,
        nth_error points i = Some p ->
        validPoint p = false ->
        (forall j q, (j < i)%nat -> nth_error points j = Some q -> validPoint q = true) ->
        run h (Qdrant.upsertPoints env points) w
        = ([],
           Thrown (if truthy (Some (Qdrant.id p))
                   then PointInvalidVector i (Qdrant.id p)
                   else PointMissingId i),
           w)).
Proof.
  intros W h env w points. split.
  - intros ->. reflexivity.
  - intros i p Hi Hbad Hbefore.
    unfold Qdrant.upsertPoints. rewrite run_rethrow.
    destruct points as [| a points]; [destruct i; discriminate |].
    cbn [length Nat.eqb]. rewrite run_bind, run_ofOutcome.
    rewrite (@mapIndexed_preparePoint_invalid (a :: points) 0 i p Hi Hbad Hbefore).
    reflexivity.
Qed.

(** X4: given points that all have an id and a vector, [upsertPoints]
    makes exactly one upsert call to the configured collection, with one
    prepared point per point in the same order, each keeping its vector
    and its payload (the empty payload when it had none); it returns
    when that call returns and throws the call's error when it throws. *)
Theorem upsertPoints_sends_points_unchanged :
  forall (W : Type) (h : Handler W) (env : ProcessEnv) (w : W)
         (points : list Qdrant.Point),
    points <> [] ->
    forallb validPoint points = true ->
    let prepared :=
      List.map (fun p => {| pp_id := Qdrant.pointIdOf (Qdrant.id p);
                            pp_vector := match Qdrant.vector p with
                                         | Some v => v
                                         | None => []
                                         end;
                            pp_payload := match Qdrant.payload p with
                                          | Some pl => pl
                                          | None => emptyPayload
                                          end |})
               points in
    let call := Upsert (Qdrant.QDRANT_COLLECTION_NAME env) prepared in
    run h (Qdrant.upsertPoints env points) w
    = ([Called call], fst (h _ call w), snd (h _ call w)) /\
    length prepared = length points /\
    List.map (fun q => Some (pp_vector q)) prepared = List.map Qdrant.vector points.
Proof.
  intros W h env w points Hne Hall prepared call.
  split; [| split].
  - unfold Qdrant.upsertPoints. rewrite run_rethrow.
    destruct points as [| a points]; [contradiction |].
    cbn [length Nat.eqb]. rewrite run_bind, run_ofOutcome.
    rewrite (mapIndexed_preparePoint_valid (a :: points) 0 Hall).
    fold prepared. rewrite run_await. fold call.
    destruct (h _ call w) as [[[] | e] w1]; reflexivity.
  - subst prepared. apply length_map.
  - subst prepared. rewrite map_map. apply map_ext_in.
    intros p Hp. cbn [pp_vector].
    rewrite forallb_forall in Hall. specialize (Hall p Hp).
    unfold validPoint in Hall. apply andb_true_iff in Hall.
    destruct (Qdrant.vector p); [reflexivity | destruct Hall; discriminate].
Qed.

(* ================================================================== *)
(** * Further properties: trimming *)
(* ================================================================== *)

Section DropWhile.

Context {A : Type} (f : A -> bool).

Lemma dropWhile_length (l : list A) : (length (dropWhile f l) <= length l)%nat.
Proof.
  induction l as [| x l IH]; simpl; [lia |].
  destruct (f x); simpl; lia.
Qed.

Lemma dropWhile_idem (l : list A) : dropWhile f (dropWhile f l) = dropWhile f l.
Proof.
  induction l as [| x l IH]; simpl; [reflexivity |].
  destruct (f x) eqn:Hx; [exact IH |]. simpl. rewrite Hx. reflexivity.
Qed.

Lemma dropWhile_fixed_head (x : A) (l : list A) :
  dropWhile f (x :: l) = x :: l -> f x = false.
Proof.
  simpl. destruct (f x); [| reflexivity].
  intros E. pose proof (dropWhile_length l) as Hl. rewrite E in Hl. simpl in Hl. lia.
Qed.

Lemma dropWhile_suffix (l : list A) : exists pre, l = pre ++ dropWhile f l.
Proof.
  induction l as [| x l [pre IH]]; simpl.
  - exists []. reflexivity.
  - destruct (f x).
    + exists (x :: pre). simpl. f_equal. exact IH.
    + exists []. reflexivity.
Qed.

Lemma dropWhile_nil_iff (l : list A) : dropWhile f l = [] <-> forallb f l = true.
Proof.
  induction l as [| x l IH]; simpl; [split; reflexivity |].
  destruct (f x); simpl; [exact IH |]. split; discriminate.
Qed.

Lemma dropWhile_app_all (a b : list A) :
  forallb f a = true -> dropWhile f (a ++ b) = dropWhile f b.
Proof.
  induction a as [| x a IH]; simpl; [reflexivity |].
  intros H. apply andb_true_iff in H. destruct H as [Hx Ha].
  rewrite Hx. apply IH, Ha.
Qed.

Lemma dropWhile_app_some (a b : list A) :
  forallb f a = false -> dropWhile f (a ++ b) = dropWhile f a ++ b.
Proof.
  induction a as [| x a IH]; simpl; [discriminate |].
  destruct (f x); simpl; [exact IH | reflexivity].
Qed.

End DropWhile.

Lemma trim_trimmed (s : jsstring) : trimmed (trim s).
Proof.
  unfold trimmed, trim.
  set (d := dropWhile isWhiteSpace s).
  set (e := dropWhile isWhiteSpace (rev d)).
  rewrite rev_involutive.
  split; [| apply dropWhile_idem].
  destruct (rev e) as [| y t] eqn:Hre; [reflexivity |].
  assert (Hy : isWhiteSpace y = false).
  { destruct (dropWhile_suffix isWhiteSpace (rev d)) as [pre Hpre]. fold e in Hpre.
    assert (Hd : d = (y :: t) ++ rev pre).
    { rewrite <- Hre, <- rev_app_distr, <- Hpre, rev_involutive. reflexivity. }
    apply (@dropWhile_fixed_head _ isWhiteSpace y (t ++ rev pre)).
    change (y :: t ++ rev pre) with ((y :: t) ++ rev pre). rewrite <- Hd.
    apply dropWhile_idem. }
  simpl. rewrite Hy. reflexivity.
Qed.

Lemma trimmed_trim (s : jsstring) : trimmed s -> trim s = s.
Proof.
  intros [Hl Hr]. unfold trim. rewrite Hl, Hr. apply rev_involutive.
Qed.

Lemma trim_idempotent (s : jsstring) : trim (trim s) = trim s.
Proof. apply trimmed_trim, trim_trimmed. Qed.

Lemma trim_nil_iff (s : jsstring) : trim s = [] <-> forallb isWhiteSpace s = true.
Proof.
  unfold trim. split.
  - intros H.
    assert (Hr : dropWhile isWhiteSpace (rev (dropWhile isWhiteSpace s)) = []).
    { rewrite <- (rev_involutive (dropWhile _ (rev _))), H. reflexivity. }
    apply dropWhile_nil_iff in Hr.
    destruct (dropWhile isWhiteSpace s) as [| x d] eqn:Hd.
    + apply dropWhile_nil_iff. exact Hd.
    + exfalso.
      assert (Hx : isWhiteSpace x = false).
      { apply (@dropWhile_fixed_head _ isWhiteSpace x d). rewrite <- Hd. apply dropWhile_idem. }
      rewrite forallb_forall in Hr.
      specialize (Hr x). rewrite Hx in Hr.
      assert (In x (rev (x :: d))) by (apply in_rev; rewrite rev_involutive; left; reflexivity).
      specialize (Hr H0). discriminate.
  - intros H. apply dropWhile_nil_iff in H. rewrite H. reflexivity.
Qed.

Lemma forallb_rev {A} (f : A -> bool) (l : list A) : forallb f (rev l) = forallb f l.
Proof.
  induction l as [| x l IH]; simpl; [reflexivity |].
  rewrite forallb_app, IH. simpl. rewrite andb_true_r. apply andb_comm.
Qed.

(* ================================================================== *)
(** * Further properties: the vector retrieval end to end *)
(* ================================================================== *)

Section VectorRun.

Context {W : Type} (h : Handler W) (env : ProcessEnv).

(** The retrieval over the real [generateEmbedding] and [searchVectors]. *)
Lemma run_vector_getFaqContext (query : JS.value) (w : W) :
  run h (Vector.getFaqContext env query) w =
  match query with
  | VStr q =>
      if (length q =? 0)%nat || (length (trim q) =? 0)%nat then ([], Returned None, w)
      else
        match run h (Embeddings.generateEmbedding env (VStr (trim q))) w with
        | (tr1, Returned (v :: vs), w1) =>
            let call := Search (Qdrant.QDRANT_COLLECTION_NAME env) (v :: vs)
                               Vector.DEFAULT_LIMIT Vector.SCORE_THRESHOLD in
            (tr1 ++ [Called call],
             match fst (@h _ call w1) with
             | Returned (hit :: hits) =>
                 Returned (Some (Vector.formatFaqContext
                                   (List.map Qdrant.toSearchResult (hit :: hits))))
             | _ => Returned None
             end,
             snd (@h _ call w1))
        | (tr1, _, w1) => (tr1, Returned None, w1)
        end
  | _ => ([], Returned None, w)
  end.
Proof.
  unfold Vector.getFaqContext, Vector.getFaqContextWith.
  destruct query; try reflexivity.
  destruct ((length s =? 0)%nat || (length (trim s) =? 0)%nat); [reflexivity |].
  rewrite run_tryCatch, run_bind, run_bind.
  destruct (run h (Embeddings.generateEmbedding env (VStr (trim s))) w)
    as [[tr1 [[| v vs] | e]] w1]; cbn [run]; try (rewrite ?app_nil_r; reflexivity).
  rewrite run_bind. unfold Qdrant.searchVectors. rewrite run_bind, run_rethrow, run_bind, run_await.
  cbv zeta.
  destruct (@h _ (Search (Qdrant.QDRANT_COLLECTION_NAME env) (v :: vs)
                         Vector.DEFAULT_LIMIT Vector.SCORE_THRESHOLD) w1)
    as [[[| hit hits] | e] w2]; cbn [fst snd run List.map]; rewrite ?app_nil_r; reflexivity.
Qed.

End VectorRun.

(** X5: for a query that is not blank, with a usable credential, when
    the provider answers the trimmed query with a non-empty vector and
    Qdrant answers the search with at least one point, [getFaqContext]
    has made exactly these two calls (the search on the configured
    collection with that vector, limit 5 and score threshold 0.5) and
    returns the points formatted in the order Qdrant returned them, in
    at most 2000 characters. *)
Theorem getFaqContext_embeds_then_searches :
  forall (W : Type) (h : Handler W) (env : ProcessEnv) (w : W)
         (q : jsstring) (v : float) (vs : list float)
         (hit : ScoredPoint) (hits : list ScoredPoint),
    ~ blank q ->
    credentialUsable env ->
    let embed := EmbedContent (orDefault (Embeddings.GOOGLE_API_KEY env) [])
                              Embeddings.EMBEDDING_MODEL (trim q) in
    let search := Search (Qdrant.QDRANT_COLLECTION_NAME env) (v :: vs) 5 (1 # 2)%Q in
    fst (h _ embed w) = Returned (ValuesArray (v :: vs)) ->
    fst (h _ search (snd (h _ embed w))) = Returned (hit :: hits) ->
    run h (Vector.getFaqContext env (VStr q)) w
    = ([Called embed; Called search],
       Returned (Some (Vector.formatFaqContext
                         (List.map Qdrant.toSearchResult (hit :: hits)))),
       snd (h _ search (snd (h _ embed w)))) /\
    Z.of_nat (length (Vector.formatFaqContext
                        (List.map Qdrant.toSearchResult (hit :: hits)))) <= 2000.
Proof.
  intros W h env w q v vs hit hits Hnb [Hkey Hkeynb] embed search Hembed Hsearch.
  split; [| rewrite vector_format_slice; apply slice0_length;
            unfold Vector.CONTEXT_CHAR_LIMIT; lia].
  rewrite run_vector_getFaqContext.
  assert (Hq : (length q =? 0)%nat || (length (trim q) =? 0)%nat = false).
  { apply orb_false_iff. split; apply Nat.eqb_neq; intros E;
      apply length_zero_iff_nil in E; apply Hnb; unfold blank;
      [subst q; reflexivity | exact E]. }
  rewrite Hq. rewrite run_generateEmbedding. rewrite Hkey. cbn [negb].
  assert (Hq2 : (length (trim q) =? 0)%nat || (length (trim (trim q)) =? 0)%nat = false).
  { rewrite trim_idempotent. apply orb_false_iff in Hq. destruct Hq as [_ Hq].
    rewrite Hq. reflexivity. }
  rewrite Hq2.
  assert (Hk : str_eqb (trim (orDefault (Embeddings.GOOGLE_API_KEY env) [])) [] = false).
  { destruct (str_eqb _ []) eqn:E; [| reflexivity].
    apply str_eqb_eq in E. contradiction. }
  rewrite Hk. cbv zeta. fold embed. rewrite Hembed.
  unfold Vector.DEFAULT_LIMIT, Vector.SCORE_THRESHOLD. fold search.
  rewrite Hsearch. reflexivity.
Qed.

(** X6: [getFaqContext] only reads.  Its calls are none at all, or the
    one call to the provider for the trimmed query, or that call
    followed by one search with limit 5 and threshold 0.5: never a
    write to Qdrant, never a request to the FAQ feed.  It makes no call
    at all when the query is not a string or is blank, and when the
    provider credential is absent, empty or blank. *)
Theorem getFaqContext_only_reads :
  forall (W : Type) (h : Handler W) (env : ProcessEnv) (w : W) (query : JS.value),
    let tr := trace h (Vector.getFaqContext env query) w in
    (tr = [] \/
     exists q, query = VStr q /\
               (tr = [embedCall env (trim q)] \/
                exists v, tr = [embedCall env (trim q); searchCall env v])) /\
    forallb isRetrievalCall tr = true /\
    ((forall q, query = VStr q -> blank q) -> tr = []) /\
    (~ credentialUsable env -> tr = []).
Proof.
  intros W h env w query tr.
  assert (Hshape : (tr = [] \/
                    exists q, query = VStr q /\
                              (tr = [embedCall env (trim q)] \/
                               exists v, tr = [embedCall env (trim q); searchCall env v])) /\
                   ((forall q, query = VStr q -> blank q) -> tr = []) /\
                   (~ credentialUsable env -> tr = [])).
  { subst tr. unfold trace. rewrite run_vector_getFaqContext.
    destruct query as [| | | | q |]; try (repeat split; try (left; reflexivity); reflexivity).
    destruct ((length q =? 0)%nat || (length (trim q) =? 0)%nat) eqn:Hq;
      [repeat split; try (left; reflexivity); reflexivity |].
    assert (Hnb : ~ blank q).
    { unfold blank. intros E. rewrite E in Hq. simpl in Hq. rewrite orb_true_r in Hq.
      discriminate. }
    rewrite run_generateEmbedding.
    destruct (truthy (Embeddings.GOOGLE_API_KEY env)) eqn:Hkey; cbn [negb];
      [| repeat split; try (left; reflexivity); reflexivity].
    destruct ((length (trim q) =? 0)%nat || (length (trim (trim q)) =? 0)%nat);
      [repeat split; try (left; reflexivity); reflexivity |].
    destruct (str_eqb (trim (orDefault (Embeddings.GOOGLE_API_KEY env) [])) []) eqn:Hk;
      [repeat split; try (left; reflexivity); reflexivity |].
    assert (Husable : credentialUsable env).
    { split; [exact Hkey |]. unfold blank. intros E. rewrite E in Hk. discriminate. }
    cbv zeta.
    destruct (fst (h _ (EmbedContent (orDefault (Embeddings.GOOGLE_API_KEY env) [])
                                     Embeddings.EMBEDDING_MODEL (trim q)) w))
      as [[| | [| v vs]] | e]; cbn [fst snd app].
    1-3,5: split; [right; exists q; split; [reflexivity | left; reflexivity] |];
      split; [intros Hall; exfalso; apply Hnb, Hall; reflexivity |
              intros Hn; contradiction].
    split; [right; exists q; split; [reflexivity | right; exists (v :: vs); reflexivity] |].
    split; [intros Hall; exfalso; apply Hnb, Hall; reflexivity | intros Hn; contradiction]. }
  destruct Hshape as [Hshape [Hblank Hkey]].
  split; [exact Hshape |]. split; [| split; [exact Hblank | exact Hkey]].
  destruct Hshape as [-> | [q [_ [-> | [v ->]]]]]; reflexivity.
Qed.

(* ================================================================== *)
(** * Further properties: the sync run *)
(* ================================================================== *)

Lemma buildFaqData_recordOf (faq : RawFaq) :
  Sync.buildFaqData faq
  = if truthy (faq_id faq) then Returned (recordOf faq) else Thrown FaqMissingId.
Proof.
  unfold Sync.buildFaqData, Sync.getFaqId, recordOf.
  destruct (truthy (faq_id faq)); reflexivity.
Qed.

Lemma buildAll_from (faqs : list RawFaq) (k : nat) :
  mapIndexed (fun faq _ => Sync.buildFaqData faq) faqs k
  = if allHaveIds faqs then Returned (List.map recordOf faqs) else Thrown FaqMissingId.
Proof.
  revert k; induction faqs as [| faq faqs IH]; intros k; [reflexivity |].
  cbn [mapIndexed allHaveIds forallb List.map]. rewrite buildFaqData_recordOf.
  destruct (truthy (faq_id faq)); cbn [andb]; [| reflexivity].
  rewrite IH. fold (allHaveIds faqs). destruct (allHaveIds faqs); reflexivity.
Qed.

(** All the records are built, or the run stops at a missing id. *)
Lemma buildAll_spec (faqs : list RawFaq) :
  buildAll faqs
  = if allHaveIds faqs then Returned (List.map recordOf faqs) else Thrown FaqMissingId.
Proof. apply buildAll_from. Qed.

Lemma recordOf_has_id (faq : RawFaq) :
  truthy (faq_id faq) = true -> truthy (Some (Sync.faqId (recordOf faq))) = true.
Proof.
  unfold recordOf, truthy, orDefault. cbn [Sync.faqId].
  destruct (faq_id faq) as [[| c s] |]; intros H; try discriminate; reflexivity.
Qed.

(** The points built from the records and their embeddings are all
    accepted, and are the records paired with their embeddings. *)
Lemma toPoints_prepared (faqData : list Sync.FaqData) (earlier rest : list (list float))
      (k : nat) :
  length rest = length faqData ->
  (forall d, In d faqData -> truthy (Some (Sync.faqId d)) = true) ->
  mapIndexed Qdrant.preparePoint
             (Sync.toPoints faqData (earlier ++ rest) (length earlier)) k
  = Returned (pointsOf faqData rest).
Proof.
  revert earlier rest k; induction faqData as [| d faqData IH];
    intros earlier rest k Hlen Hids.
  - destruct rest; [reflexivity | discriminate].
  - destruct rest as [| v rest]; [discriminate |].
    cbn [Sync.toPoints mapIndexed]. unfold Qdrant.preparePoint at 1.
    cbn [Qdrant.id Qdrant.vector Qdrant.payload].
    rewrite (Hids d (or_introl eq_refl)). cbn [negb].
    rewrite nth_error_app2 by lia. rewrite Nat.sub_diag. cbn [nth_error].
    replace (earlier ++ v :: rest) with ((earlier ++ [v]) ++ rest)
      by (rewrite <- app_assoc; reflexivity).
    replace (S (length earlier)) with (length (earlier ++ [v]))
      by (rewrite length_app; simpl; lia).
    rewrite IH.
    + reflexivity.
    + simpl in Hlen. lia.
    + intros d' Hd'. apply Hids. right; exact Hd'.
Qed.

Lemma toPoints_length (faqData : list Sync.FaqData) (embeddings : list (list float))
      (k : nat) :
  length (Sync.toPoints faqData embeddings k) = length faqData.
Proof.
  revert k; induction faqData as [| d faqData IH]; intros k; simpl;
    [reflexivity | rewrite IH; reflexivity].
Qed.

Section SyncRun.

Context {W : Type} (h : Handler W) (env : ProcessEnv).

(** When the real batch stage returns, it returns one embedding per
    text, so the count check of [syncFaqs] passes. *)
Lemma batch_stage_count (texts : list JS.value) (w w3 : W) (tr3 : list Call)
      (embeddings : list (list float)) :
  run h (Embeddings.generateEmbeddingsBatch env texts) w = (tr3, Returned embeddings, w3) ->
  length embeddings = length texts.
Proof.
  intros Hrun.
  pose proof (generateEmbeddingsBatch_unbatched h env texts w) as Hres.
  unfold result in Hres. rewrite Hrun in Hres. cbn [fst snd] in Hres.
  symmetry in Hres. apply collect_Returned in Hres.
  rewrite <- (length_map Returned embeddings), <- Hres, outcomes_length, length_map.
  reflexivity.
Qed.

End SyncRun.

(** X7: a sync run whose stages all succeed writes one point per fetched
    record, in feed order, in a single upsert made after every
    embedding: the point of a record has the numeric id of the record's
    id, the embedding returned for the record's combined text, and the
    record's five fields and combined text as payload, a missing field
    stored as the empty string.  The run then reports the number of
    fetched records as synced, or throws what the upsert threw. *)
Theorem syncFaqs_writes_one_point_per_record :
  forall (W : Type) (h : Handler W) (env : ProcessEnv) (w w1 w2 w3 : W)
         (tr1 tr2 tr3 : list Call) (faqs : list RawFaq)
         (embeddings : list (list float)),
    run h (Qdrant.ensureCollection env) w = (tr1, Returned tt, w1) ->
    run h (Sync.fetchFaqs env) w1 = (tr2, Returned faqs, w2) ->
    faqs <> [] ->
    allHaveIds faqs = true ->
    run h (Embeddings.generateEmbeddingsBatch env (textsOf (List.map recordOf faqs))) w2
    = (tr3, Returned embeddings, w3) ->
    let points := pointsOf (List.map recordOf faqs) embeddings in
    let call := Upsert (Qdrant.QDRANT_COLLECTION_NAME env) points in
    run h (Sync.syncFaqs env) w
    = (tr1 ++ tr2 ++ tr3 ++ [Called call],
       match fst (h _ call w3) with
       | Returned _ => Returned {| Sync.synced := length faqs;
                                   Sync.updated := 0; Sync.errors := 0 |}
       | Thrown e => Thrown e
       end,
       snd (h _ call w3)) /\
    length points = length faqs /\
    List.map pp_vector points = embeddings /\
    List.map pp_id points
    = List.map (fun faq => Qdrant.pointIdOf (orDefault (faq_id faq) [])) faqs /\
    List.map (fun p => p_text (pp_payload p)) points
    = List.map (fun faq => Some (Sync.combineFaqText faq)) faqs.
Proof.
  intros W h env w w1 w2 w3 tr1 tr2 tr3 faqs embeddings
         Hensure Hfetch Hne Hids Hstage points call.
  assert (Hlen : length embeddings = length (List.map recordOf faqs)).
  { rewrite (batch_stage_count h env _ w2 Hstage). unfold textsOf. apply length_map. }
  assert (Hcomb : forall (A B : Type) (f : Sync.FaqData * list float -> A)
                         (g : RawFaq -> B) (k : A -> B),
             (forall faq v, k (f (recordOf faq, v)) = g faq) ->
             List.map k (List.map f (combine (List.map recordOf faqs) embeddings))
             = List.map g faqs).
  { intros A B f g k Hk. rewrite length_map in Hlen. clear - Hlen Hk.
    revert embeddings Hlen; induction faqs as [| faq faqs IH]; intros embeddings Hlen.
    - reflexivity.
    - destruct embeddings as [| v embeddings]; [discriminate |].
      simpl. rewrite Hk. f_equal. apply IH. simpl in Hlen. lia. }
  split; [| split; [| split; [| split]]].
  - unfold Sync.syncFaqs. rewrite run_syncFaqsWith, Hensure, Hfetch.
    assert (Hz : (length faqs =? 0)%nat = false)
      by (destruct faqs; [contradiction | reflexivity]).
    rewrite Hz, buildAll_spec, Hids, Hstage.
    rewrite Hlen, Nat.eqb_refl. cbn [negb].
    unfold Qdrant.upsertPoints. rewrite run_rethrow.
    rewrite toPoints_length, length_map, Hz.
    rewrite run_bind, run_ofOutcome.
    assert (Hp : mapIndexed Qdrant.preparePoint
                            (Sync.toPoints (List.map recordOf faqs) embeddings 0) 0
                 = Returned points).
    { apply (toPoints_prepared (List.map recordOf faqs) [] embeddings 0 Hlen).
      intros d Hd. apply in_map_iff in Hd. destruct Hd as [faq [<- Hfaq]].
      apply recordOf_has_id. unfold allHaveIds in Hids.
      rewrite forallb_forall in Hids. apply Hids, Hfaq. }
    rewrite Hp, run_await. fold call.
    destruct (fst (h _ call w3)); reflexivity.
  - subst points. unfold pointsOf. rewrite length_map, length_combine, Hlen, Nat.min_id.
    apply length_map.
  - subst points. unfold pointsOf. rewrite map_map. cbn [pp_vector].
    clear - Hlen. revert embeddings Hlen.
    induction (List.map recordOf faqs) as [| d ds IH]; intros embeddings Hlen.
    + destruct embeddings; [reflexivity | discriminate].
    + destruct embeddings as [| v embeddings]; [discriminate |].
      simpl. f_equal. apply IH. simpl in Hlen. lia.
  - subst points. unfold pointsOf. apply Hcomb. intros faq v. reflexivity.
  - subst points. unfold pointsOf. apply Hcomb. intros faq v. reflexivity.
Qed.

Section SyncStages.

Context {W : Type} (h : Handler W) (env : ProcessEnv).

(** The calls of the sync path's fetch: none without a URL, else the
    one request. *)
Lemma run_sync_fetchFaqs (w : W) :
  run h (Sync.fetchFaqs env) w =
  if truthy (env_FAQ_API_URL env)
  then
    let get := HttpGet (orDefault (env_FAQ_API_URL env) []) (Sync.DEFAULT_TIMEOUT env) in
    ([Called get],
     match fst (@h _ get w) with
     | Returned (DataArray faqs) => Returned faqs
     | Returned DataOther => Returned []
     | Thrown e => Thrown e
     end,
     snd (@h _ get w))
  else ([], Returned [], w).
Proof.
  unfold Sync.fetchFaqs, Sync.FAQ_API_URL.
  destruct (truthy (env_FAQ_API_URL env)); cbn [negb]; [| reflexivity].
  rewrite run_rethrow, run_bind, run_await. cbv zeta.
  destruct (@h _ (HttpGet (orDefault (env_FAQ_API_URL env) []) (Sync.DEFAULT_TIMEOUT env)) w)
    as [[[faqs |] | e] w1]; reflexivity.
Qed.

(** Up to the end of the fetch a sync run calls neither the provider
    nor the upsert. *)
Lemma sync_prefix_quiet (w w1 w2 : W) (tr1 tr2 : list Call)
      (r1 : outcome unit) (r2 : outcome (list RawFaq)) :
  run h (Qdrant.ensureCollection env) w = (tr1, r1, w1) ->
  run h (Sync.fetchFaqs env) w1 = (tr2, r2, w2) ->
  forallb (fun c => negb (isEmbedContent c) && notUpsert c) (tr1 ++ tr2) = true.
Proof.
  intros Hensure Hfetch.
  rewrite run_sync_fetchFaqs in Hfetch.
  destruct (ensureCollection_trace h env w Hensure) as [-> | ->];
    destruct (truthy (env_FAQ_API_URL env)); injection Hfetch as <- _ _; reflexivity.
Qed.

(** A successful [upsertPoints] on at least one point has made an upsert. *)
Lemma upsertPoints_returned_trace (points : list Qdrant.Point) (w w4 : W) (tr4 : list Call) :
  points <> [] ->
  run h (Qdrant.upsertPoints env points) w = (tr4, Returned tt, w4) ->
  existsb isUpsert tr4 = true.
Proof.
  intros Hne. unfold Qdrant.upsertPoints. rewrite run_rethrow.
  destruct points as [| p points]; [contradiction |].
  cbn [length Nat.eqb]. rewrite run_bind, run_ofOutcome.
  destruct (mapIndexed Qdrant.preparePoint (p :: points) 0) as [prepared | e];
    [| discriminate].
  rewrite run_await. intros Hrun. injection Hrun as <- _ _. reflexivity.
Qed.

End SyncStages.

(** X8: whatever the stages do, a report that [syncFaqs] returns has
    [updated] and [errors] at zero and [synced] at the number of records
    the fetch returned, every one of which had an id; and when that
    number is not zero, an upsert was made and acknowledged. *)
Theorem syncFaqs_report :
  forall (W : Type) (h : Handler W) (env : ProcessEnv)
         (stage : list JS.value -> Prog (list (list float)))
         (w : W) (report : Sync.SyncReport),
    result h (Sync.syncFaqsWith env stage) w = Returned report ->
    Sync.updated report = 0%nat /\
    Sync.errors report = 0%nat /\
    exists tr1 w1 tr2 w2 faqs,
      run h (Qdrant.ensureCollection env) w = (tr1, Returned tt, w1) /\
      run h (Sync.fetchFaqs env) w1 = (tr2, Returned faqs, w2) /\
      Sync.synced report = length faqs /\
      allHaveIds faqs = true /\
      (faqs <> [] ->
       existsb isUpsert (trace h (Sync.syncFaqsWith env stage) w) = true).
Proof.
  intros W h env stage w report. unfold result, trace.
  rewrite run_syncFaqsWith.
  destruct (run h (Qdrant.ensureCollection env) w) as [[tr1 [[] | e]] w1] eqn:Hensure;
    [| intros E; discriminate].
  destruct (run h (Sync.fetchFaqs env) w1) as [[tr2 [faqs | e]] w2] eqn:Hfetch;
    [| intros E; discriminate].
  destruct (length faqs =? 0)%nat eqn:Hz.
  - cbn [fst snd]. intros E. injection E as <-.
    apply length_zero_iff in Hz. subst faqs.
    split; [reflexivity |]. split; [reflexivity |].
    exists tr1, w1, tr2, w2, [].
    split; [reflexivity |]. split; [exact Hfetch |]. split; [reflexivity |].
    split; [reflexivity |]. intros Hne. contradiction.
  - rewrite buildAll_spec.
    destruct (allHaveIds faqs) eqn:Hids; [| intros E; discriminate].
    destruct (run h (stage (textsOf (List.map recordOf faqs))) w2)
      as [[tr3 [embeddings | e]] w3]; [| intros E; discriminate].
    destruct (negb _); [intros E; discriminate |].
    destruct (run h (Qdrant.upsertPoints env
                       (Sync.toPoints (List.map recordOf faqs) embeddings 0)) w3)
      as [[tr4 [[] | e]] w4] eqn:Hup; [| intros E; discriminate].
    cbn [fst snd]. intros E. injection E as <-.
    split; [reflexivity |]. split; [reflexivity |].
    exists tr1, w1, tr2, w2, faqs.
    split; [reflexivity |]. split; [exact Hfetch |].
    split; [| split; [exact Hids |]].
    + cbn [Sync.synced]. apply length_map.
    + intros _. rewrite !existsb_app.
      rewrite (@upsertPoints_returned_trace W h env
                 (Sync.toPoints (List.map recordOf faqs) embeddings 0) w3 w4 tr4).
      * rewrite !orb_true_r. reflexivity.
      * intros E. apply (f_equal (@length _)) in E.
        rewrite toPoints_length, length_map in E. rewrite E in Hz. discriminate.
      * exact Hup.
Qed.

(** X9: when a fetched record has no id, the run throws the missing-id
    error as soon as the fetch is over: the batch stage is not started,
    so no text is sent to the provider, not even those of the records
    that have an id, and nothing is upserted. *)
Theorem syncFaqs_missing_id_stops_before_embedding :
  forall (W : Type) (h : Handler W) (env : ProcessEnv)
         (stage : list JS.value -> Prog (list (list float)))
         (w w1 w2 : W) (tr1 tr2 : list Call) (faqs : list RawFaq),
    run h (Qdrant.ensureCollection env) w = (tr1, Returned tt, w1) ->
    run h (Sync.fetchFaqs env) w1 = (tr2, Returned faqs, w2) ->
    allHaveIds faqs = false ->
    run h (Sync.syncFaqsWith env stage) w = (tr1 ++ tr2, Thrown FaqMissingId, w2) /\
    forallb (fun c => negb (isEmbedContent c) && notUpsert c) (tr1 ++ tr2) = true.
Proof.
  intros W h env stage w w1 w2 tr1 tr2 faqs Hensure Hfetch Hids.
  split; [| apply (sync_prefix_quiet h env w Hensure Hfetch)].
  rewrite run_syncFaqsWith, Hensure, Hfetch.
  assert (Hz : (length faqs =? 0)%nat = false)
    by (destruct faqs; [discriminate | reflexivity]).
  rewrite Hz, buildAll_spec, Hids. reflexivity.
Qed.

(** X10: a stage that throws stops the run there and its error is what
    [syncFaqs] throws: after a failed [ensureCollection] nothing is
    fetched, after a failed fetch nothing is embedded, after a failed
    batch stage nothing is upserted. *)
Theorem syncFaqs_rethrows_stage_errors :
  forall (W : Type) (h : Handler W) (env : ProcessEnv)
         (stage : list JS.value -> Prog (list (list float))) (w : W),
    (forall tr1 e w1,
        run h (Qdrant.ensureCollection env) w = (tr1, Thrown e, w1) ->
        run h (Sync.syncFaqsWith env stage) w = (tr1, Thrown e, w1)) /\
    (forall tr1 w1 tr2 e w2,
        run h (Qdrant.ensureCollection env) w = (tr1, Returned tt, w1) ->
        run h (Sync.fetchFaqs env) w1 = (tr2, Thrown e, w2) ->
        run h (Sync.syncFaqsWith env stage) w = (tr1 ++ tr2, Thrown e, w2)) /\
    (forall tr1 w1 tr2 faqs w2 tr3 e w3,
        run h (Qdrant.ensureCollection env) w = (tr1, Returned tt, w1) ->
        run h (Sync.fetchFaqs env) w1 = (tr2, Returned faqs, w2) ->
        faqs <> [] ->
        allHaveIds faqs = true ->
        run h (stage (textsOf (List.map recordOf faqs))) w2 = (tr3, Thrown e, w3) ->
        run h (Sync.syncFaqsWith env stage) w = (tr1 ++ tr2 ++ tr3, Thrown e, w3)).
Proof.
  intros W h env stage w. split; [| split].
  - intros tr1 e w1 Hensure. rewrite run_syncFaqsWith, Hensure. reflexivity.
  - intros tr1 w1 tr2 e w2 Hensure Hfetch.
    rewrite run_syncFaqsWith, Hensure, Hfetch. reflexivity.
  - intros tr1 w1 tr2 faqs w2 tr3 e w3 Hensure Hfetch Hne Hids Hstage.
    rewrite run_syncFaqsWith, Hensure, Hfetch.
    assert (Hz : (length faqs =? 0)%nat = false)
      by (destruct faqs; [contradiction | reflexivity]).
    rewrite Hz, buildAll_spec, Hids, Hstage. reflexivity.
Qed.

(** X11: with no feed URL configured (unset or empty), a sync run is
    [ensureCollection] and nothing more: it makes no request to the
    feed, no call to the provider and no upsert, and reports zero
    records, or throws what [ensureCollection] threw. *)
Theorem syncFaqs_unconfigured_feed :
  forall (W : Type) (h : Handler W) (env : ProcessEnv) (w w1 : W)
         (tr1 : list Call) (r1 : outcome unit),
    truthy (env_FAQ_API_URL env) = false ->
    run h (Qdrant.ensureCollection env) w = (tr1, r1, w1) ->
    run h (Sync.syncFaqs env) w
    = (tr1,
       match r1 with
       | Returned _ => Returned emptyReport
       | Thrown e => Thrown e
       end,
       w1).
Proof.
  intros W h env w w1 tr1 r1 Hurl Hensure.
  unfold Sync.syncFaqs. rewrite run_syncFaqsWith, Hensure.
  destruct r1 as [[] | e]; [| reflexivity].
  rewrite run_sync_fetchFaqs, Hurl. cbn [length Nat.eqb]. rewrite app_nil_r.
  reflexivity.
Qed.

(* ================================================================== *)
(** * Further properties: the combined text *)
(* ================================================================== *)

Lemma forallb_join_space (parts : list jsstring) :
  forallb isWhiteSpace (join (js " ") parts) = forallb (forallb isWhiteSpace) parts.
Proof.
  induction parts as [| p parts IH]; [reflexivity |].
  destruct parts as [| p' parts].
  - simpl. rewrite andb_true_r. reflexivity.
  - change (join (js " ") (p :: p' :: parts))
      with (p ++ js " " ++ join (js " ") (p' :: parts)).
    rewrite !forallb_app, IH. reflexivity.
Qed.

Lemma pushIf_forallb (P : jsstring -> bool) (field : option jsstring)
      (parts : list jsstring) :
  forallb P (Sync.pushIf field parts)
  = forallb P parts && match field with
                       | Some (c :: s) => P (c :: s)
                       | _ => true
                       end.
Proof.
  unfold Sync.pushIf. destruct field as [[| c s] |]; rewrite ?andb_true_r; try reflexivity.
  rewrite forallb_app. simpl. rewrite andb_true_r. reflexivity.
Qed.

Lemma blankField_iff (field : option jsstring) :
  blankField field <->
  match field with
  | Some (c :: s) => forallb isWhiteSpace (c :: s)
  | _ => true
  end = true.
Proof.
  unfold blankField. destruct field as [[| c s] |]; split; intros H;
    try reflexivity; try exact I; exact H.
Qed.

Lemma combineFaqText_blank_iff_aux (faq : RawFaq) :
  Sync.combineFaqText faq = [] <->
  blankField (questionEnglish faq) /\ blankField (answerEnglish faq) /\
  blankField (questionHindi faq) /\ blankField (answerHindi faq).
Proof.
  unfold Sync.combineFaqText.
  rewrite trim_nil_iff, forallb_join_space, !pushIf_forallb.
  rewrite !blankField_iff. cbn [forallb]. rewrite !andb_true_iff.
  tauto.
Qed.

(** X12: the combined text of a FAQ has no white space at either end,
    and it is empty exactly when each of the four text fields is
    absent, empty, or made of white space only. *)
Theorem combineFaqText_blank_iff :
  forall faq : RawFaq,
    trimmed (Sync.combineFaqText faq) /\
    (Sync.combineFaqText faq = [] <->
     blankField (questionEnglish faq) /\ blankField (answerEnglish faq) /\
     blankField (questionHindi faq) /\ blankField (answerHindi faq)).
Proof.
  intros faq. split; [apply trim_trimmed | apply combineFaqText_blank_iff_aux].
Qed.

Section SyncBlank.

Context {W : Type} (h : Handler W) (env : ProcessEnv).

(** A fetched record whose combined text is empty makes the run throw,
    with no upsert. *)
Lemma sync_aborts_on_empty_text (w w1 w2 : W) (tr1 tr2 : list Call)
      (faqs : list RawFaq) (faq : RawFaq) :
  run h (Qdrant.ensureCollection env) w = (tr1, Returned tt, w1) ->
  run h (Sync.fetchFaqs env) w1 = (tr2, Returned faqs, w2) ->
  In faq faqs ->
  Sync.combineFaqText faq = [] ->
  (exists e, result h (Sync.syncFaqs env) w = Thrown e) /\
  forallb notUpsert (trace h (Sync.syncFaqs env) w) = true.
Proof.
  intros Hensure Hfetch Hin Htext.
  destruct (sync_prefix_calls h env w Hensure Hfetch) as [Hnone _].
  unfold result, trace, Sync.syncFaqs.
  rewrite run_syncFaqsWith, Hensure, Hfetch.
  assert (Hz : (length faqs =? 0)%nat = false)
    by (destruct faqs; [contradiction | reflexivity]).
  rewrite Hz, buildAll_spec.
  destruct (allHaveIds faqs);
    [| cbn [fst snd]; split; [eexists; reflexivity | exact Hnone]].
  set (texts := textsOf (List.map recordOf faqs)).
  assert (Hintext : In (VStr []) texts).
  { unfold texts, textsOf. rewrite map_map. apply in_map_iff.
    exists faq. split; [| exact Hin]. cbn [recordOf Sync.text]. rewrite Htext. reflexivity. }
  pose proof (generateEmbeddingsBatch_unbatched h env texts w2) as Hres.
  pose proof (callsOnly_run _ h (Embeddings.generateEmbeddingsBatch env texts) w2
                (generateEmbeddingsBatch_calls env texts)) as Hcalls.
  unfold result in Hres.
  destruct (run h (Embeddings.generateEmbeddingsBatch env texts) w2) as [[tr3 r3] w3].
  cbn [fst snd] in Hres, Hcalls.
  assert (Hthrown : exists e, r3 = Thrown e).
  { rewrite Hres.
    destruct (outcomes_In h (List.map (Embeddings.generateEmbedding env) texts) w2
                (Embeddings.generateEmbedding env (VStr []))) as [wi Hwi].
    { apply in_map. exact Hintext. }
    assert (Hrej : exists e, result h (Embeddings.generateEmbedding env (VStr [])) wi
                             = Thrown e).
    { unfold result. rewrite run_generateEmbedding. destruct (negb _); eexists; reflexivity. }
    destruct Hrej as [e He]. rewrite He in Hwi.
    eapply collect_In_Thrown. exact Hwi. }
  destruct Hthrown as [e ->].
  cbn [fst snd]. split; [eexists; reflexivity |].
  rewrite app_assoc, forallb_app, Hnone.
  rewrite (forallb_notQdrant_notUpsert tr3 Hcalls). reflexivity.
Qed.

End SyncBlank.

(** X13: a fetched record whose four text fields are each absent, empty
    or made of white space only stops the whole run: [syncFaqs] throws
    and nothing is upserted, whatever the other records are. *)
Theorem syncFaqs_blank_record_aborts :
  forall (W : Type) (h : Handler W) (env : ProcessEnv) (w w1 w2 : W)
         (tr1 tr2 : list Call) (faqs : list RawFaq) (faq : RawFaq),
    run h (Qdrant.ensureCollection env) w = (tr1, Returned tt, w1) ->
    run h (Sync.fetchFaqs env) w1 = (tr2, Returned faqs, w2) ->
    In faq faqs ->
    blankField (questionEnglish faq) ->
    blankField (answerEnglish faq) ->
    blankField (questionHindi faq) ->
    blankField (answerHindi faq) ->
    (exists e, result h (Sync.syncFaqs env) w = Thrown e) /\
    forallb notUpsert (trace h (Sync.syncFaqs env) w) = true.
Proof.
  intros W h env w w1 w2 tr1 tr2 faqs faq Hensure Hfetch Hin HqE HaE HqH HaH.
  apply (@sync_aborts_on_empty_text W h env w w1 w2 tr1 tr2 faqs faq Hensure Hfetch Hin).
  apply (proj2 (combineFaqText_blank_iff_aux faq)). tauto.
Qed.

(* ================================================================== *)
(** * Further properties: the lexical retrieval *)
(* ================================================================== *)

Lemma slice0_In {A} (l : list A) (n : Z) (x : A) : In x (slice0 l n) -> In x l.
Proof.
  intros H. destruct (slice0_prefix l n) as [rest Hrest].
  rewrite Hrest. apply in_or_app. left; exact H.
Qed.

Lemma slice0_nil {A} (n : Z) : slice0 (@nil A) n = [].
Proof. unfold slice0. destruct (n <? 0); apply firstn_nil. Qed.

Section SelectCases.

Variable env : ProcessEnv.
Variable toLowerCase : jsstring -> jsstring.

Lemma candidates_no_token (faqs : list RawFaq) : candidates toLowerCase [] faqs = [].
Proof.
  apply candidates_nil. intros faq _. unfold Lexical.scoreOf. simpl. lia.
Qed.

(** [selectRelevantFaqs], by cases on the query and on the candidates. *)
Lemma select_cases (faqs : list RawFaq) (query : JS.value) :
  Lexical.selectRelevantFaqs env toLowerCase faqs query =
  match query with
  | VStr (c :: q) =>
      match candidates toLowerCase (Lexical.tokenize toLowerCase (c :: q)) faqs with
      | [] => slice0 faqs (Lexical.DEFAULT_LIMIT env)
      | s :: ss =>
          List.map Lexical.faq
                   (slice0 (Lexical.sortBy Lexical.compareScored (s :: ss))
                           (Lexical.DEFAULT_LIMIT env))
      end
  | _ => slice0 faqs (Lexical.DEFAULT_LIMIT env)
  end.
Proof.
  unfold Lexical.selectRelevantFaqs.
  destruct faqs as [| f faqs].
  - cbn [length Nat.eqb].
    destruct query as [| | | | [| c q] |]; rewrite ?slice0_nil; try reflexivity.
  - cbn [length Nat.eqb].
    destruct query as [| | | | [| c q] |]; try reflexivity.
    fold (candidates toLowerCase (Lexical.tokenize toLowerCase (c :: q)) (f :: faqs)).
    destruct (Lexical.tokenize toLowerCase (c :: q)) as [| t tokens] eqn:Htok.
    + cbn [length Nat.eqb]. rewrite candidates_no_token. reflexivity.
    + cbn [length Nat.eqb].
      destruct (candidates toLowerCase (t :: tokens) (f :: faqs)); reflexivity.
Qed.

(** A candidate is a FAQ of the list, at its position, with its score,
    which is positive. *)
Lemma candidates_spec (tokens : list jsstring) (faqs : list RawFaq) (s : Lexical.Scored) :
  In s (candidates toLowerCase tokens faqs) <->
  exists i, nth_error faqs i = Some (Lexical.faq s) /\
            Lexical.index s = Z.of_nat i /\
            Lexical.score s = Lexical.scoreOf toLowerCase tokens (Lexical.faq s) /\
            0 < Lexical.score s.
Proof.
  unfold candidates. rewrite filter_In, scoreAll_spec. split.
  - intros [[i [Hi [Hidx Hsc]]] Hp]. exists i. apply Z.gtb_lt in Hp.
    repeat split; try assumption; lia.
  - intros [i [Hi [Hidx [Hsc Hp]]]]. split.
    + exists i. repeat split; try assumption; lia.
    + apply Z.gtb_lt. exact Hp.
Qed.

Lemma candidates_of_match (tokens : list jsstring) (faqs : list RawFaq) (i : nat)
      (faq : RawFaq) :
  nth_error faqs i = Some faq ->
  0 < Lexical.scoreOf toLowerCase tokens faq ->
  In {| Lexical.score := Lexical.scoreOf toLowerCase tokens faq;
        Lexical.faq := faq; Lexical.index := Z.of_nat i |}
     (candidates toLowerCase tokens faqs).
Proof.
  intros Hi Hp. apply candidates_spec. exists i. cbn. repeat split; assumption.
Qed.


End SelectCases.

(** X14: what [selectRelevantFaqs] returns relative to what matches,
    for any limit.  Every FAQ returned is one of the FAQs given.  When
    the query is a non-empty string and some FAQ contains one of its
    tokens, every FAQ returned contains at least one token; and when
    the matching FAQs are no more than the limit, every matching FAQ is
    returned. *)
Theorem selectRelevantFaqs_returns_matches :
  forall (env : ProcessEnv) (toLowerCase : jsstring -> jsstring)
         (faqs : list RawFaq) (query : JS.value),
    let selected := Lexical.selectRelevantFaqs env toLowerCase faqs query in
    (forall faq, In faq selected -> In faq faqs) /\
    (forall q,
        query = VStr q -> q <> [] ->
        (exists faq, In faq faqs /\ 0 < scoreFor toLowerCase q faq) ->
        (forall faq, In faq selected -> 0 < scoreFor toLowerCase q faq) /\
        (Z.of_nat (length (candidates toLowerCase (Lexical.tokenize toLowerCase q) faqs))
         <= Lexical.DEFAULT_LIMIT env ->
         forall faq, In faq faqs -> 0 < scoreFor toLowerCase q faq -> In faq selected)).
Proof.
  intros env toLowerCase faqs query selected. subst selected.
  rewrite select_cases. split.
  - intros faq Hin.
    destruct query as [| | | | [| c q] |]; try (apply slice0_In in Hin; exact Hin).
    destruct (candidates toLowerCase (Lexical.tokenize toLowerCase (c :: q)) faqs)
      as [| s ss] eqn:Hc; [apply slice0_In in Hin; exact Hin |].
    apply in_map_iff in Hin. destruct Hin as [x [<- Hx]].
    apply slice0_In in Hx.
    apply (Permutation_in _ (sortBy_perm Lexical.compareScored (s :: ss))) in Hx.
    rewrite <- Hc in Hx. apply candidates_spec in Hx.
    destruct Hx as [i [Hi _]]. apply nth_error_In in Hi. exact Hi.
  - intros q -> Hq [m [Hm Hpos]]. unfold scoreFor in *.
    destruct q as [| c q]; [contradiction |].
    destruct (candidates toLowerCase (Lexical.tokenize toLowerCase (c :: q)) faqs)
      as [| s ss] eqn:Hc.
    { exfalso. pose proof (proj1 (candidates_nil toLowerCase _ faqs) Hc m Hm). lia. }
    split.
    + intros faq Hin. apply in_map_iff in Hin. destruct Hin as [x [<- Hx]].
      apply slice0_In in Hx.
      apply (Permutation_in _ (sortBy_perm Lexical.compareScored (s :: ss))) in Hx.
      rewrite <- Hc in Hx. apply candidates_spec in Hx.
      destruct Hx as [i [_ [_ [Hsc Hp]]]]. rewrite <- Hsc. exact Hp.
    + intros Hfit faq Hin Hp.
      rewrite slice0_all.
      2:{ rewrite (Permutation_length (sortBy_perm Lexical.compareScored (s :: ss))).
          exact Hfit. }
      apply In_nth_error in Hin. destruct Hin as [i Hi].
      pose proof (candidates_of_match toLowerCase _ faqs i Hi Hp) as Hcand.
      rewrite Hc in Hcand.
      apply (Permutation_in _ (Permutation_sym (sortBy_perm Lexical.compareScored (s :: ss))))
        in Hcand.
      apply in_map_iff. eexists. split; [| exact Hcand]. reflexivity.
Qed.

(** X15: with a positive limit, when the query is a non-empty string and
    some FAQ contains one of its tokens, the first FAQ returned is a
    best match, and the earliest of them: no FAQ has a higher score,
    and every FAQ before it in the list has a strictly lower one. *)
Theorem selectRelevantFaqs_best_first :
  forall (env : ProcessEnv) (toLowerCase : jsstring -> jsstring)
         (faqs : list RawFaq) (q : jsstring),
    0 < Lexical.DEFAULT_LIMIT env ->
    q <> [] ->
    (exists faq, In faq faqs /\ 0 < scoreFor toLowerCase q faq) ->
    exists best rest i,
      Lexical.selectRelevantFaqs env toLowerCase faqs (VStr q) = best :: rest /\
      nth_error faqs i = Some best /\
      (forall faq, In faq faqs -> scoreFor toLowerCase q faq <= scoreFor toLowerCase q best) /\
      (forall j faq, (j < i)%nat -> nth_error faqs j = Some faq ->
                     scoreFor toLowerCase q faq < scoreFor toLowerCase q best).
Proof.
  intros env toLowerCase faqs q Hlimit Hq [m [Hm Hpos]]. unfold scoreFor in *.
  rewrite select_cases. destruct q as [| c q]; [contradiction |].
  set (tokens := Lexical.tokenize toLowerCase (c :: q)) in *.
  destruct (ranking toLowerCase tokens faqs) as [Hperm Hsorted].
  destruct (candidates toLowerCase tokens faqs) as [| s ss] eqn:Hc.
  { exfalso. pose proof (proj1 (candidates_nil toLowerCase _ faqs) Hc m Hm). lia. }
  rewrite slice0_firstn by lia.
  destruct (Lexical.sortBy Lexical.compareScored (s :: ss)) as [| s0 ranked] eqn:Hr.
  { apply Permutation_nil in Hperm. discriminate. }
  assert (Hs0 : In s0 (candidates toLowerCase tokens faqs))
    by (rewrite Hc; apply (Permutation_in _ Hperm); left; reflexivity).
  apply candidates_spec in Hs0. destruct Hs0 as [i [Hi [Hidx [Hsc Hp]]]].
  assert (Hbefore : forall s', In s' ranked -> ranksBefore s0 s').
  { inversion Hsorted as [| ? ? _ Hall]; subst. rewrite Forall_forall in Hall. exact Hall. }
  assert (Hcmp : forall j faq,
             nth_error faqs j = Some faq ->
             Lexical.scoreOf toLowerCase tokens faq <= Lexical.score s0 /\
             ((j < i)%nat -> Lexical.scoreOf toLowerCase tokens faq < Lexical.score s0)).
  { intros j faq Hj.
    destruct (Z.leb_spec (Lexical.scoreOf toLowerCase tokens faq) 0) as [Hle | Hgt];
      [split; intros; lia |].
    pose proof (candidates_of_match toLowerCase tokens faqs j Hj Hgt) as Hcand.
    rewrite Hc in Hcand.
    apply (Permutation_in _ (Permutation_sym Hperm)) in Hcand.
    destruct Hcand as [E | Hin].
    - subst s0. cbn in Hidx |- *. split; [lia |]. intros Hlt. lia.
    - specialize (Hbefore _ Hin). unfold ranksBefore in Hbefore. cbn in Hbefore.
      split; [lia |]. intros Hlt. lia. }
  destruct (Z.to_nat (Lexical.DEFAULT_LIMIT env)) as [| n] eqn:Hn; [lia |].
  cbn [firstn List.map].
  exists (Lexical.faq s0), (List.map Lexical.faq (firstn n ranked)), i.
  split; [reflexivity |]. split; [exact Hi |]. rewrite <- Hsc. split.
  - intros faq Hin. apply In_nth_error in Hin. destruct Hin as [j Hj].
    apply (Hcmp j faq Hj).
  - intros j faq Hlt Hj. apply (Hcmp j faq Hj). exact Hlt.
Qed.





(* ================================================================== *)
(** * Further properties: the connection test *)
(* ================================================================== *)

(** X18: [testConnection] never throws, whatever Qdrant and
    [getCollectionInfo] do.  A failure that the [catch] clause takes
    for an authorisation failure gives a status that is not connected
    and carries the error's description; any other failure makes the
    function end without a [return], so that it resolves to undefined.
    When Qdrant lists its collections and the target one is not among
    them, the status is connected, with no collection, zero points and
    no vector size, and nothing else was called.  A status that says
    connected carries no error and a point count. *)
Theorem testConnection_never_throws :
  forall (W : Type) (h : Handler W) (env : ProcessEnv)
         (isAuthFailure : Error -> bool) (describe : Error -> jsstring)
         (getCollectionInfo : Prog Connection.CollectionInfo) (w : W),
    let test := Connection.testConnection env isAuthFailure describe getCollectionInfo in
    let w1 := snd (h _ GetCollections w) in
    (exists status, result h test w = Returned status) /\
    (forall e,
        fst (h _ GetCollections w) = Thrown e ->
        run h test w
        = ([Called GetCollections],
           Returned (if isAuthFailure e
                     then Some (Connection.mkStatus false false None None (Some (describe e)))
                     else None),
           w1)) /\
    (forall collections e,
        fst (h _ GetCollections w) = Returned collections ->
        existsb (fun col => str_eqb col (Qdrant.QDRANT_COLLECTION_NAME env)) collections = true ->
        result h getCollectionInfo w1 = Thrown e ->
        result h test w
        = Returned (if isAuthFailure e
                    then Some (Connection.mkStatus false false None None (Some (describe e)))
                    else None)) /\
    (forall collections,
        fst (h _ GetCollections w) = Returned collections ->
        existsb (fun col => str_eqb col (Qdrant.QDRANT_COLLECTION_NAME env)) collections = false ->
        run h test w
        = ([Called GetCollections],
           Returned (Some (Connection.mkStatus true false (Some 0) None None)),
           w1)) /\
    (forall status,
        result h test w = Returned (Some status) ->
        Connection.connected status = true ->
        Connection.error status = None /\ Connection.pointCount status <> None).
Proof.
  intros W h env isAuthFailure describe getCollectionInfo w test w1.
  subst test w1. unfold result, Connection.testConnection.
  rewrite run_tryCatch, run_bind, run_await.
  destruct (h _ GetCollections w) as [[collections | e0] w1] eqn:Hget; cbn [fst snd].
  - destruct (existsb _ collections) eqn:Hexists.
    + rewrite run_bind.
      destruct (run h getCollectionInfo w1) as [[tr2 [info | e2]] w2]; cbn [run fst snd].
      * split; [eexists; reflexivity |].
        split; [intros e E; discriminate |].
        split; [intros cs e E _ E2; discriminate |].
        split; [intros cs E Hno; injection E as <-; congruence |].
        intros status E _. injection E as <-. cbn. split; [reflexivity | discriminate].
      * split; [destruct (isAuthFailure e2); eexists; reflexivity |].
        split; [intros e E; discriminate |].
        split.
        { intros cs e E _ E2. injection E2 as <-.
          destruct (isAuthFailure e2); reflexivity. }
        split; [intros cs E Hno; injection E as <-; congruence |].
        intros status E Hconn.
        destruct (isAuthFailure e2); cbn [run fst snd] in E; [| discriminate].
        injection E as <-. discriminate.
    + cbn [run fst snd].
      split; [eexists; reflexivity |].
      split; [intros e E; discriminate |].
      split; [intros cs e E Hyes; injection E as <-; congruence |].
      split; [intros cs E _; reflexivity |].
      intros status E _. injection E as <-. cbn. split; [reflexivity | discriminate].
  - split; [destruct (isAuthFailure e0); eexists; reflexivity |].
    split.
    { intros e E. injection E as <-. destruct (isAuthFailure e0); reflexivity. }
    split; [intros cs e E; discriminate |].
    split; [intros cs E; discriminate |].
    intros status E Hconn.
    destruct (isAuthFailure e0); cbn [run fst snd] in E; [| discriminate].
    injection E as <-. discriminate.
Qed.

(* ================================================================== *)
(** * Further properties: the prompt prefix of the endpoint options *)
(* ================================================================== *)

Lemma startsWith_app (a b : jsstring) : startsWith (a ++ b) a = true.
Proof.
  induction a as [| x a IH]; [destruct b; reflexivity |].
  cbn [startsWith app]. rewrite N.eqb_refl. exact IH.
Qed.

Lemma trimmed_head (s : jsstring) :
  trimmed s -> s <> [] -> forallb isWhiteSpace s = false.
Proof.
  intros [Hl _] Hne. destruct s as [| x s]; [contradiction |].
  cbn [forallb]. rewrite (@dropWhile_fixed_head _ isWhiteSpace x s Hl). reflexivity.
Qed.

(** X19: the prompt prefix that [buildOptions] puts in the endpoint
    options, for a scope restriction that is not empty and has no white
    space at either end.  The prefix always starts with the scope
    restriction.  It is the scope restriction alone when the request has
    no prompt prefix or one of white space only; otherwise it is the
    scope restriction, an empty line, and the request's prompt prefix
    without its trailing white space. *)
Theorem enhancedPromptPrefix_keeps_scope :
  forall (scopeRestriction : jsstring) (promptPrefix : option jsstring),
    trimmed scopeRestriction ->
    scopeRestriction <> [] ->
    let enhanced := BuildOptions.enhancedPromptPrefix scopeRestriction promptPrefix in
    startsWith enhanced scopeRestriction = true /\
    (blankField promptPrefix -> enhanced = scopeRestriction) /\
    (forall p,
        promptPrefix = Some p ->
        forallb isWhiteSpace p = false ->
        enhanced = scopeRestriction ++ LF ++ LF
                   ++ rev (dropWhile isWhiteSpace (rev p))).
Proof.
  intros scope prefix Htrim Hne enhanced. subst enhanced.
  assert (Hhead : forallb isWhiteSpace scope = false) by (apply trimmed_head; assumption).
  assert (Hblank : forall p, forallb isWhiteSpace p = true ->
                             trim (scope ++ LF ++ LF ++ p) = scope).
  { intros p Hp. unfold trim.
    rewrite dropWhile_app_some by exact Hhead.
    destruct Htrim as [Hl Hr]. rewrite Hl.
    rewrite !rev_app_distr, <- !app_assoc.
    rewrite dropWhile_app_all by (rewrite forallb_rev; exact Hp).
    rewrite dropWhile_app_all by reflexivity.
    rewrite dropWhile_app_all by reflexivity.
    rewrite Hr. apply rev_involutive. }
  assert (Hsome : forall p, forallb isWhiteSpace p = false ->
                            trim (scope ++ LF ++ LF ++ p)
                            = scope ++ LF ++ LF ++ rev (dropWhile isWhiteSpace (rev p))).
  { intros p Hp. unfold trim.
    rewrite dropWhile_app_some by exact Hhead.
    destruct Htrim as [Hl Hr]. rewrite Hl.
    rewrite !rev_app_distr, <- !app_assoc.
    rewrite dropWhile_app_some by (rewrite forallb_rev; exact Hp).
    rewrite !rev_app_distr, !rev_involutive, <- !app_assoc. reflexivity. }
  unfold BuildOptions.enhancedPromptPrefix.
  destruct prefix as [[| c p] |]; cbn [truthy orDefault].
  - split; [rewrite <- (app_nil_r scope) at 1; apply startsWith_app |].
    split; [reflexivity |]. intros p E Hp. injection E as <-. discriminate.
  - destruct (forallb isWhiteSpace (c :: p)) eqn:Hp.
    + rewrite (Hblank _ Hp).
      split; [rewrite <- (app_nil_r scope) at 1; apply startsWith_app |].
      split; [reflexivity |]. intros p' E Hp'. injection E as <-. congruence.
    + rewrite (Hsome _ Hp).
      split; [apply startsWith_app |].
      split; [intros Hb; cbn [blankField] in Hb; congruence |].
      intros p' E _. injection E as <-. reflexivity.
  - split; [rewrite <- (app_nil_r scope) at 1; apply startsWith_app |].
    split; [reflexivity |]. intros p E. discriminate.
Qed.

(* ================================================================== *)
(** * Further properties: the collection and the provider's errors *)
(* ================================================================== *)

Lemma existsb_str_eqb (name : jsstring) (collections : list jsstring) :
  existsb (fun col => str_eqb col name) collections = true <-> In name collections.
Proof.
  rewrite existsb_exists. split.
  - intros [col [Hin Heq]]. apply str_eqb_eq in Heq. subst col. exact Hin.
  - intros Hin. exists name. split; [exact Hin | apply str_eqb_eq; reflexivity].
Qed.

Lemma orNumber_nonzero (a : option Z) (b : Z) : b <> 0 -> orNumber a b <> 0.
Proof.
  intros Hb. unfold orNumber. destruct a as [n |]; [| exact Hb].
  destruct (n =? 0) eqn:Hn; [exact Hb |]. apply Z.eqb_neq. exact Hn.
Qed.

(** X20: [ensureCollection] lists the collections once.  When the
    target collection is listed it returns with no other call; when it
    is not, it asks once for the collection to be created under the
    target name, and returns or throws as that request does.  The
    vector size it asks for is never 0: it is 3072 when
    FAQ_EMBEDDING_DIMENSIONS is unset or 0.  When the listing fails,
    the error is rethrown and nothing is created. *)
Theorem ensureCollection_creates_when_missing :
  forall (W : Type) (h : Handler W) (env : ProcessEnv) (w : W),
    let name := Qdrant.QDRANT_COLLECTION_NAME env in
    let size := Qdrant.EMBEDDING_DIMENSIONS env in
    let w1 := snd (h _ GetCollections w) in
    (forall collections,
        fst (h _ GetCollections w) = Returned collections ->
        In name collections ->
        run h (Qdrant.ensureCollection env) w = ([Called GetCollections], Returned tt, w1)) /\
    (forall collections,
        fst (h _ GetCollections w) = Returned collections ->
        ~ In name collections ->
        run h (Qdrant.ensureCollection env) w
        = ([Called GetCollections; Called (CreateCollection name size)],
           fst (h _ (CreateCollection name size) w1),
           snd (h _ (CreateCollection name size) w1))) /\
    (forall e,
        fst (h _ GetCollections w) = Thrown e ->
        run h (Qdrant.ensureCollection env) w = ([Called GetCollections], Thrown e, w1)) /\
    size <> 0 /\
    (env_FAQ_EMBEDDING_DIMENSIONS env = None \/ env_FAQ_EMBEDDING_DIMENSIONS env = Some 0 ->
     size = 3072).
Proof.
  intros W h env w name size w1. subst name size w1.
  rewrite run_ensureCollection.
  destruct (h _ GetCollections w) as [[collections | e0] w1]; cbn [fst snd].
  - split; [| split; [| split; [| split]]].
    + intros cs E Hin. injection E as <-.
      apply existsb_str_eqb in Hin. rewrite Hin. reflexivity.
    + intros cs E Hout. injection E as <-.
      destruct (existsb _ collections) eqn:Hex; [| reflexivity].
      apply existsb_str_eqb in Hex. contradiction.
    + intros e E. discriminate.
    + apply orNumber_nonzero. discriminate.
    + unfold Qdrant.EMBEDDING_DIMENSIONS. intros [E | E]; rewrite E; reflexivity.
  - split; [| split; [| split; [| split]]].
    + intros cs E. discriminate.
    + intros cs E. discriminate.
    + intros e E. injection E as <-. reflexivity.
    + apply orNumber_nonzero. discriminate.
    + unfold Qdrant.EMBEDDING_DIMENSIONS. intros [E | E]; rewrite E; reflexivity.
Qed.

(** X21: which error [generateEmbedding] throws, and that a failure
    found before the provider is reached makes no call.  A missing or
    empty key gives the not-configured error whatever the text; with a
    key, a text that is not a string or is blank gives the text error,
    also when the key is white space only; a key of white space only
    gives the empty-key error for a text that is not blank.  Once the
    provider is called, with the text as given (not trimmed), its error
    is rethrown as it is, and an answer that is not a non-empty array
    gives the empty-result error. *)
Theorem generateEmbedding_error_causes :
  forall (W : Type) (h : Handler W) (env : ProcessEnv) (w : W) (text : JS.value),
    let key := Embeddings.GOOGLE_API_KEY env in
    let call := EmbedContent (orDefault key []) Embeddings.EMBEDDING_MODEL (textOf text) in
    let r := run h (Embeddings.generateEmbedding env text) w in
    (truthy key = false -> r = ([], Thrown GoogleKeyNotConfigured, w)) /\
    (truthy key = true ->
     (forall t, text = VStr t -> blank t) ->
     r = ([], Thrown TextMustBeNonEmpty, w)) /\
    (truthy key = true ->
     blank (orDefault key []) ->
     (exists t, text = VStr t /\ ~ blank t) ->
     r = ([], Thrown GoogleKeyEmpty, w)) /\
    (credentialUsable env ->
     (exists t, text = VStr t /\ ~ blank t) ->
     (forall e, fst (h _ call w) = Thrown e ->
                r = ([Called call], Thrown e, snd (h _ call w))) /\
     (~ wellFormed (fst (h _ call w)) ->
      (forall e, fst (h _ call w) <> Thrown e) ->
      r = ([Called call], Thrown EmptyEmbeddingResult, snd (h _ call w)))).
Proof.
  intros W h env w text key call r. subst key call r.
  rewrite run_generateEmbedding. unfold credentialUsable, blank, wellFormed.
  assert (Hblank : forall t, (length t =? 0)%nat || (length (trim t) =? 0)%nat = true
                             <-> trim t = []).
  { intros t. rewrite orb_true_iff. split.
    - intros [H | H]; apply length_zero_iff in H; [subst t; reflexivity | exact H].
    - intros H. right. rewrite H. reflexivity. }
  split; [intros Hk; rewrite Hk; reflexivity |].
  split.
  { intros Hk Htext. rewrite Hk. cbn [negb].
    destruct text as [| | b | n | t |]; try reflexivity.
    rewrite (proj2 (Hblank t) (Htext t eq_refl)). reflexivity. }
  split.
  { intros Hk Hkey [t [-> Ht]]. rewrite Hk. cbn [negb].
    destruct ((length t =? 0)%nat || (length (trim t) =? 0)%nat) eqn:Hb;
      [apply Hblank in Hb; contradiction |].
    rewrite Hkey. reflexivity. }
  intros [Hk Hkey] [t [-> Ht]]. rewrite Hk. cbn [negb textOf].
  destruct ((length t =? 0)%nat || (length (trim t) =? 0)%nat) eqn:Hb;
    [apply Hblank in Hb; contradiction |].
  destruct (str_eqb (trim (orDefault (Embeddings.GOOGLE_API_KEY env) [])) []) eqn:Hs;
    [apply str_eqb_eq in Hs; contradiction |].
  cbv zeta. split.
  - intros e E. rewrite E. reflexivity.
  - intros Hwf Hnot.
    destruct (fst (h _ _ w)) as [[| | [| v vs]] | e]; try reflexivity.
    + exfalso. apply Hwf. do 2 eexists. reflexivity.
    + exfalso. apply (Hnot e). reflexivity.
Qed.

(* ================================================================== *)
(** * The further properties at concrete inputs *)
(* ================================================================== *)

(** X1 at a concrete input: two texts, two calls, in the order of the
    texts. *)
Lemma generateEmbeddingsBatch_one_call_per_text_witness :
  trace Sim.handle
        (Embeddings.generateEmbeddingsBatch Sim.someEnv [VStr (js "a"); VStr (js "b")])
        twoComponentWorld
  = [embedCall Sim.someEnv (js "a"); embedCall Sim.someEnv (js "b")].
Proof.
  exact (@generateEmbeddingsBatch_one_call_per_text
           Sim.World Sim.handle Sim.someEnv twoComponentWorld
           [VStr (js "a"); VStr (js "b")]
           [[(1 # 4)%Q; (3 # 4)%Q]; [(1 # 4)%Q; (3 # 4)%Q]]
           eq_refl).
Defined.

(** X2 at a concrete input: twelve texts, the first one refused by the
    provider; the second batch is never sent. *)
Lemma generateEmbeddingsBatch_stops_at_failing_batch_witness :
  (length (trace Sim.handle
                 (Embeddings.generateEmbeddingsBatch
                    Sim.someEnv (VStr (js "bad") :: repeat (VStr (js "a")) 11))
                 pickyProvider) <= 10)%nat.
Proof.
  exact (proj2 (proj2 (@generateEmbeddingsBatch_stops_at_failing_batch
                         Sim.World Sim.handle Sim.someEnv pickyProvider
                         (VStr (js "bad") :: repeat (VStr (js "a")) 11)))
               0%nat (External (js "quota")) eq_refl).
Defined.

(** X3 at a concrete input: the second point has no vector. *)
Lemma upsertPoints_rejects_before_writing_witness :
  run Sim.handle
      (Qdrant.upsertPoints Sim.someEnv
         [Qdrant.mkPoint (js "1") (Some [(1 # 2)%Q]) None;
          Qdrant.mkPoint (js "2") None None])
      oneFaqReady
  = ([], Thrown (PointInvalidVector 1 (js "2")), oneFaqReady).
Proof.
  refine (proj2 (@upsertPoints_rejects_before_writing
                   Sim.World Sim.handle Sim.someEnv oneFaqReady
                   [Qdrant.mkPoint (js "1") (Some [(1 # 2)%Q]) None;
                    Qdrant.mkPoint (js "2") None None])
                1%nat (Qdrant.mkPoint (js "2") None None) eq_refl eq_refl _).
  intros j q Hj Hq. destruct j as [| j]; [| lia].
  injection Hq as <-. reflexivity.
Defined.

(** X4 at a concrete input: two points, one request. *)
Lemma upsertPoints_sends_points_unchanged_witness :
  trace Sim.handle
        (Qdrant.upsertPoints Sim.someEnv
           [Qdrant.mkPoint (js "1") (Some [(1 # 2)%Q]) None;
            Qdrant.mkPoint (js "faq_2") (Some [(1 # 4)%Q]) None])
        oneFaqReady
  = [Called (Upsert (js "faq_embeddings")
               [mkPrepared 1 [(1 # 2)%Q] emptyPayload;
                mkPrepared 2 [(1 # 4)%Q] emptyPayload])].
Proof.
  unfold trace.
  rewrite (proj1 (@upsertPoints_sends_points_unchanged
                    Sim.World Sim.handle Sim.someEnv oneFaqReady
                    [Qdrant.mkPoint (js "1") (Some [(1 # 2)%Q]) None;
                     Qdrant.mkPoint (js "faq_2") (Some [(1 # 4)%Q]) None]
                    ltac:(discriminate) eq_refl)).
  reflexivity.
Defined.

(** X5 at a concrete input: a query, its embedding, one hit. *)
Lemma getFaqContext_embeds_then_searches_witness :
  result Sim.handle (Vector.getFaqContext Sim.someEnv (VStr (js " reset password "))) oneHit
  = Returned (Some (js "FAQ 1:" ++ LF ++ js "Question: reset password" ++ LF
                    ++ js "Answer: open the settings")).
Proof.
  assert (Hq : ~ blank (js " reset password ")) by (unfold blank; vm_compute; discriminate).
  assert (Hc : credentialUsable Sim.someEnv).
  { split; [reflexivity | unfold blank; vm_compute; discriminate]. }
  unfold result.
  rewrite (proj1 (@getFaqContext_embeds_then_searches
                    Sim.World Sim.handle Sim.someEnv oneHit (js " reset password ")
                    (1 # 2)%Q [(1 # 2)%Q]
                    (mkScored 1 (9 # 10)%Q
                       (Some (mkPayload (Some (js "reset password")) (Some [])
                                        (Some (js "open the settings")) (Some []) (Some [])
                                        (Some (js "reset password open the settings")))))
                    [] Hq Hc eq_refl eq_refl)).
  reflexivity.
Defined.

(** X6 at a concrete input: a query of white space makes no call. *)
Lemma getFaqContext_only_reads_witness :
  trace Sim.handle (Vector.getFaqContext Sim.someEnv (VStr (js "   "))) oneHit = [].
Proof.
  refine (proj1 (proj2 (proj2 (@getFaqContext_only_reads
                                 Sim.World Sim.handle Sim.someEnv oneHit (VStr (js "   ")))))
                _).
  intros q E. injection E as <-. reflexivity.
Defined.

(** X7 at a concrete input: one record, one point written. *)
Lemma syncFaqs_writes_one_point_per_record_witness :
  result Sim.handle (Sync.syncFaqs Sim.someEnv) oneFaqReady
  = Returned {| Sync.synced := 1; Sync.updated := 0; Sync.errors := 0 |}.
Proof.
  unfold result.
  rewrite (proj1 (@syncFaqs_writes_one_point_per_record
                    Sim.World Sim.handle Sim.someEnv
                    oneFaqReady oneFaqReady oneFaqReady oneFaqReady
                    [Called GetCollections]
                    [Called (HttpGet (js "http://faq.test/faqs") 4000)]
                    [embedCall Sim.someEnv (js "reset password open the settings")]
                    [faqReset] [[(1 # 2)%Q; (1 # 2)%Q]]
                    eq_refl eq_refl ltac:(discriminate) eq_refl eq_refl)).
  reflexivity.
Defined.

(** X8 at a concrete input: the report of a run over one record. *)
Lemma syncFaqs_report_witness :
  Sync.updated {| Sync.synced := 1; Sync.updated := 0; Sync.errors := 0 |} = 0%nat /\
  Sync.errors {| Sync.synced := 1; Sync.updated := 0; Sync.errors := 0 |} = 0%nat /\
  exists tr1 w1 tr2 w2 faqs,
    run Sim.handle (Qdrant.ensureCollection Sim.someEnv) oneFaqReady
    = (tr1, Returned tt, w1) /\
    run Sim.handle (Sync.fetchFaqs Sim.someEnv) w1 = (tr2, Returned faqs, w2) /\
    Sync.synced {| Sync.synced := 1; Sync.updated := 0; Sync.errors := 0 |} = length faqs /\
    allHaveIds faqs = true /\
    (faqs <> [] ->
     existsb isUpsert
             (trace Sim.handle
                    (Sync.syncFaqsWith Sim.someEnv
                       (Embeddings.generateEmbeddingsBatch Sim.someEnv))
                    oneFaqReady) = true).
Proof.
  exact (@syncFaqs_report Sim.World Sim.handle Sim.someEnv
                          (Embeddings.generateEmbeddingsBatch Sim.someEnv) oneFaqReady
                          {| Sync.synced := 1; Sync.updated := 0; Sync.errors := 0 |}
                          eq_refl).
Defined.

(** X9 at a concrete input: the second record of the feed has no id. *)
Lemma syncFaqs_missing_id_stops_before_embedding_witness :
  run Sim.handle (Sync.syncFaqs Sim.someEnv) idlessFeed
  = ([Called GetCollections; Called (HttpGet (js "http://faq.test/faqs") 4000)],
     Thrown FaqMissingId, idlessFeed).
Proof.
  exact (proj1 (@syncFaqs_missing_id_stops_before_embedding
                  Sim.World Sim.handle Sim.someEnv
                  (Embeddings.generateEmbeddingsBatch Sim.someEnv)
                  idlessFeed idlessFeed idlessFeed
                  [Called GetCollections]
                  [Called (HttpGet (js "http://faq.test/faqs") 4000)]
                  [faqReset; faqIdless]
                  eq_refl eq_refl eq_refl)).
Defined.

(** X10 at a concrete input: Qdrant cannot be reached. *)
Lemma syncFaqs_rethrows_stage_errors_witness :
  run Sim.handle (Sync.syncFaqs Sim.someEnv) qdrantDown
  = ([Called GetCollections], Thrown Sim.unreachable, qdrantDown).
Proof.
  exact (proj1 (@syncFaqs_rethrows_stage_errors
                  Sim.World Sim.handle Sim.someEnv
                  (Embeddings.generateEmbeddingsBatch Sim.someEnv) qdrantDown)
               [Called GetCollections] Sim.unreachable qdrantDown eq_refl).
Defined.

(** X11 at a concrete input: no feed URL in the environment. *)
Lemma syncFaqs_unconfigured_feed_witness :
  run Sim.handle (Sync.syncFaqs Sim.noEnv) oneFaqReady
  = ([Called GetCollections], Returned emptyReport, oneFaqReady).
Proof.
  exact (@syncFaqs_unconfigured_feed
           Sim.World Sim.handle Sim.noEnv oneFaqReady oneFaqReady
           [Called GetCollections] (Returned tt) eq_refl eq_refl).
Defined.

(** X13 at a concrete input: the second record of the feed has no text. *)
Lemma syncFaqs_blank_record_aborts_witness :
  (exists e, result Sim.handle (Sync.syncFaqs Sim.someEnv) textlessFeed = Thrown e) /\
  forallb notUpsert (trace Sim.handle (Sync.syncFaqs Sim.someEnv) textlessFeed) = true.
Proof.
  exact (@syncFaqs_blank_record_aborts
           Sim.World Sim.handle Sim.someEnv textlessFeed textlessFeed textlessFeed
           [Called GetCollections]
           [Called (HttpGet (js "http://faq.test/faqs") 4000)]
           [faqReset; faqTextless] faqTextless
           eq_refl eq_refl (or_intror (or_introl eq_refl)) I I I I).
Defined.

(** X14 at a concrete input: the query "password" over three FAQs, two
    of which contain it; the third FAQ is one of the FAQs returned. *)
Lemma selectRelevantFaqs_returns_matches_witness :
  In faqBoth
     (Lexical.selectRelevantFaqs Sim.someEnv Sim.asciiLower
                                 [faqReset; faqEmail; faqBoth]
                                 (VStr (js "password"))).
Proof.
  refine (proj2 (proj2 (@selectRelevantFaqs_returns_matches
                          Sim.someEnv Sim.asciiLower [faqReset; faqEmail; faqBoth]
                          (VStr (js "password")))
                       (js "password") eq_refl _
                       (ex_intro _ faqReset (conj (or_introl eq_refl) eq_refl)))
                _ faqBoth (or_intror (or_intror (or_introl eq_refl))) eq_refl).
  - discriminate.
  - vm_compute. discriminate.
Defined.

(** X15 at a concrete input: the query "email password"; the third FAQ
    contains both of its tokens and comes first. *)
Lemma selectRelevantFaqs_best_first_witness :
  exists best rest i,
    Lexical.selectRelevantFaqs Sim.someEnv Sim.asciiLower [faqReset; faqEmail; faqBoth]
                               (VStr (js "email password"))
    = best :: rest /\
    nth_error [faqReset; faqEmail; faqBoth] i = Some best /\
    (forall faq, In faq [faqReset; faqEmail; faqBoth] ->
                 scoreFor Sim.asciiLower (js "email password") faq
                 <= scoreFor Sim.asciiLower (js "email password") best) /\
    (forall j faq, (j < i)%nat -> nth_error [faqReset; faqEmail; faqBoth] j = Some faq ->
                   scoreFor Sim.asciiLower (js "email password") faq
                   < scoreFor Sim.asciiLower (js "email password") best).
Proof.
  exact (@selectRelevantFaqs_best_first
           Sim.someEnv Sim.asciiLower [faqReset; faqEmail; faqBoth] (js "email password")
           eq_refl ltac:(discriminate)
           (ex_intro _ faqReset (conj (or_introl eq_refl) eq_refl))).
Defined.



(** X18 at a concrete input: Qdrant cannot be reached, which is no
    authorisation failure; the test resolves to undefined. *)
Lemma testConnection_never_throws_witness :
  run Sim.handle
      (Connection.testConnection Sim.someEnv (fun _ => false) (fun _ => js "error")
                                 (Throw Sim.notFound))
      qdrantDown
  = ([Called GetCollections], Returned None, qdrantDown).
Proof.
  exact (proj1 (proj2 (@testConnection_never_throws
                         Sim.World Sim.handle Sim.someEnv (fun _ => false)
                         (fun _ => js "error") (Throw Sim.notFound) qdrantDown))
               Sim.unreachable eq_refl).
Defined.

(** X19 at a concrete input: a prompt prefix with trailing white space. *)
Lemma enhancedPromptPrefix_keeps_scope_witness :
  BuildOptions.enhancedPromptPrefix (js "Answer only about the product.")
                                    (Some (js "Be brief.  "))
  = js "Answer only about the product." ++ LF ++ LF ++ js "Be brief.".
Proof.
  exact (proj2 (proj2 (@enhancedPromptPrefix_keeps_scope
                         (js "Answer only about the product.") (Some (js "Be brief.  "))
                         (conj eq_refl eq_refl) ltac:(discriminate)))
               (js "Be brief.  ") eq_refl eq_refl).
Defined.

(** X20 at a concrete input: a store with no collection. *)
Lemma ensureCollection_creates_when_missing_witness :
  trace Sim.handle (Qdrant.ensureCollection Sim.someEnv) oneFaqFresh
  = [Called GetCollections; Called (CreateCollection (js "faq_embeddings") 3072)].
Proof.
  unfold trace.
  rewrite (proj1 (proj2 (@ensureCollection_creates_when_missing
                           Sim.World Sim.handle Sim.someEnv oneFaqFresh))
                 [] eq_refl (fun H => H)).
  reflexivity.
Defined.

(** X21 at a concrete input: no key in the environment. *)
Lemma generateEmbedding_error_causes_witness :
  run Sim.handle (Embeddings.generateEmbedding Sim.noEnv (VStr (js "hi"))) twoComponentWorld
  = ([], Thrown GoogleKeyNotConfigured, twoComponentWorld).
Proof.
  exact (proj1 (@generateEmbedding_error_causes
                  Sim.World Sim.handle Sim.noEnv twoComponentWorld (VStr (js "hi")))
               eq_refl).
Defined.

(* ================================================================== *)
(** * index.js: the tokens, the combined text and the selection *)
(* ================================================================== *)














(** A text has one list of tokens. *)
Lemma run_unique (t t' r r' : jsstring) :
  forallb (fun c => negb (isWhiteSpace c)) t = true ->
  forallb (fun c => negb (isWhiteSpace c)) t' = true ->
  atGap r -> atGap r' ->
  t ++ r = t' ++ r' -> t = t' /\ r = r'.
Proof.
  revert t'; induction t as [| x t IH]; intros [| y t'] Ht Ht' Hr Hr' E;
    cbn [app forallb] in *.
  - split; [reflexivity | exact E].
  - exfalso. subst r. cbn [atGap] in Hr.
    apply andb_true_iff in Ht'. destruct Ht' as [Hy _].
    rewrite Hr in Hy. discriminate.
  - exfalso. subst r'. cbn [atGap] in Hr'.
    apply andb_true_iff in Ht. destruct Ht as [Hx _].
    rewrite Hr' in Hx. discriminate.
  - injection E as <- E.
    apply andb_true_iff in Ht. destruct Ht as [_ Ht].
    apply andb_true_iff in Ht'. destruct Ht' as [_ Ht'].
    destruct (IH t' Ht Ht' Hr Hr' E) as [-> ->]. split; reflexivity.
Qed.

Lemma gap_token_unique (gap gap' token token' rest rest' : jsstring) :
  forallb isWhiteSpace gap = true -> forallb isWhiteSpace gap' = true ->
  token <> [] -> token' <> [] ->
  forallb (fun c => negb (isWhiteSpace c)) token = true ->
  forallb (fun c => negb (isWhiteSpace c)) token' = true ->
  atGap rest -> atGap rest' ->
  gap ++ token ++ rest = gap' ++ token' ++ rest' ->
  gap = gap' /\ token = token' /\ rest = rest'.
Proof.
  revert gap'; induction gap as [| g gap IH]; intros [| g' gap'] Hg Hg' Hne Hne' Ht Ht' Hr Hr' E;
    cbn [app forallb] in *.
  - destruct (run_unique _ _ _ _ Ht Ht' Hr Hr' E) as [-> ->]. repeat split.
  - exfalso. destruct token as [| x token]; [contradiction |].
    cbn [app forallb] in *. injection E as -> _.
    apply andb_true_iff in Ht. destruct Ht as [Hx _].
    apply andb_true_iff in Hg'. destruct Hg' as [Hg' _].
    rewrite Hg' in Hx. discriminate.
  - exfalso. destruct token' as [| y token']; [contradiction |].
    cbn [app forallb] in *. injection E as -> _.
    apply andb_true_iff in Ht'. destruct Ht' as [Hy _].
    apply andb_true_iff in Hg. destruct Hg as [Hg _].
    rewrite Hg in Hy. discriminate.
  - injection E as <- E.
    apply andb_true_iff in Hg. destruct Hg as [_ Hg].
    apply andb_true_iff in Hg'. destruct Hg' as [_ Hg'].
    destruct (IH gap' Hg Hg' Hne Hne' Ht Ht' Hr Hr' E) as [-> [-> ->]]. repeat split.
Qed.

Lemma whitespaceTokens_unique (s : jsstring) (tokens tokens' : list jsstring) :
  whitespaceTokens s tokens -> whitespaceTokens s tokens' -> tokens = tokens'.
Proof.
  intros H. revert tokens'.
  induction H as [gap Hgap | gap token rest ts Hgap Hne Htok Hrest Hts IH];
    intros tokens' H'.
  - inversion H' as [gap' Hgap' E | gap' token' rest' ts' Hgap' Hne' Htok' Hrest' Hts' E];
      [reflexivity | exfalso].
    subst gap. rewrite !forallb_app in Hgap.
    apply andb_true_iff in Hgap. destruct Hgap as [_ Hgap].
    apply andb_true_iff in Hgap. destruct Hgap as [Hall _].
    destruct token' as [| y token']; [contradiction |]. cbn [forallb] in *.
    apply andb_true_iff in Hall. destruct Hall as [Hy _].
    apply andb_true_iff in Htok'. destruct Htok' as [Hy' _].
    rewrite Hy in Hy'. discriminate.
  - inversion H' as [gap' Hgap' E | gap' token' rest' ts' Hgap' Hne' Htok' Hrest' Hts' E].
    + exfalso. subst gap'. rewrite !forallb_app in Hgap'.
      apply andb_true_iff in Hgap'. destruct Hgap' as [_ Hgap'].
      apply andb_true_iff in Hgap'. destruct Hgap' as [Hall _].
      destruct token as [| y token]; [contradiction |]. cbn [forallb] in *.
      apply andb_true_iff in Hall. destruct Hall as [Hy _].
      apply andb_true_iff in Htok. destruct Htok as [Hy' _].
      rewrite Hy in Hy'. discriminate.
    + symmetry in E.
      destruct (gap_token_unique _ _ _ _ Hgap Hgap' Hne Hne' Htok Htok' Hrest Hrest' E)
        as [_ [<- <-]].
      f_equal. apply IH. exact Hts'.
Qed.

(* ================================================================== *)
(** * The formatters: the budget and the cut *)
(* ================================================================== *)

Lemma budget_configured (env : ProcessEnv) :
  (forall n, env_FAQ_CONTEXT_CHAR_LIMIT env = Some n -> n <> 0 ->
             Lexical.CONTEXT_CHAR_LIMIT env = n) /\
  (env_FAQ_CONTEXT_CHAR_LIMIT env = None \/ env_FAQ_CONTEXT_CHAR_LIMIT env = Some 0 ->
   Lexical.CONTEXT_CHAR_LIMIT env = 2000).
Proof.
  unfold Lexical.CONTEXT_CHAR_LIMIT. split.
  - intros n E Hn. rewrite E. cbn [orNumber]. apply Z.eqb_neq in Hn. rewrite Hn. reflexivity.
  - intros [E | E]; rewrite E; reflexivity.
Qed.

(** [slice(0, n)] for [n] that is not negative: the first [n] elements,
    all of them when there are fewer. *)
Lemma slice0_cut {A} (l : list A) (n : Z) :
  0 <= n ->
  slice0 l n = firstn (Z.to_nat n) l /\
  Z.of_nat (length (slice0 l n)) = Z.min n (Z.of_nat (length l)).
Proof.
  intros Hn. rewrite slice0_firstn by exact Hn. split; [reflexivity |].
  rewrite length_firstn. lia.
Qed.

(** [slice(0, n)] for a negative [n]: all but the last [-n] elements. *)
Lemma slice0_from_end {A} (l : list A) (n : Z) :
  n < 0 ->
  slice0 l n = firstn (length l - Z.to_nat (- n)) l.
Proof.
  intros Hn. unfold slice0. apply Z.ltb_lt in Hn. rewrite Hn. apply Z.ltb_lt in Hn.
  f_equal. lia.
Qed.

(** C8 (amended): the two formatters.  The budget of index.js is
    FAQ_CONTEXT_CHAR_LIMIT when that is a number other than 0, and 2000
    otherwise; the budget of the vector module is always 2000.  The
    i-th FAQ (from 0) gives the Question/Answer block numbered i + 1,
    and the blocks are joined by a blank line.  For a budget that is
    not negative the output is exactly the first [budget] characters of
    that text, so its length is the smaller of the budget and the
    length of the text; for a negative budget it is the text without
    its last [-budget] characters.  The FAQ with question "Q1" and
    answer "A1" is rendered by index.js exactly as
    "FAQ 1:\nQuestion: Q1\nAnswer: A1" when the budget has room for these
    30 characters; the vector module reads the fields [questionEnglish]
    and [answerEnglish] and renders the FAQ that carries "Q1" and "A1"
    there in the same way.  The empty list gives the empty string. *)
Theorem formatFaqContext_truncates :
  forall (env : ProcessEnv) (faqs : list RawFaq) (results : list Qdrant.SearchResult),
    let budget := Lexical.CONTEXT_CHAR_LIMIT env in
    let lexicalText := join (LF ++ LF) (Lexical.blocks faqs 0) in
    let vectorText := join (LF ++ LF) (Vector.blocks results 0) in
    ((forall n, env_FAQ_CONTEXT_CHAR_LIMIT env = Some n -> n <> 0 -> budget = n) /\
     (env_FAQ_CONTEXT_CHAR_LIMIT env = None \/ env_FAQ_CONTEXT_CHAR_LIMIT env = Some 0 ->
      budget = 2000)) /\
    (forall i faq,
        nth_error faqs i = Some faq ->
        nth_error (Lexical.blocks faqs 0) i
        = Some (js "FAQ " ++ ofNat (i + 1) ++ js ":" ++ LF ++
                js "Question: " ++ shownQuestion faq ++ LF ++
                js "Answer: " ++ shownAnswer faq)) /\
    (forall i r,
        nth_error results i = Some r ->
        nth_error (Vector.blocks results 0) i
        = Some (js "FAQ " ++ ofNat (i + 1) ++ js ":" ++ LF ++
                js "Question: " ++ shownQuestionOf r ++ LF ++
                js "Answer: " ++ shownAnswerOf r)) /\
    (0 <= budget ->
     Lexical.formatFaqContext env faqs = firstn (Z.to_nat budget) lexicalText /\
     Z.of_nat (length (Lexical.formatFaqContext env faqs))
     = Z.min budget (Z.of_nat (length lexicalText))) /\
    (budget < 0 ->
     Lexical.formatFaqContext env faqs
     = firstn (length lexicalText - Z.to_nat (- budget)) lexicalText) /\
    (Vector.formatFaqContext results = firstn 2000 vectorText /\
     Z.of_nat (length (Vector.formatFaqContext results))
     = Z.min 2000 (Z.of_nat (length vectorText))) /\
    (30 <= budget -> Lexical.formatFaqContext env [faqQ1A1] = contextQ1A1) /\
    Vector.formatFaqContext [resultQ1A1] = contextQ1A1 /\
    Lexical.formatFaqContext env [] = [] /\
    Vector.formatFaqContext [] = [].
Proof.
  intros env faqs results budget lexicalText vectorText.
  split; [apply budget_configured |].
  split; [intros i faq Hi; rewrite (lexical_blocks_nth faqs 0 i Hi); reflexivity |].
  split; [intros i r Hi; rewrite (vector_blocks_nth results 0 i Hi); reflexivity |].
  split; [intros Hb; rewrite lexical_format_slice; apply slice0_cut; exact Hb |].
  split; [intros Hb; rewrite lexical_format_slice; apply slice0_from_end; exact Hb |].
  split.
  { rewrite vector_format_slice.
    apply (@slice0_cut _ vectorText Vector.CONTEXT_CHAR_LIMIT). discriminate. }
  split.
  { intros Hroom. rewrite lexical_format_slice. apply slice0_all.
    vm_compute (Z.of_nat _). exact Hroom. }
  split; [vm_compute; reflexivity |].
  split; reflexivity.
Qed.

(** C8 at a concrete input: with FAQ_CONTEXT_CHAR_LIMIT=10 the output is
    the first ten characters; with the default budget the FAQ is
    rendered whole. *)
Lemma formatFaqContext_truncates_witness :
  Lexical.formatFaqContext budget10Env [faqQ1A1] = js "FAQ 1:" ++ LF ++ js "Que" /\
  Lexical.formatFaqContext Sim.noEnv [faqQ1A1] = contextQ1A1.
Proof.
  pose proof (@formatFaqContext_truncates budget10Env [faqQ1A1] [resultQ1A1]) as H10.
  pose proof (@formatFaqContext_truncates Sim.noEnv [faqQ1A1] [resultQ1A1]) as H.
  cbv zeta in H10, H.
  destruct H10 as [_ [_ [_ [Hcut _]]]].
  destruct H as [_ [_ [_ [_ [_ [_ [Hroom _]]]]]]].
  split.
  - rewrite (proj1 (Hcut ltac:(discriminate))). reflexivity.
  - apply Hroom. discriminate.
Defined.

(** C8, counterexample.  With FAQ_CONTEXT_CHAR_LIMIT=10, index.js does
    not render the FAQ with question "Q1" and answer "A1" as the
    specification gives it.  With FAQ_CONTEXT_CHAR_LIMIT=-5 its output
    has 25 characters, more than the budget.  And the vector module
    renders that FAQ, which has no [questionEnglish] and no
    [answerEnglish], with the two placeholders. *)
Lemma formatFaqContext_counterexample :
  ~ renders_Q1A1_exactly budget10Env /\
  ~ within_budget negativeBudgetEnv [faqQ1A1] /\
  Vector.formatFaqContext [resultQuestionAnswer]
  = js "FAQ 1:" ++ LF ++ js "Question: Question unavailable" ++ LF
    ++ js "Answer: Answer unavailable" /\
  Vector.formatFaqContext [resultQuestionAnswer] <> contextQ1A1.
Proof.
  split; [| split; [| split]].
  - unfold renders_Q1A1_exactly. vm_compute. discriminate.
  - unfold within_budget. vm_compute. intros H. apply H. reflexivity.
  - vm_compute. reflexivity.
  - vm_compute. discriminate.
Qed.

(* ================================================================== *)
(** * sync.js: the count check *)
(* ================================================================== *)

Section CountCheck.

Context {W : Type} (h : Handler W) (env : ProcessEnv).





End CountCheck.


